(** * VSBuffer: a byte buffer over typed arrays (vs/base/common/buffer.ts)

    A shallow embedding of the [VSBuffer] class and of the free functions
    of [buffer.ts].  JavaScript numbers are modelled by the integers they
    denote ([Z]); typed arrays are views (backing store, offset, length)
    into a heap of [ArrayBuffer]s, so that aliasing between views produced
    by [subarray] is visible in the model.  Allocation is that of the
    host: on Node a [Buffer] shorter than half of [Buffer.poolSize] is a
    piece of a pool shared by all such buffers, and no host makes a typed
    array longer than it allows. *)

From Stdlib Require Import ZArith Lia.
From stdpp Require Import base option list relations.

Local Open Scope Z_scope.

(** ** The host environment *)

(** [hasBuffer], [hasTextEncoder] and [hasTextDecoder] are the three
    module-level feature tests of [buffer.ts].  [uninitialized] gives the
    content found in memory that Node's [Buffer] obtains without clearing
    it: the byte at index [i] of the [n]-th array buffer of the heap.
    [poolSize] is [Buffer.poolSize], and [extraLength] is what the host
    allows a typed array to hold beyond 2^30 - 1 bytes. *)
Record Host := {
  hasBuffer : bool;
  hasTextEncoder : bool;
  hasTextDecoder : bool;
  uninitialized : nat -> nat -> Z;
  poolSize : nat;
  extraLength : N
}.

(** The longest typed array the host makes ([buffer.constants.MAX_LENGTH]
    for a [Buffer]): 2^30 - 1, the limit of a 32-bit engine, or more, and
    at most 2^53 - 1, the largest length the language has. *)
Definition maxLength (host : Host) : Z :=
  Z.min (0x3FFFFFFF + Z.of_N (extraLength host)) 0x1FFFFFFFFFFFFF.

(** ** Typed arrays *)

(** The heap: one list of bytes per [ArrayBuffer], addressed by position. *)
Abbreviation Heap := (list (list Z)).

(** A [Uint8Array] (or a Node [Buffer], which is a [Uint8Array] subclass):
    a window of [u8_byteLength] bytes starting at [u8_byteOffset] in the
    array buffer [u8_data]. *)
Record Uint8Array := {
  u8_data : nat;
  u8_byteOffset : nat;
  u8_byteLength : nat;
  u8_isBuffer : bool
}.

Inductive Error := RangeError.

Inductive Completion (A : Type) :=
| Normal (a : A)
| Throw (e : Error).
Arguments Normal {A} a.
Arguments Throw {A} e.

(** Computations that read and write a state and may throw; what was
    written before an exception stays written. *)
Definition State (S A : Type) : Type := S -> Completion A * S.

Definition ret {S A} (a : A) : State S A := fun s => (Normal a, s).

Definition bind {S A B} (c : State S A) (k : A -> State S B) : State S B :=
  fun s => match c s with
           | (Normal a, s') => k a s'
           | (Throw e, s') => (Throw e, s')
           end.

(** The computations that only read and write the heap. *)
Definition Js (A : Type) : Type := State Heap A.

Notation "'let*' x := c 'in' k" := (bind c (fun x => k))
  (at level 10, x name, c at level 100, k at level 200).

(** Conversion of a number to an element of a [Uint8Array]. *)
Definition ToUint8 (v : Z) : Z := v mod 256.

Definition is_byte (b : Z) : Prop := 0 <= b < 256.

(** Every cell of every array buffer holds a byte. *)
Definition heap_bytes (h : Heap) : Prop := Forall (Forall is_byte) h.

(** [v >>> n]: the operand is first converted to an unsigned 32-bit
    integer. *)
Definition ushr (v n : Z) : Z := Z.shiftr (v mod 2 ^ 32) n.

Definition is_index (a : Uint8Array) (i : Z) : bool :=
  (0 <=? i) && (i <? Z.of_nat (u8_byteLength a)).

(** [a[i]] as an expression: [None] stands for [undefined]. *)
Definition u8_get (h : Heap) (a : Uint8Array) (i : Z) : option Z :=
  if is_index a i then
    match h !! u8_data a with
    | Some bs => bs !! (u8_byteOffset a + Z.to_nat i)%nat
    | None => None
    end
  else None.

(** [a[i] = v]: a store outside the view is ignored. *)
Definition u8_put (a : Uint8Array) (i v : Z) (h : Heap) : Heap :=
  if is_index a i then
    alter (fun bs => <[(u8_byteOffset a + Z.to_nat i)%nat := ToUint8 v]> bs)
          (u8_data a) h
  else h.

(** The bytes seen through a view. *)
Definition u8_bytes (h : Heap) (a : Uint8Array) : list Z :=
  take (u8_byteLength a) (drop (u8_byteOffset a) (default [] (h !! u8_data a))).

Definition splice (pos : nat) (src bs : list Z) : list Z :=
  take pos bs ++ src ++ drop (pos + length src) bs.

(** [target.set(source, offset)]: throws a [RangeError] when the source
    does not fit; the source bytes are read before any byte is written. *)
Definition u8_set (target source : Uint8Array) (offset : option Z) : Js unit :=
  fun h =>
    let targetOffset := default 0 offset in
    if (targetOffset <? 0)
       || (Z.of_nat (u8_byteLength target)
           <? Z.of_nat (u8_byteLength source) + targetOffset)
    then (Throw RangeError, h)
    else
      let src := u8_bytes h source in
      (Normal tt,
       alter (splice (u8_byteOffset target + Z.to_nat targetOffset) src)
             (u8_data target) h).

(** [a.subarray(begin, end)]: a new view on the same array buffer, with
    the relative-index clamping of the language. *)
Definition clamp_index (len : Z) (rel : Z) : Z :=
  if rel <? 0 then Z.max (len + rel) 0 else Z.min rel len.

Definition u8_subarray (a : Uint8Array) (begin end_ : option Z) : Uint8Array :=
  let srcLength := Z.of_nat (u8_byteLength a) in
  let beginIndex := clamp_index srcLength (default 0 begin) in
  let endIndex := clamp_index srcLength (default srcLength end_) in
  let newLength := Z.max (endIndex - beginIndex) 0 in
  {| u8_data := u8_data a;
     u8_byteOffset := u8_byteOffset a + Z.to_nat beginIndex;
     u8_byteLength := Z.to_nat newLength;
     u8_isBuffer := u8_isBuffer a |}.

(** ** Allocation *)

(** The pool of Node's [Buffer] (lib/buffer.js): the array buffer
    [allocPool], whose bytes from [poolOffset] on have not been handed out. *)
Record Pool := {
  allocPool : nat;
  poolOffset : nat
}.

(** The heap together with the state of the allocator.  There is no pool
    before the first buffer is taken from one. *)
Record Store := {
  memory : Heap;
  pool : option Pool
}.

(** The computations that may also allocate. *)
Definition Run (A : Type) : Type := State Store A.

Definition lift {A} (c : Js A) : Run A :=
  fun st => match c (memory st) with
            | (r, h) => (r, {| memory := h; pool := pool st |})
            end.

(** Allocation of a new array buffer holding [bs], and a view on all of it. *)
Definition fresh_view (isBuffer : bool) (bs : list Z) : Run Uint8Array :=
  fun st =>
    (Normal {| u8_data := length (memory st);
               u8_byteOffset := 0;
               u8_byteLength := length bs;
               u8_isBuffer := isBuffer |},
     {| memory := memory st ++ [bs]; pool := pool st |}).

(** [new Uint8Array(n)]: a new array buffer, zero-filled; a [RangeError]
    for a length the host does not allow. *)
Definition new_Uint8Array (host : Host) (n : Z) : Run Uint8Array :=
  fun st =>
    if (n <? 0) || (maxLength host <? n) then (Throw RangeError, st)
    else fresh_view false (replicate (Z.to_nat n) 0) st.

(** The content of [n] bytes of memory that was not cleared, in the array
    buffer [data]. *)
Definition unsafe_bytes (host : Host) (data n : nat) : list Z :=
  map (fun i => ToUint8 (uninitialized host data i)) (seq 0 n).

(** [createUnsafeBuffer(size)]: a new array buffer, not cleared. *)
Definition createUnsafeBuffer (host : Host) (size : nat) : Run Uint8Array :=
  fun st => fresh_view true (unsafe_bytes host (length (memory st)) size) st.

(** [createPool()]: a new array buffer of [Buffer.poolSize] bytes becomes
    the pool. *)
Definition createPool (host : Host) (h : Heap) : Pool * Heap :=
  ({| allocPool := length h; poolOffset := 0 |},
   h ++ [unsafe_bytes host (length h) (poolSize host)]).

(** [poolSize - poolOffset]: what is left of the pool. *)
Definition pool_room (h : Heap) (p : Pool) : nat :=
  (length (default [] (h !! allocPool p)) - poolOffset p)%nat.

(** [alignPool()]: [poolOffset] moves up to a multiple of 8. *)
Definition alignPool (offset : nat) : nat :=
  if (offset mod 8 =? 0)%nat then offset else (offset - offset mod 8 + 8)%nat.

(** [allocate(size)]: no memory for an empty buffer; a buffer shorter
    than half of [Buffer.poolSize] is the next piece of the pool, of a new
    pool when the present one has no room for it; a longer one gets an
    array buffer of its own. *)
Definition allocate (host : Host) (size : nat) : Run Uint8Array :=
  fun st =>
    if (size =? 0)%nat then fresh_view true [] st
    else if (size <? poolSize host / 2)%nat then
      let '(p, h) :=
        match pool st with
        | Some p =>
            if (pool_room (memory st) p <? size)%nat
            then createPool host (memory st)
            else (p, memory st)
        | None => createPool host (memory st)
        end in
      (Normal {| u8_data := allocPool p;
                 u8_byteOffset := poolOffset p;
                 u8_byteLength := size;
                 u8_isBuffer := true |},
       {| memory := h;
          pool := Some {| allocPool := allocPool p;
                          poolOffset := alignPool (poolOffset p + size) |} |})
    else createUnsafeBuffer host size st.

(** [Buffer.allocUnsafe(n)]: the content is whatever the memory held; a
    [RangeError] for a length the host does not allow. *)
Definition Buffer_allocUnsafe (host : Host) (n : Z) : Run Uint8Array :=
  fun st =>
    if (n <? 0) || (maxLength host <? n) then (Throw RangeError, st)
    else allocate host (Z.to_nat n) st.

(** [Buffer.from(arrayBuffer, byteOffset, length)]: a [Buffer] sharing the
    memory of the given region. *)
Definition Buffer_from_arrayBuffer (data byteOffset len : nat) : Uint8Array :=
  {| u8_data := data; u8_byteOffset := byteOffset; u8_byteLength := len;
     u8_isBuffer := true |}.

(** ** The class [VSBuffer] *)

Record VSBuffer := {
  buffer : Uint8Array;
  byteLength : nat
}.

(** The private constructor. *)
Definition new_VSBuffer (buffer : Uint8Array) : VSBuffer :=
  {| buffer := buffer; byteLength := u8_byteLength buffer |}.

Definition alloc (host : Host) (byteLength : Z) : Run VSBuffer :=
  if hasBuffer host then
    let* b := Buffer_allocUnsafe host byteLength in ret (new_VSBuffer b)
  else
    let* b := new_Uint8Array host byteLength in ret (new_VSBuffer b).

Definition wrap (host : Host) (actual : Uint8Array) : VSBuffer :=
  let actual :=
    if hasBuffer host && negb (u8_isBuffer actual) then
      Buffer_from_arrayBuffer (u8_data actual) (u8_byteOffset actual)
                              (u8_byteLength actual)
    else actual in
  new_VSBuffer actual.

Definition slice (b : VSBuffer) (start end_ : option Z) : VSBuffer :=
  new_VSBuffer (u8_subarray (buffer b) start end_).

Definition set (b array : VSBuffer) (offset : option Z) : Js unit :=
  u8_set (buffer b) (buffer array) offset.

(** The two loops of [concat]. *)
Definition sum_byteLength (buffers : list VSBuffer) : Z :=
  fold_left (fun total b => total + Z.of_nat (byteLength b)) buffers 0.

Fixpoint concat_fill (r : VSBuffer) (buffers : list VSBuffer) (offset : Z)
  : Js unit :=
  match buffers with
  | [] => ret tt
  | element :: rest =>
      let* _ := set r element (Some offset) in
      concat_fill r rest (offset + Z.of_nat (byteLength element))
  end.

Definition concat (host : Host) (buffers : list VSBuffer)
    (totalLength : option Z) : Run VSBuffer :=
  let totalLength :=
    match totalLength with
    | None => sum_byteLength buffers
    | Some n => n
    end in
  let* r := alloc host totalLength in
  let* _ := lift (concat_fill r buffers 0) in
  ret r.

(** ** Integer codecs *)

Definition add_number (x y : option Z) : option Z :=
  match x, y with
  | Some a, Some b => Some (a + b)
  | _, _ => None
  end.

Definition mul_number (x : option Z) (k : Z) : option Z :=
  match x with
  | Some a => Some (a * k)
  | None => None
  end.

(** [None] stands for [NaN], the result of arithmetic on [undefined]. *)
Definition readUInt32BE (h : Heap) (source : Uint8Array) (offset : Z) : option Z :=
  add_number
    (add_number
       (add_number (mul_number (u8_get h source offset) (2 ^ 24))
                   (mul_number (u8_get h source (offset + 1)) (2 ^ 16)))
       (mul_number (u8_get h source (offset + 2)) (2 ^ 8)))
    (u8_get h source (offset + 3)).

Definition writeUInt32BE (destination : Uint8Array) (value offset : Z)
    (h : Heap) : Heap :=
  let h := u8_put destination (offset + 3) value h in
  let value := ushr value 8 in
  let h := u8_put destination (offset + 2) value h in
  let value := ushr value 8 in
  let h := u8_put destination (offset + 1) value h in
  let value := ushr value 8 in
  u8_put destination offset value h.

Definition readUInt8 (h : Heap) (source : Uint8Array) (offset : Z) : option Z :=
  u8_get h source offset.

Definition writeUInt8 (destination : Uint8Array) (value offset : Z)
    (h : Heap) : Heap :=
  u8_put destination offset value h.

(** The methods of the class delegate to the free functions. *)
Definition VSBuffer_readUInt32BE (h : Heap) (b : VSBuffer) (offset : Z) :=
  readUInt32BE h (buffer b) offset.

Definition VSBuffer_writeUInt32BE (b : VSBuffer) (value offset : Z) (h : Heap) :=
  writeUInt32BE (buffer b) value offset h.

Definition VSBuffer_readUInt8 (h : Heap) (b : VSBuffer) (offset : Z) :=
  readUInt8 h (buffer b) offset.

Definition VSBuffer_writeUInt8 (b : VSBuffer) (value offset : Z) (h : Heap) :=
  writeUInt8 (buffer b) value offset h.

(** ** Well-formed views *)

(** A view lies inside its array buffer. *)
Definition view_ok (h : Heap) (a : Uint8Array) : Prop :=
  exists bs, h !! u8_data a = Some bs
             /\ (u8_byteOffset a + u8_byteLength a <= length bs)%nat.

(** The bytes of a buffer, as seen through its handle. *)
Definition bytes_of (h : Heap) (b : VSBuffer) : list Z := u8_bytes h (buffer b).

(** The class invariant together with the validity of the backing view. *)
Definition handle_ok (h : Heap) (b : VSBuffer) : Prop :=
  byteLength b = u8_byteLength (buffer b) /\ view_ok h (buffer b).

(** No array buffer of [h] is lost or resized in [h']. *)
Definition same_sizes (h h' : Heap) : Prop :=
  forall n bs, h !! n = Some bs ->
               exists bs', h' !! n = Some bs' /\ length bs' = length bs.

(** The pool is one of the array buffers. *)
Definition store_ok (st : Store) : Prop :=
  forall p, pool st = Some p -> (allocPool p < length (memory st))%nat.

(** A view that holds none of the bytes of the pool that have not been
    handed out. *)
Definition outside_free_pool (st : Store) (a : Uint8Array) : Prop :=
  forall p, pool st = Some p -> u8_data a = allocPool p ->
            (u8_byteOffset a + u8_byteLength a <= poolOffset p)%nat.

(** Two views without a byte in common. *)
Definition disjoint (a a' : Uint8Array) : Prop :=
  u8_data a <> u8_data a'
  \/ (u8_byteOffset a + u8_byteLength a <= u8_byteOffset a')%nat
  \/ (u8_byteOffset a' + u8_byteLength a' <= u8_byteOffset a)%nat.

(** What an allocation that takes [st] to [st'] and returns the view [a]
    does: the heap keeps what it holds and gains at most array buffers;
    [a] lies in the heap and is memory handed out now: it shares no byte
    with a view that was in the heap outside the free part of the pool;
    and, the pool being in order, it stays so, with [a] outside its free
    part from now on, as those views are. *)
Definition handed_out (st : Store) (a : Uint8Array) (st' : Store) : Prop :=
  (exists ext, memory st' = memory st ++ ext /\ heap_bytes ext)
  /\ view_ok (memory st') a
  /\ (forall a0, view_ok (memory st) a0 -> outside_free_pool st a0 -> disjoint a a0)
  /\ (store_ok st ->
      store_ok st' /\ outside_free_pool st' a
      /\ forall a0, view_ok (memory st) a0 -> outside_free_pool st a0 ->
                    outside_free_pool st' a0).

(** What an operation that takes [st] to [st'] and returns the view [a]
    does when it builds a buffer: [a] lies in the heap, whose array
    buffers are as long as before; [a] is memory handed out by the
    operation, and nothing else is written: a view that was in the heap
    outside the free part of the pool shares no byte with [a] and shows
    the bytes it showed; and, the pool being in order, it stays so, with
    [a] outside its free part from now on, as those views are. *)
Definition builds (st : Store) (a : Uint8Array) (st' : Store) : Prop :=
  view_ok (memory st') a
  /\ same_sizes (memory st) (memory st')
  /\ (forall a0, view_ok (memory st) a0 -> outside_free_pool st a0 ->
                 disjoint a a0 /\ u8_bytes (memory st') a0 = u8_bytes (memory st) a0)
  /\ (store_ok st ->
      store_ok st' /\ outside_free_pool st' a
      /\ forall a0, view_ok (memory st) a0 -> outside_free_pool st a0 ->
                    outside_free_pool st' a0).

(** ** Strings and UTF-8 *)

(** A string of the language is a sequence of 16-bit code units. *)
Abbreviation JsString := (list Z).

Definition code_unit (c : Z) : Prop := 0 <= c < 0x10000.

Definition isHighSurrogate (c : Z) : bool := (0xD800 <=? c) && (c <=? 0xDBFF).

Definition isLowSurrogate (c : Z) : bool := (0xDC00 <=? c) && (c <=? 0xDFFF).

(** A string is well formed when every surrogate code unit is part of a
    pair: a high surrogate immediately followed by a low one. *)
Fixpoint well_formed (s : JsString) : bool :=
  match s with
  | [] => true
  | c :: rest =>
      if isHighSurrogate c then
        match rest with
        | d :: rest' => isLowSurrogate d && well_formed rest'
        | [] => false
        end
      else negb (isLowSurrogate c) && well_formed rest
  end.

(** A scalar value: a code point that is not a surrogate. *)
Definition scalar_value (cp : Z) : Prop :=
  0 <= cp < 0x110000 /\ ~ 0xD800 <= cp <= 0xDFFF.

(** The string begins with the byte order mark U+FEFF. *)
Definition starts_with_BOM (s : JsString) : bool :=
  match s with
  | c :: _ => c =? 0xFEFF
  | [] => false
  end.

(** *** The encoder of the host ([Buffer.from(string)], [TextEncoder]) *)

(** Conversion of a string to scalar values: surrogate pairs are combined,
    a surrogate that is not part of a pair becomes U+FFFD. *)
Fixpoint code_points (s : JsString) : list Z :=
  match s with
  | [] => []
  | c :: rest =>
      if isHighSurrogate c then
        match rest with
        | d :: rest' =>
            if isLowSurrogate d then
              (0x10000 + (c - 0xD800) * 0x400 + (d - 0xDC00)) :: code_points rest'
            else 0xFFFD :: code_points rest
        | [] => [0xFFFD]
        end
      else if isLowSurrogate c then 0xFFFD :: code_points rest
      else c :: code_points rest
  end.

(** One scalar value to one through four bytes: a lead byte holding the
    high bits, then continuation bytes of six bits each. *)
Definition utf8_encode_code_point (cp : Z) : list Z :=
  if cp <? 0x80 then [cp]
  else if cp <? 0x800 then
    [Z.shiftr cp 6 + 0xC0;
     Z.lor 0x80 (Z.land cp 0x3F)]
  else if cp <? 0x10000 then
    [Z.shiftr cp 12 + 0xE0;
     Z.lor 0x80 (Z.land (Z.shiftr cp 6) 0x3F);
     Z.lor 0x80 (Z.land cp 0x3F)]
  else
    [Z.shiftr cp 18 + 0xF0;
     Z.lor 0x80 (Z.land (Z.shiftr cp 12) 0x3F);
     Z.lor 0x80 (Z.land (Z.shiftr cp 6) 0x3F);
     Z.lor 0x80 (Z.land cp 0x3F)].

Definition utf8_encode (s : JsString) : list Z :=
  flat_map utf8_encode_code_point (code_points s).

(** [b.write(string)] at the start of [b], for a string whose encoding
    is as long as [b]. *)
Definition u8_write (b : Uint8Array) (bytes : list Z) : Js unit :=
  fun h => (Normal tt, alter (splice (u8_byteOffset b) bytes) (u8_data b) h).

(** [Buffer.from(source)]: a [Buffer] holding the UTF-8 encoding, placed
    as [allocate] places a buffer of that length. *)
Definition Buffer_from_string (host : Host) (source : JsString) : Run Uint8Array :=
  let bytes := utf8_encode source in
  let* b := allocate host (length bytes) in
  let* _ := lift (u8_write b bytes) in
  ret b.

(** [textEncoder.encode(source)]: a new [Uint8Array] holding the UTF-8
    encoding.  The encoder object cached in [textEncoder] has no state. *)
Definition TextEncoder_encode (source : JsString) : Run Uint8Array :=
  fresh_view false (utf8_encode source).

(** *** The manual encoder *)

(** Modelled from the spec: [strings.encodeUTF8] of vs/base/common/strings
    is not part of the sources at hand.  The spec calls it a pure manual
    UTF-8 encoder whose output is byte for byte that of the host encoders;
    this fixes what it does with a surrogate outside a pair.  It is written
    here as such loops are: one pass over the code units, reading one or
    two of them, the bytes built with masks and shifts. *)
Definition encode_bytes (codePoint : Z) : list Z :=
  if codePoint <? 0x0080 then [codePoint]
  else if codePoint <? 0x0800 then
    [Z.lor 0xC0 (Z.shiftr (Z.land codePoint 0x7C0) 6);
     Z.lor 0x80 (Z.shiftr (Z.land codePoint 0x03F) 0)]
  else if codePoint <? 0x10000 then
    [Z.lor 0xE0 (Z.shiftr (Z.land codePoint 0xF000) 12);
     Z.lor 0x80 (Z.shiftr (Z.land codePoint 0x0FC0) 6);
     Z.lor 0x80 (Z.shiftr (Z.land codePoint 0x003F) 0)]
  else
    [Z.lor 0xF0 (Z.shiftr (Z.land codePoint 0x1C0000) 18);
     Z.lor 0x80 (Z.shiftr (Z.land codePoint 0x03F000) 12);
     Z.lor 0x80 (Z.shiftr (Z.land codePoint 0x000FC0) 6);
     Z.lor 0x80 (Z.shiftr (Z.land codePoint 0x00003F) 0)].

(** Modelled from the spec: the loop of [strings.encodeUTF8] over the code
    units of the string (see [encode_bytes]). *)
Fixpoint encodeUTF8_bytes (str : JsString) : list Z :=
  match str with
  | [] => []
  | charCode :: rest =>
      if isHighSurrogate charCode then
        match rest with
        | nextCharCode :: rest' =>
            if isLowSurrogate nextCharCode then
              encode_bytes
                (Z.shiftl (charCode - 0xD800) 10 + (nextCharCode - 0xDC00) + 0x10000)
              ++ encodeUTF8_bytes rest'
            else encode_bytes 0xFFFD ++ encodeUTF8_bytes rest
        | [] => encode_bytes 0xFFFD
        end
      else if isLowSurrogate charCode then
        encode_bytes 0xFFFD ++ encodeUTF8_bytes rest
      else encode_bytes charCode ++ encodeUTF8_bytes rest
  end.

(** Modelled from the spec: [strings.encodeUTF8] returns a new
    [Uint8Array] holding the bytes. *)
Definition encodeUTF8 (str : JsString) : Run Uint8Array :=
  fresh_view false (encodeUTF8_bytes str).

(** *** The decoder *)

(** The state of the decoder inside a multi-byte sequence. *)
Record Pending := {
  code_point : Z;
  bytes_seen : Z;
  bytes_needed : Z;
  lower_boundary : Z;
  upper_boundary : Z
}.

Inductive Lead :=
| Emit (cp : Z)
| Start (p : Pending).

(** A byte met outside a sequence. *)
Definition decode_lead (b : Z) : Lead :=
  if b <=? 0x7F then Emit b
  else if (0xC2 <=? b) && (b <=? 0xDF) then
    Start {| code_point := Z.land b 0x1F; bytes_seen := 0; bytes_needed := 1;
             lower_boundary := 0x80; upper_boundary := 0xBF |}
  else if (0xE0 <=? b) && (b <=? 0xEF) then
    Start {| code_point := Z.land b 0xF; bytes_seen := 0; bytes_needed := 2;
             lower_boundary := if b =? 0xE0 then 0xA0 else 0x80;
             upper_boundary := if b =? 0xED then 0x9F else 0xBF |}
  else if (0xF0 <=? b) && (b <=? 0xF4) then
    Start {| code_point := Z.land b 0x7; bytes_seen := 0; bytes_needed := 3;
             lower_boundary := if b =? 0xF0 then 0x90 else 0x80;
             upper_boundary := if b =? 0xF4 then 0x8F else 0xBF |}
  else Emit 0xFFFD.

Definition continue_with (l : Lead) (k : option Pending -> list Z) : list Z :=
  match l with
  | Emit cp => cp :: k None
  | Start p => k (Some p)
  end.

(** The decoding loop: a byte that cannot continue the sequence under way
    ends it with U+FFFD and is then read again as a first byte; so does
    the end of the input. *)
Fixpoint decode_loop (st : option Pending) (bytes : list Z) : list Z :=
  match bytes with
  | [] =>
      match st with
      | Some _ => [0xFFFD]
      | None => []
      end
  | b :: rest =>
      match st with
      | None => continue_with (decode_lead b) (fun st' => decode_loop st' rest)
      | Some p =>
          if (lower_boundary p <=? b) && (b <=? upper_boundary p) then
            let cp := Z.lor (Z.shiftl (code_point p) 6) (Z.land b 0x3F) in
            if bytes_seen p + 1 =? bytes_needed p then
              cp :: decode_loop None rest
            else
              decode_loop
                (Some {| code_point := cp; bytes_seen := bytes_seen p + 1;
                         bytes_needed := bytes_needed p;
                         lower_boundary := 0x80; upper_boundary := 0xBF |})
                rest
          else
            0xFFFD :: continue_with (decode_lead b) (fun st' => decode_loop st' rest)
      end
  end.

(** The decoder states that can arise: the bits gathered so far and the
    bounds on the next byte leave only scalar values to come. *)
Definition pending_ok (p : Pending) : Prop :=
  0x80 <= lower_boundary p /\ upper_boundary p <= 0xBF
  /\ ((bytes_needed p = 1 /\ bytes_seen p = 0 /\ 2 <= code_point p < 32)
      \/ (bytes_needed p = 2 /\ bytes_seen p = 0 /\ 0 <= code_point p < 16
          /\ (code_point p = 0 -> 0xA0 <= lower_boundary p)
          /\ (code_point p = 13 -> upper_boundary p <= 0x9F))
      \/ (bytes_needed p = 2 /\ bytes_seen p = 1 /\ 32 <= code_point p < 1024
          /\ ~ 864 <= code_point p < 896)
      \/ (bytes_needed p = 3 /\ bytes_seen p = 0 /\ 0 <= code_point p <= 4
          /\ (code_point p = 0 -> 0x90 <= lower_boundary p)
          /\ (code_point p = 4 -> upper_boundary p <= 0x8F))
      \/ (bytes_needed p = 3 /\ bytes_seen p = 1 /\ 16 <= code_point p < 272)
      \/ (bytes_needed p = 3 /\ bytes_seen p = 2 /\ 1024 <= code_point p < 17408)).

Definition state_ok (st : option Pending) : Prop :=
  match st with
  | Some p => pending_ok p
  | None => True
  end.

(** A scalar value as one code unit or as a surrogate pair. *)
Definition utf16_of_code_point (cp : Z) : list Z :=
  if cp <? 0x10000 then [cp]
  else [0xD800 + Z.shiftr (cp - 0x10000) 10;
        0xDC00 + Z.land (cp - 0x10000) 0x3FF].

Definition utf8_decode (bytes : list Z) : JsString :=
  flat_map utf16_of_code_point (decode_loop None bytes).

(** [textDecoder.decode(bytes)]: a decoder made without options drops a
    byte order mark at the start of the input; the call is not a streaming
    one, so the cached decoder starts afresh each time. *)
Definition strip_BOM (bytes : list Z) : list Z :=
  match bytes with
  | b0 :: b1 :: b2 :: rest =>
      if (b0 =? 0xEF) && (b1 =? 0xBB) && (b2 =? 0xBF) then rest else bytes
  | _ => bytes
  end.

Definition TextDecoder_decode (bytes : list Z) : JsString :=
  utf8_decode (strip_BOM bytes).

(** [buf.toString()] on a Node [Buffer]: UTF-8 decoding, a byte order mark
    is kept. *)
Definition Buffer_toString (bytes : list Z) : JsString := utf8_decode bytes.

(** [toString()] on a plain [Uint8Array]: the elements in decimal, joined
    by commas. *)
Definition decimal (n : Z) : JsString :=
  if n <? 10 then [48 + n]
  else if n <? 100 then [48 + n / 10; 48 + n mod 10]
  else [48 + n / 100; 48 + n / 10 mod 10; 48 + n mod 10].

Fixpoint join_decimal (bytes : list Z) : JsString :=
  match bytes with
  | [] => []
  | [b] => decimal b
  | b :: rest => decimal b ++ 44 :: join_decimal rest
  end.

Definition Uint8Array_toString (h : Heap) (a : Uint8Array) : JsString :=
  if u8_isBuffer a then Buffer_toString (u8_bytes h a)
  else join_decimal (u8_bytes h a).

(** Modelled from the spec: [strings.decodeUTF8] of vs/base/common/strings
    is not part of the sources at hand.  The spec asks for a UTF-8 decoder
    that never throws, substitutes the replacement character for invalid
    input and gives the results of the host decoder. *)
Definition decodeUTF8 (bytes : list Z) : JsString := utf8_decode bytes.

(** *** String conversion of [VSBuffer] *)

Definition fromString (host : Host) (source : JsString) : Run VSBuffer :=
  if hasBuffer host then
    let* b := Buffer_from_string host source in ret (new_VSBuffer b)
  else if hasTextEncoder host then
    let* b := TextEncoder_encode source in ret (new_VSBuffer b)
  else
    let* b := encodeUTF8 source in ret (new_VSBuffer b).

Definition toString (host : Host) (h : Heap) (b : VSBuffer) : JsString :=
  if hasBuffer host then Uint8Array_toString h (buffer b)
  else if hasTextDecoder host then TextDecoder_decode (u8_bytes h (buffer b))
  else decodeUTF8 (u8_bytes h (buffer b)).

(** ** Streams *)

(** What a push-based stream does, one after the other: it delivers
    chunks, and it signals its end or an error. *)
Inductive StreamEvent (E T : Type) :=
| Data (chunk : T)
| End
| Failure (error : E).
Arguments Data {E T} chunk.
Arguments End {E T}.
Arguments Failure {E T} error.

Inductive StreamState := Open | Ended | Errored.

Definition after_event {E T} (ev : StreamEvent E T) : StreamState :=
  match ev with
  | Data _ => Open
  | End => Ended
  | Failure _ => Errored
  end.

(** A promise settles once: later calls of [resolve] and [reject] have no
    effect. *)
Inductive Promise (E T : Type) :=
| Unsettled
| Fulfilled (value : T)
| Rejected (error : E).
Arguments Unsettled {E T}.
Arguments Fulfilled {E T} value.
Arguments Rejected {E T} error.

Definition resolve {E T} (value : T) (p : Promise E T) : Promise E T :=
  match p with
  | Unsettled => Fulfilled value
  | _ => p
  end.

Definition reject {E T} (error : E) (p : Promise E T) : Promise E T :=
  match p with
  | Unsettled => Rejected error
  | _ => p
  end.

(** The listener state of [consumeStream]: the chunks collected so far and
    the promise handed to the caller. *)
Record Consumer (E T : Type) := {
  chunks : list T;
  promise : Promise E T
}.
Arguments chunks {E T} c.
Arguments promise {E T} c.

(** Modelled from the spec: [streams.consumeStream] of
    vs/base/common/stream is not part of the sources at hand.  By the spec
    it drains the stream until end-of-stream, collecting the delivered
    chunks; on the end signal it resolves with the chunks reduced by the
    given function, on an error signal it rejects, and nothing is
    delivered once the stream has ended or failed. *)
Definition on_event {E T} (reducer : list T -> Run T) (ev : StreamEvent E T)
    (c : Consumer E T) : Run (Consumer E T) :=
  match ev with
  | Data chunk => ret {| chunks := chunks c ++ [chunk]; promise := promise c |}
  | Failure error =>
      ret {| chunks := chunks c; promise := reject error (promise c) |}
  | End =>
      let* value := reducer (chunks c) in
      ret {| chunks := chunks c; promise := resolve value (promise c) |}
  end.

(** Modelled from the spec: the stream collaborator of
    vs/base/common/stream is not part of the sources at hand.  By the spec
    it is open until it signals its end or an error, both final: it calls
    the listeners for nothing after that. *)
Fixpoint deliver {E T} (reducer : list T -> Run T) (events : list (StreamEvent E T))
    (st : StreamState) (c : Consumer E T) : Run (Consumer E T) :=
  match events with
  | [] => ret c
  | ev :: rest =>
      match st with
      | Open =>
          let* c' := on_event reducer ev c in
          deliver reducer rest (after_event ev) c'
      | _ => ret c
      end
  end.

(** Modelled from the spec: [streams.consumeStream] makes the promise,
    listens to the stream and returns the promise. *)
Definition consumeStream {E T} (reducer : list T -> Run T)
    (stream : list (StreamEvent E T)) : Run (Promise E T) :=
  let* c := deliver reducer stream Open {| chunks := []; promise := Unsettled |} in
  ret (promise c).

Definition streamToBuffer {E} (host : Host) (stream : list (StreamEvent E VSBuffer))
  : Run (Promise E VSBuffer) :=
  consumeStream (fun chunks => concat host chunks None) stream.

(** ** Programs using the class *)

(** The store together with the handles a program holds. *)
Record World := {
  store : Store;
  handles : list VSBuffer
}.

Definition heap (w : World) : Heap := memory (store w).

(** A world with the heap [h], the allocator as in [w]. *)
Definition with_heap (w : World) (h : Heap) : Store :=
  {| memory := h; pool := pool (store w) |}.

Definition empty_store : Store := {| memory := []; pool := None |}.

Definition initial : World := {| store := empty_store; handles := [] |}.

Definition created (r : Completion VSBuffer) : list VSBuffer :=
  match r with
  | Normal b => [b]
  | Throw _ => []
  end.

(** One operation on buffers.  The handles are made by the constructor
    only, which is private: through [alloc], [wrap], [fromString],
    [concat] and [slice].  [set] and the integer writers change the heap.
    The program may also allocate array buffers of its own. *)
Inductive step (host : Host) : World -> World -> Prop :=
| step_alloc w n r st' :
    alloc host n (store w) = (r, st') ->
    step host w {| store := st'; handles := created r ++ handles w |}
| step_wrap w actual :
    view_ok (heap w) actual ->
    step host w {| store := store w; handles := wrap host actual :: handles w |}
| step_fromString w source r st' :
    fromString host source (store w) = (r, st') ->
    step host w {| store := st'; handles := created r ++ handles w |}
| step_concat w buffers totalLength r st' :
    Forall (fun b => b ∈ handles w) buffers ->
    concat host buffers totalLength (store w) = (r, st') ->
    step host w {| store := st'; handles := created r ++ handles w |}
| step_slice w b start end_ :
    b ∈ handles w ->
    step host w {| store := store w; handles := slice b start end_ :: handles w |}
| step_set w b array offset r h' :
    b ∈ handles w -> array ∈ handles w ->
    set b array offset (heap w) = (r, h') ->
    step host w {| store := with_heap w h'; handles := handles w |}
| step_writeUInt32BE w b value offset :
    b ∈ handles w ->
    step host w
      {| store := with_heap w (VSBuffer_writeUInt32BE b value offset (heap w));
         handles := handles w |}
| step_writeUInt8 w b value offset :
    b ∈ handles w ->
    step host w
      {| store := with_heap w (VSBuffer_writeUInt8 b value offset (heap w));
         handles := handles w |}
| step_new_ArrayBuffer w bs :
    step host w {| store := with_heap w (heap w ++ [bs]); handles := handles w |}.

(** The states a program can reach. *)
Definition reachable (host : Host) (w : World) : Prop := rtc (step host) initial w.

(** ** Chunks of mixed streams *)





(** The ASCII code units. *)
Definition ascii (c : Z) : Prop := 0 <= c < 0x80.

(** ** Sample hosts and buffers *)

(** Node: [Buffer] is there, with its pool of 8 KiB and buffers of up to
    2^31 - 1 bytes; memory that was not cleared holds what it holds. *)
Definition node_host : Host :=
  {| hasBuffer := true; hasTextEncoder := true; hasTextDecoder := true;
     uninitialized := fun n i => Z.of_nat (n + i);
     poolSize := 8 * 1024;
     extraLength := 0x40000000 |}.

(** A browser: no [Buffer], but [TextEncoder] and [TextDecoder]. *)
Definition browser_host : Host :=
  {| hasBuffer := false; hasTextEncoder := true; hasTextDecoder := true;
     uninitialized := fun _ _ => 0;
     poolSize := 0;
     extraLength := 0x40000000 |}.

(** A host with none of the three facilities. *)
Definition bare_host : Host :=
  {| hasBuffer := false; hasTextEncoder := false; hasTextDecoder := false;
     uninitialized := fun _ _ => 0;
     poolSize := 0;
     extraLength := 0 |}.

(** A heap of one array buffer of six bytes, a buffer on all of it and a
    buffer on its bytes 1 to 4. *)
Definition sample_heap : Heap := [[10; 11; 12; 13; 14; 15]].

(** The sample heap before any buffer was taken from a pool. *)
Definition sample_store : Store := {| memory := sample_heap; pool := None |}.

Definition sample_whole : VSBuffer :=
  new_VSBuffer {| u8_data := 0; u8_byteOffset := 0; u8_byteLength := 6;
                  u8_isBuffer := true |}.

Definition sample_inner : VSBuffer :=
  new_VSBuffer {| u8_data := 0; u8_byteOffset := 1; u8_byteLength := 4;
                  u8_isBuffer := true |}.

(** A plain typed array on bytes 2 to 4 of the sample array buffer. *)
Definition sample_array : Uint8Array :=
  {| u8_data := 0; u8_byteOffset := 2; u8_byteLength := 3; u8_isBuffer := false |}.

(** Node after [alloc(4)]: the pool was made, its first four bytes are the
    buffer [sample_first], and the next buffer will begin at byte 8.
    [sample_free] is a buffer wrapped on four bytes of the pool that have
    not been handed out. *)
Definition sample_pooled : Store := snd (alloc node_host 4 empty_store).

Definition sample_first : VSBuffer :=
  new_VSBuffer {| u8_data := 0; u8_byteOffset := 0; u8_byteLength := 4;
                  u8_isBuffer := true |}.

Definition sample_free : VSBuffer :=
  wrap node_host {| u8_data := 0; u8_byteOffset := 8; u8_byteLength := 4;
                    u8_isBuffer := false |}.

(** Node after [alloc(4096)]: the buffer [sample_big] has an array buffer
    of its own. *)
Definition sample_large : Store := snd (alloc node_host 4096 empty_store).

Definition sample_big : VSBuffer :=
  new_VSBuffer {| u8_data := 0; u8_byteOffset := 0; u8_byteLength := 4096;
                  u8_isBuffer := true |}.

(** The state of a program that has allocated one buffer of four bytes. *)
Definition sample_world : World :=
  {| store := snd (alloc node_host 4 (store initial));
     handles := created (fst (alloc node_host 4 (store initial))) ++ handles initial |}.

(** * Properties *)

(** ** The code at work *)

(** Negative indices of [slice] count from the end. *)
Example slice_from_the_end :
  bytes_of sample_heap (slice sample_whole (Some (-2)) None) = [14; 15].
Proof. reflexivity. Qed.

(** Indices beyond the buffer are clamped. *)
Example slice_clamped :
  bytes_of sample_heap (slice sample_inner (Some 3) (Some 100)) = [14].
Proof. reflexivity. Qed.

(** [set] takes the bytes of the source before it writes, so that
    overlapping views do no harm. *)
Example set_overlapping :
  set sample_whole sample_inner (Some 2) sample_heap
  = (Normal tt, [[10; 11; 11; 12; 13; 14]]).
Proof. reflexivity. Qed.

(** A [totalLength] smaller than the inputs makes [set], and so [concat],
    throw. *)
Example concat_short_totalLength :
  fst (concat browser_host [sample_inner; sample_whole] (Some 6) sample_store)
  = Throw RangeError.
Proof. reflexivity. Qed.

(** On Node two small buffers are neighbours in the pool, eight bytes
    apart; a buffer of half the pool or more has an array buffer of its
    own. *)
Example alloc_from_the_pool :
  fst ((let* a := alloc node_host 4 in
        let* b := alloc node_host 3 in
        let* c := alloc node_host 4096 in
        ret (buffer a, buffer b, buffer c)) sample_store)
  = Normal ({| u8_data := 1; u8_byteOffset := 0; u8_byteLength := 4;
               u8_isBuffer := true |},
            {| u8_data := 1; u8_byteOffset := 8; u8_byteLength := 3;
               u8_isBuffer := true |},
            {| u8_data := 2; u8_byteOffset := 0; u8_byteLength := 4096;
               u8_isBuffer := true |}).
Proof. vm_compute. reflexivity. Qed.

(** The sample buffers on Node: [sample_first] is what [alloc(4)]
    returns first, [sample_big] what [alloc(4096)] returns, and
    [sample_free] lies where the next small buffer will be put. *)
Example sample_buffers :
  fst (alloc node_host 4 empty_store) = Normal sample_first
  /\ fst (alloc node_host 4096 empty_store) = Normal sample_big
  /\ buffer <$> created (fst (alloc node_host 4 sample_pooled))
     = [u8_subarray (Buffer_from_arrayBuffer 0 0 (8 * 1024)) (Some 8) (Some 12)]
  /\ buffer sample_free
     = u8_subarray (Buffer_from_arrayBuffer 0 0 (8 * 1024)) (Some 8) (Some 12).
Proof. split_and!; vm_compute; reflexivity. Qed.

(** A buffer of 2^31 bytes is too long for the sample hosts. *)
Example alloc_too_long :
  fst (alloc node_host (2 ^ 31) sample_store) = Throw RangeError
  /\ fst (alloc browser_host (2 ^ 31) sample_store) = Throw RangeError.
Proof. split; reflexivity. Qed.

(** Reading beyond the end gives [undefined], and [NaN] for the 32-bit
    reader. *)
Example read_beyond_the_end :
  VSBuffer_readUInt8 sample_heap sample_inner 4 = None
  /\ VSBuffer_readUInt32BE sample_heap sample_inner 1 = None
  /\ VSBuffer_readUInt32BE sample_heap sample_inner 0 = Some 0x0B0C0D0E.
Proof. repeat split; reflexivity. Qed.

(** The encoding of "hé€" followed by U+1F600. *)
Example utf8_encode_sample :
  utf8_encode [0x68; 0xE9; 0x20AC; 0xD83D; 0xDE00]
  = [0x68; 0xC3; 0xA9; 0xE2; 0x82; 0xAC; 0xF0; 0x9F; 0x98; 0x80].
Proof. reflexivity. Qed.

(** Bytes that are no UTF-8 decode to U+FFFD: an overlong form, a
    sequence cut short by a letter, an encoded surrogate. *)
Example utf8_decode_invalid :
  utf8_decode [0xC0; 0x80; 0xF0; 0x9F; 0x98; 0x41; 0xED; 0xA0; 0x80]
  = [0xFFFD; 0xFFFD; 0xFFFD; 0x41; 0xFFFD; 0xFFFD; 0xFFFD].
Proof. reflexivity. Qed.

(** A stream delivering "ab" and "cd" and ending resolves to "abcd". *)
Example streamToBuffer_abcd :
  match (let* ab := fromString node_host [97; 98] in
         let* cd := fromString node_host [99; 100] in
         streamToBuffer (E := nat) node_host [Data ab; Data cd; End]) sample_store
  with
  | (Normal (Fulfilled r), st) => toString node_host (memory st) r
  | _ => []
  end = [97; 98; 99; 100].
Proof. vm_compute. reflexivity. Qed.

(** ** Reading and writing single elements *)

Lemma is_index_spec a i :
  is_index a i = true <-> 0 <= i < Z.of_nat (u8_byteLength a).
Proof. unfold is_index. rewrite andb_true_iff, Z.leb_le, Z.ltb_lt. tauto. Qed.

Lemma is_index_false a i :
  is_index a i = false <-> ~ (0 <= i < Z.of_nat (u8_byteLength a)).
Proof. rewrite <- is_index_spec. destruct (is_index a i); split; congruence. Qed.

Lemma u8_put_length a i v (h : Heap) : length (u8_put a i v h) = length h.
Proof. unfold u8_put. destruct (is_index a i); [apply length_alter | done]. Qed.

Lemma u8_put_lookup_length a i v (h : Heap) n :
  length <$> (u8_put a i v h !! n) = length <$> (h !! n).
Proof.
  unfold u8_put. destruct (is_index a i); [| done].
  destruct (decide (u8_data a = n)) as [<- | Hne].
  - rewrite list_lookup_alter_eq. destruct (h !! u8_data a); simpl; [| done].
    by rewrite length_insert.
  - by rewrite list_lookup_alter_ne.
Qed.

Lemma u8_put_view_ok a i v h a' : view_ok h a' -> view_ok (u8_put a i v h) a'.
Proof.
  intros (bs & Hbs & Hlen).
  pose proof (u8_put_lookup_length a i v h (u8_data a')) as Hl.
  rewrite Hbs in Hl. simpl in Hl.
  destruct (u8_put a i v h !! u8_data a') as [bs' |] eqn:E; [| done].
  exists bs'. split; [done |]. simpl in Hl. injection Hl as Hl. lia.
Qed.

(** A store through one view is read back through any view that maps the
    index to the same cell of the same array buffer. *)
Lemma u8_get_put_same h a1 a2 i j v :
  view_ok h a1 ->
  is_index a1 i = true -> is_index a2 j = true ->
  u8_data a1 = u8_data a2 ->
  (u8_byteOffset a1 + Z.to_nat i = u8_byteOffset a2 + Z.to_nat j)%nat ->
  u8_get (u8_put a1 i v h) a2 j = Some (ToUint8 v).
Proof.
  intros (bs & Hbs & Hlen) Hi Hj Hd Hpos.
  unfold u8_get, u8_put. rewrite Hi, Hj, <- Hd, <- Hpos.
  rewrite list_lookup_alter_eq, Hbs. simpl.
  apply list_lookup_insert_eq. apply is_index_spec in Hi. lia.
Qed.

(** Every other cell is left alone. *)
Lemma u8_get_put_other h a1 a2 i j v :
  u8_data a1 <> u8_data a2
  \/ (u8_byteOffset a1 + Z.to_nat i <> u8_byteOffset a2 + Z.to_nat j)%nat ->
  u8_get (u8_put a1 i v h) a2 j = u8_get h a2 j.
Proof.
  intros Hne. unfold u8_get, u8_put.
  destruct (is_index a2 j); [| done].
  destruct (is_index a1 i); [| done].
  destruct (decide (u8_data a1 = u8_data a2)) as [Hd | Hd].
  - rewrite <- Hd, list_lookup_alter_eq. destruct (h !! u8_data a1); simpl; [| done].
    apply list_lookup_insert_ne. destruct Hne; [done | lia].
  - by rewrite list_lookup_alter_ne.
Qed.

Lemma u8_get_put_eq h a i v :
  view_ok h a -> is_index a i = true ->
  u8_get (u8_put a i v h) a i = Some (ToUint8 v).
Proof. intros. by apply u8_get_put_same. Qed.

Lemma u8_get_put_ne h a i j v :
  0 <= i -> 0 <= j -> i <> j ->
  u8_get (u8_put a i v h) a j = u8_get h a j.
Proof. intros. apply u8_get_put_other. right. lia. Qed.

(** ** The big-endian 32-bit codec *)

Lemma ushr_8 v : ushr v 8 = (v mod 2 ^ 32) / 2 ^ 8.
Proof. unfold ushr. by rewrite Z.shiftr_div_pow2. Qed.

Lemma uint32_bytes v :
  ToUint8 (ushr (ushr (ushr v 8) 8) 8) * 2 ^ 24
  + ToUint8 (ushr (ushr v 8) 8) * 2 ^ 16
  + ToUint8 (ushr v 8) * 2 ^ 8
  + ToUint8 v = v mod 2 ^ 32.
Proof.
  rewrite !ushr_8. unfold ToUint8.
  change (2 ^ 32) with 4294967296. change (2 ^ 24) with 16777216.
  change (2 ^ 16) with 65536. change (2 ^ 8) with 256.
  Z.div_mod_to_equations. lia.
Qed.

(** Writing any integer and reading the four bytes back gives its low
    thirty-two bits. *)
Lemma write_read_UInt32BE h a v offset :
  view_ok h a ->
  0 <= offset -> offset + 4 <= Z.of_nat (u8_byteLength a) ->
  readUInt32BE (writeUInt32BE a v offset h) a offset = Some (v mod 2 ^ 32).
Proof.
  intros Hok H0 H4.
  assert (Hidx : forall k, 0 <= k < 4 -> is_index a (offset + k) = true)
    by (intros; apply is_index_spec; lia).
  unfold readUInt32BE, writeUInt32BE.
  set (h3 := u8_put a (offset + 3) v h).
  set (h2 := u8_put a (offset + 2) (ushr v 8) h3).
  set (h1 := u8_put a (offset + 1) (ushr (ushr v 8) 8) h2).
  assert (Hok3 : view_ok h3 a) by by apply u8_put_view_ok.
  assert (Hok2 : view_ok h2 a) by by apply u8_put_view_ok.
  assert (Hok1 : view_ok h1 a) by by apply u8_put_view_ok.
  assert (G0 : u8_get (u8_put a offset (ushr (ushr (ushr v 8) 8) 8) h1) a offset
               = Some (ToUint8 (ushr (ushr (ushr v 8) 8) 8))).
  { apply u8_get_put_eq; [done |]. replace offset with (offset + 0) by lia.
    apply Hidx; lia. }
  assert (G1 : u8_get (u8_put a offset (ushr (ushr (ushr v 8) 8) 8) h1) a (offset + 1)
               = Some (ToUint8 (ushr (ushr v 8) 8))).
  { rewrite u8_get_put_ne by lia. subst h1.
    apply u8_get_put_eq; [done |]. apply Hidx; lia. }
  assert (G2 : u8_get (u8_put a offset (ushr (ushr (ushr v 8) 8) 8) h1) a (offset + 2)
               = Some (ToUint8 (ushr v 8))).
  { rewrite u8_get_put_ne by lia. subst h1. rewrite u8_get_put_ne by lia.
    subst h2. apply u8_get_put_eq; [done |]. apply Hidx; lia. }
  assert (G3 : u8_get (u8_put a offset (ushr (ushr (ushr v 8) 8) 8) h1) a (offset + 3)
               = Some (ToUint8 v)).
  { rewrite u8_get_put_ne by lia. subst h1. rewrite u8_get_put_ne by lia.
    subst h2. rewrite u8_get_put_ne by lia. subst h3.
    apply u8_get_put_eq; [done |]. apply Hidx; lia. }
  rewrite G0, G1, G2, G3. simpl. f_equal. apply uint32_bytes.
Qed.

(** C3: a value of the unsigned 32-bit range written at offset 0 of a
    buffer of at least four bytes is read back unchanged. *)
Theorem writeUInt32BE_readUInt32BE_roundtrip h b v :
  handle_ok h b ->
  (4 <= byteLength b)%nat ->
  0 <= v <= 2 ^ 32 - 1 ->
  VSBuffer_readUInt32BE (VSBuffer_writeUInt32BE b v 0 h) b 0 = Some v.
Proof.
  intros [Hlen Hok] H4 Hv.
  unfold VSBuffer_readUInt32BE, VSBuffer_writeUInt32BE.
  rewrite write_read_UInt32BE by (done || lia).
  f_equal. apply Z.mod_small. lia.
Qed.

(** C5: for every non-negative integer, also beyond the 32-bit range, the
    four bytes written hold the value modulo 2^32; the write is a total
    function of the heap, so nothing is raised. *)
Theorem writeUInt32BE_truncates h b v offset :
  handle_ok h b ->
  0 <= offset -> offset + 4 <= Z.of_nat (byteLength b) ->
  0 <= v ->
  VSBuffer_readUInt32BE (VSBuffer_writeUInt32BE b v offset h) b offset
  = Some (v mod 2 ^ 32).
Proof.
  intros [Hlen Hok] H0 H4 Hv.
  unfold VSBuffer_readUInt32BE, VSBuffer_writeUInt32BE.
  apply write_read_UInt32BE; [done | done | lia].
Qed.

(** C7: a byte value written at a valid offset is read back unchanged, and
    any other integer is stored reduced to its low eight bits. *)
Theorem writeUInt8_readUInt8_roundtrip h b v offset :
  handle_ok h b ->
  0 <= offset < Z.of_nat (byteLength b) ->
  (0 <= v <= 255 ->
   VSBuffer_readUInt8 (VSBuffer_writeUInt8 b v offset h) b offset = Some v)
  /\ VSBuffer_readUInt8 (VSBuffer_writeUInt8 b v offset h) b offset
     = Some (v mod 2 ^ 8).
Proof.
  intros [Hlen Hok] Hoff.
  assert (Hrd : VSBuffer_readUInt8 (VSBuffer_writeUInt8 b v offset h) b offset
                = Some (v mod 2 ^ 8)).
  { unfold VSBuffer_readUInt8, VSBuffer_writeUInt8, readUInt8, writeUInt8.
    apply u8_get_put_eq; [done |]. apply is_index_spec. lia. }
  split; [| done].
  intros Hv. rewrite Hrd. f_equal. apply Z.mod_small.
  change (2 ^ 8) with 256. lia.
Qed.

(** ** Bulk copy *)

Lemma splice_length pos (src bs : list Z) :
  (pos + length src <= length bs)%nat -> length (splice pos src bs) = length bs.
Proof.
  intros H. unfold splice. rewrite !length_app, length_take, length_drop. lia.
Qed.

Lemma splice_lookup_in pos (src bs : list Z) k :
  (pos + length src <= length bs)%nat ->
  (pos <= k < pos + length src)%nat ->
  splice pos src bs !! k = src !! (k - pos)%nat.
Proof.
  intros Hfit Hk. unfold splice.
  rewrite lookup_app_r by (rewrite length_take; lia).
  rewrite length_take, lookup_app_l by lia. f_equal. lia.
Qed.

Lemma splice_lookup_out pos (src bs : list Z) k :
  (pos + length src <= length bs)%nat ->
  ~ (pos <= k < pos + length src)%nat ->
  splice pos src bs !! k = bs !! k.
Proof.
  intros Hfit Hk. unfold splice.
  destruct (decide (k < pos)%nat) as [Hlt | Hge].
  - rewrite lookup_app_l by (rewrite length_take; lia).
    by rewrite lookup_take_lt.
  - rewrite lookup_app_r by (rewrite length_take; lia).
    rewrite length_take, lookup_app_r by lia.
    rewrite lookup_drop. f_equal. lia.
Qed.

Lemma u8_bytes_length h a : view_ok h a -> length (u8_bytes h a) = u8_byteLength a.
Proof.
  intros (bs & Hbs & Hlen). unfold u8_bytes. rewrite Hbs. simpl.
  rewrite length_take, length_drop. lia.
Qed.

Lemma u8_bytes_lookup h a i :
  is_index a i = true ->
  u8_bytes h a !! Z.to_nat i = u8_get h a i.
Proof.
  intros Hi. unfold u8_bytes, u8_get. rewrite Hi.
  apply is_index_spec in Hi.
  rewrite lookup_take_lt by lia. rewrite lookup_drop.
  by destruct (h !! u8_data a).
Qed.

(** Two views with the same cells show the same bytes. *)
Lemma u8_bytes_ext h h' a :
  h' !! u8_data a = h !! u8_data a -> u8_bytes h' a = u8_bytes h a.
Proof. intros E. unfold u8_bytes. by rewrite E. Qed.

(** The effect of a [set] whose source fits. *)
Lemma u8_set_ok h target source offset :
  0 <= default 0 offset ->
  Z.of_nat (u8_byteLength source) + default 0 offset
    <= Z.of_nat (u8_byteLength target) ->
  u8_set target source offset h
  = (Normal tt,
     alter (splice (u8_byteOffset target + Z.to_nat (default 0 offset))
                   (u8_bytes h source))
           (u8_data target) h).
Proof.
  intros H0 Hfit. unfold u8_set.
  destruct (Z.ltb_spec (default 0 offset) 0); [lia |].
  destruct (Z.ltb_spec (Z.of_nat (u8_byteLength target))
              (Z.of_nat (u8_byteLength source) + default 0 offset)); [lia |].
  done.
Qed.

(** A [set] that does not fit throws and leaves the heap alone. *)
Lemma u8_set_throws h target source offset :
  default 0 offset < 0
  \/ Z.of_nat (u8_byteLength target)
     < Z.of_nat (u8_byteLength source) + default 0 offset ->
  u8_set target source offset h = (Throw RangeError, h).
Proof.
  intros H. unfold u8_set.
  destruct (Z.ltb_spec (default 0 offset) 0); [done |].
  destruct (Z.ltb_spec (Z.of_nat (u8_byteLength target))
              (Z.of_nat (u8_byteLength source) + default 0 offset)); [done | lia].
Qed.

(** C10: when the source fits at the given offset, every byte of the
    destination outside the written range keeps its value; the call
    succeeds unless the offset is negative, in which case it throws and
    writes nothing. *)
Theorem set_frame h d s offset :
  handle_ok h d -> handle_ok h s ->
  default 0 offset + Z.of_nat (byteLength s) <= Z.of_nat (byteLength d) ->
  exists r h',
    set d s offset h = (r, h')
    /\ (0 <= default 0 offset -> r = Normal tt)
    /\ forall i,
         ~ (default 0 offset <= i < default 0 offset + Z.of_nat (byteLength s)) ->
         VSBuffer_readUInt8 h' d i = VSBuffer_readUInt8 h d i.
Proof.
  intros [Hdl (bd & Hbd & Hdfit)] [Hsl Hsok] Hfit.
  destruct (Z.lt_ge_cases (default 0 offset) 0) as [Hneg | H0].
  { exists (Throw RangeError), h. split; [| split; [lia | done]].
    unfold set. apply u8_set_throws. by left. }
  eexists _, _. split; [| split; [done |]].
  { unfold set. apply u8_set_ok; lia. }
  intros i Hi.
  unfold VSBuffer_readUInt8, readUInt8, u8_get.
  destruct (is_index (buffer d) i) eqn:Hidx; [| done].
  apply is_index_spec in Hidx.
  rewrite list_lookup_alter_eq, Hbd. simpl.
  apply splice_lookup_out.
  - rewrite u8_bytes_length by done. lia.
  - rewrite u8_bytes_length by done. lia.
Qed.

(** ** Array buffers keep their sizes *)

Lemma same_sizes_refl h : same_sizes h h.
Proof. intros n bs Hn. by exists bs. Qed.

Lemma same_sizes_trans h1 h2 h3 :
  same_sizes h1 h2 -> same_sizes h2 h3 -> same_sizes h1 h3.
Proof.
  intros H12 H23 n bs Hn.
  destruct (H12 n bs Hn) as (bs2 & Hn2 & Hl2).
  destruct (H23 n bs2 Hn2) as (bs3 & Hn3 & Hl3).
  exists bs3. split; [done | lia].
Qed.

Lemma same_sizes_grow (h : Heap) bs : same_sizes h (h ++ [bs]).
Proof. intros n c Hn. exists c. split; [by apply lookup_app_l_Some | done]. Qed.

Lemma same_sizes_put a i v h : same_sizes h (u8_put a i v h).
Proof.
  intros n bs Hn.
  pose proof (u8_put_lookup_length a i v h n) as Hl. rewrite Hn in Hl.
  destruct (u8_put a i v h !! n) as [bs' |]; [| done].
  exists bs'. split; [done |]. by injection Hl.
Qed.

Lemma same_sizes_writeUInt32BE a v offset h :
  same_sizes h (writeUInt32BE a v offset h).
Proof.
  unfold writeUInt32BE.
  repeat (eapply same_sizes_trans; [| apply same_sizes_put]).
  apply same_sizes_refl.
Qed.

Lemma handle_ok_same_sizes h h' b :
  same_sizes h h' -> handle_ok h b -> handle_ok h' b.
Proof.
  intros Hs [Hl (bs & Hbs & Hfit)]. split; [done |].
  destruct (Hs _ _ Hbs) as (bs' & Hbs' & Hl').
  exists bs'. split; [done | lia].
Qed.

Lemma same_sizes_set h target source offset r h' :
  view_ok h target -> view_ok h source ->
  u8_set target source offset h = (r, h') -> same_sizes h h'.
Proof.
  intros (bt & Hbt & Hfit) Hsrc. unfold u8_set.
  destruct (_ || _) eqn:Hguard.
  - intros [= _ <-]. apply same_sizes_refl.
  - intros [= _ <-]. apply orb_false_iff in Hguard as [H0 H1].
    apply Z.ltb_ge in H0, H1.
    intros n bs Hn.
    destruct (decide (u8_data target = n)) as [<- | Hne].
    + rewrite list_lookup_alter_eq, Hn. simpl. eexists. split; [done |].
      rewrite Hbt in Hn. injection Hn as <-.
      apply splice_length. rewrite u8_bytes_length by done. lia.
    + exists bs. by rewrite list_lookup_alter_ne.
Qed.

(** ** Allocation *)

Lemma lookup_fresh (h : Heap) bs : (h ++ [bs]) !! length h = Some bs.
Proof. by rewrite list_lookup_middle. Qed.

Lemma ToUint8_byte v : is_byte (ToUint8 v).
Proof. unfold is_byte, ToUint8. apply Z.mod_pos_bound. lia. Qed.

Lemma unsafe_bytes_length host data n : length (unsafe_bytes host data n) = n.
Proof. unfold unsafe_bytes. by rewrite length_map, length_seq. Qed.

Lemma unsafe_bytes_bytes host data n :
  Forall is_byte (unsafe_bytes host data n).
Proof.
  unfold unsafe_bytes. apply Forall_forall. intros b Hb.
  apply list_elem_of_fmap in Hb as (i & -> & _). apply ToUint8_byte.
Qed.

Lemma alignPool_le offset : (offset <= alignPool offset)%nat.
Proof.
  unfold alignPool. destruct (Nat.eqb_spec (offset mod 8) 0); [done |].
  pose proof (Nat.Div0.mod_le offset 8).
  pose proof (Nat.mod_upper_bound offset 8). lia.
Qed.

Lemma view_ok_lt h a : view_ok h a -> (u8_data a < length h)%nat.
Proof. intros (bs & Hbs & _). by eapply lookup_lt_Some. Qed.

Lemma view_ok_app h ext a : view_ok h a -> view_ok (h ++ ext) a.
Proof.
  intros (bs & Hbs & Hfit). exists bs. split; [| done]. by apply lookup_app_l_Some.
Qed.

Lemma u8_bytes_app h ext a : view_ok h a -> u8_bytes (h ++ ext) a = u8_bytes h a.
Proof.
  intros (bs & Hbs & Hfit). apply u8_bytes_ext.
  rewrite Hbs. by apply lookup_app_l_Some.
Qed.

(** A new array buffer is memory handed out now. *)
Lemma fresh_view_handed_out isBuffer bs st :
  Forall is_byte bs ->
  exists a st',
    fresh_view isBuffer bs st = (Normal a, st')
    /\ a = {| u8_data := length (memory st); u8_byteOffset := 0;
              u8_byteLength := length bs; u8_isBuffer := isBuffer |}
    /\ st' = {| memory := memory st ++ [bs]; pool := pool st |}
    /\ handed_out st a st'.
Proof.
  intros Hbs. eexists _, _. split; [reflexivity |]. split; [done |]. split; [done |].
  split_and!.
  - exists [bs]. split; [done |]. by apply Forall_cons_2; [| apply Forall_nil_2].
  - exists bs. split; [apply lookup_fresh | simpl; lia].
  - intros a0 Ha0 Hout. left. simpl. apply view_ok_lt in Ha0. lia.
  - intros Hst. split_and!.
    + intros p Hp. simpl in *. rewrite length_app. specialize (Hst p Hp). lia.
    + intros p Hp Hd. simpl in *. specialize (Hst p Hp). lia.
    + intros a0 Ha0 Hout. done.
Qed.

(** [allocate] always returns, and what it returns is memory handed out
    now, a [Buffer] of the length asked for. *)
Lemma allocate_spec host size st :
  exists a st',
    allocate host size st = (Normal a, st')
    /\ u8_byteLength a = size
    /\ u8_isBuffer a = true
    /\ handed_out st a st'.
Proof.
  unfold allocate.
  destruct (Nat.eqb_spec size 0) as [-> | Hpos].
  { destruct (fresh_view_handed_out true [] st) as (a & st' & Hrun & -> & _ & Hh);
      [apply Forall_nil_2 |].
    eexists _, st'. by split_and!. }
  destruct (Nat.ltb_spec size (poolSize host / 2)) as [Hsmall | Hlarge].
  2: { unfold createUnsafeBuffer.
       destruct (fresh_view_handed_out true
                   (unsafe_bytes host (length (memory st)) size) st)
         as (a & st' & Hrun & -> & _ & Hh); [apply unsafe_bytes_bytes |].
       eexists _, st'. split; [done |]. simpl.
       rewrite unsafe_bytes_length in Hh |- *. by split_and!. }
  assert (Hsize : (size <= poolSize host)%nat).
  { pose proof (Nat.Div0.div_le_upper_bound (poolSize host) 2 (poolSize host)) as Hd.
    pose proof (Nat.Div0.mul_div_le (poolSize host) 2). lia. }
  assert (Hnew : forall st',
             st' = {| memory := memory st
                               ++ [unsafe_bytes host (length (memory st)) (poolSize host)];
                      pool := Some {| allocPool := length (memory st);
                                      poolOffset := alignPool (0 + size) |} |} ->
             handed_out st
               {| u8_data := length (memory st); u8_byteOffset := 0;
                  u8_byteLength := size; u8_isBuffer := true |} st').
  { intros st' ->. split_and!.
    - eexists. split; [done |].
      apply Forall_cons_2; [apply unsafe_bytes_bytes | apply Forall_nil_2].
    - eexists. split; [apply lookup_fresh |]. simpl. by rewrite unsafe_bytes_length.
    - intros a0 Ha0 Hout. apply view_ok_lt in Ha0. left. simpl. lia.
    - intros Hst. split_and!.
      + intros p [= <-]. simpl. rewrite length_app. simpl. lia.
      + intros p [= <-] _. simpl. apply alignPool_le.
      + intros a0 Ha0 Hout. apply view_ok_lt in Ha0.
        intros p [= <-]. simpl. lia. }
  destruct (pool st) as [p |] eqn:Hp.
  2: { simpl. eexists _, _. split; [reflexivity |]. split; [done |]. split; [done |].
       by apply Hnew. }
  destruct (Nat.ltb_spec (pool_room (memory st) p) size) as [Hfull | Hroom].
  { simpl. eexists _, _. split; [reflexivity |]. split; [done |]. split; [done |].
    by apply Hnew. }
  eexists _, _. split; [reflexivity |]. split; [done |]. split; [done |].
  unfold pool_room in Hroom.
  destruct (memory st !! allocPool p) as [bs |] eqn:Hbs;
    cbn [default from_option id] in Hroom; [| simpl in Hroom; lia].
  split_and!.
  - exists []. split; [by rewrite app_nil_r | apply Forall_nil_2].
  - exists bs. split; [done |]. simpl. lia.
  - intros a0 Ha0 Hout.
    destruct (decide (u8_data a0 = allocPool p)) as [Hd | Hd].
    + right. right. simpl. by apply Hout.
    + left. simpl. congruence.
  - intros Hst. split_and!.
    + intros p' [= <-]. simpl. by apply Hst.
    + intros p' [= <-] _. simpl. apply alignPool_le.
    + intros a0 Ha0 Hout p' [= <-] Hd. simpl in *.
      pose proof (Hout p Hp Hd). pose proof (alignPool_le (poolOffset p + size)). lia.
Qed.

(** A length below 0 or above the maximum makes [alloc] throw, and
    nothing is allocated. *)
Lemma alloc_throws host n st :
  n < 0 \/ maxLength host < n -> alloc host n st = (Throw RangeError, st).
Proof.
  intros Hn. unfold alloc, bind, Buffer_allocUnsafe, new_Uint8Array.
  assert (Hguard : (n <? 0) || (maxLength host <? n) = true).
  { apply orb_true_iff. rewrite !Z.ltb_lt. done. }
  rewrite Hguard. by destruct (hasBuffer host).
Qed.

(** No host makes a buffer of 2^53 bytes. *)
Lemma alloc_2_53 host st : alloc host (2 ^ 53) st = (Throw RangeError, st).
Proof. apply alloc_throws. right. unfold maxLength. lia. Qed.

(** For any other length [alloc] returns a valid handle of that length on
    memory handed out now; with [Buffer] it is a [Buffer], without it is
    all of a new array buffer full of zeros. *)
Lemma alloc_spec host n st :
  0 <= n <= maxLength host ->
  exists b st',
    alloc host n st = (Normal b, st')
    /\ byteLength b = Z.to_nat n
    /\ u8_byteLength (buffer b) = Z.to_nat n
    /\ u8_isBuffer (buffer b) = hasBuffer host
    /\ handed_out st (buffer b) st'
    /\ (hasBuffer host = false ->
        buffer b = {| u8_data := length (memory st); u8_byteOffset := 0;
                      u8_byteLength := Z.to_nat n; u8_isBuffer := false |}
        /\ st' = {| memory := memory st ++ [replicate (Z.to_nat n) 0];
                    pool := pool st |}).
Proof.
  intros Hn. unfold alloc, bind, Buffer_allocUnsafe, new_Uint8Array.
  assert (Hguard : (n <? 0) || (maxLength host <? n) = false).
  { apply orb_false_iff. rewrite !Z.ltb_ge. lia. }
  rewrite Hguard. destruct (hasBuffer host).
  - destruct (allocate_spec host (Z.to_nat n) st) as (a & st' & -> & Hl & Hb & Hh).
    exists (new_VSBuffer a), st'. by split_and!.
  - destruct (fresh_view_handed_out false (replicate (Z.to_nat n) 0) st)
      as (a & st' & -> & -> & -> & Hh).
    { apply Forall_replicate. unfold is_byte. lia. }
    eexists _, _. split; [reflexivity |]. simpl. rewrite length_replicate in *.
    by split_and!.
Qed.

Lemma handed_out_handle_ok st b st' :
  byteLength b = u8_byteLength (buffer b) ->
  handed_out st (buffer b) st' -> handle_ok (memory st') b.
Proof. intros Hl (_ & Hok & _). by split. Qed.

Lemma handed_out_same_sizes st a st' :
  handed_out st a st' -> same_sizes (memory st) (memory st').
Proof.
  intros ((ext & -> & _) & _) n bs Hn. exists bs. split; [| done].
  by apply lookup_app_l_Some.
Qed.

(** The four cells written by [writeUInt32BE] hold the four bytes of the
    value, the most significant first. *)
Lemma writeUInt32BE_cells h a v offset :
  view_ok h a ->
  0 <= offset -> offset + 4 <= Z.of_nat (u8_byteLength a) ->
  let h' := writeUInt32BE a v offset h in
  u8_get h' a offset = Some (ToUint8 (ushr (ushr (ushr v 8) 8) 8))
  /\ u8_get h' a (offset + 1) = Some (ToUint8 (ushr (ushr v 8) 8))
  /\ u8_get h' a (offset + 2) = Some (ToUint8 (ushr v 8))
  /\ u8_get h' a (offset + 3) = Some (ToUint8 v).
Proof.
  intros Hok H0 H4.
  assert (Hidx : forall k, 0 <= k < 4 -> is_index a (offset + k) = true)
    by (intros; apply is_index_spec; lia).
  unfold writeUInt32BE.
  set (h3 := u8_put a (offset + 3) v h).
  set (h2 := u8_put a (offset + 2) (ushr v 8) h3).
  set (h1 := u8_put a (offset + 1) (ushr (ushr v 8) 8) h2).
  assert (Hok3 : view_ok h3 a) by by apply u8_put_view_ok.
  assert (Hok2 : view_ok h2 a) by by apply u8_put_view_ok.
  assert (Hok1 : view_ok h1 a) by by apply u8_put_view_ok.
  cbv zeta. split_and!.
  - apply u8_get_put_eq; [done |]. replace offset with (offset + 0) by lia.
    apply Hidx; lia.
  - rewrite u8_get_put_ne by lia. subst h1.
    apply u8_get_put_eq; [done |]. apply Hidx; lia.
  - rewrite u8_get_put_ne by lia. subst h1. rewrite u8_get_put_ne by lia.
    subst h2. apply u8_get_put_eq; [done |]. apply Hidx; lia.
  - rewrite u8_get_put_ne by lia. subst h1. rewrite u8_get_put_ne by lia.
    subst h2. rewrite u8_get_put_ne by lia. subst h3.
    apply u8_get_put_eq; [done |]. apply Hidx; lia.
Qed.

(** A view of four bytes shows the four cells. *)
Lemma u8_bytes_four h a x0 x1 x2 x3 :
  view_ok h a -> u8_byteLength a = 4%nat ->
  u8_get h a 0 = Some x0 -> u8_get h a 1 = Some x1 ->
  u8_get h a 2 = Some x2 -> u8_get h a 3 = Some x3 ->
  u8_bytes h a = [x0; x1; x2; x3].
Proof.
  intros Hok Hl G0 G1 G2 G3.
  pose proof (u8_bytes_length h a Hok) as Hlen. rewrite Hl in Hlen.
  assert (Hi : forall k, 0 <= k < 4 -> is_index a k = true)
    by (intros; apply is_index_spec; lia).
  rewrite <- (u8_bytes_lookup h a 0) in G0 by (apply Hi; lia).
  rewrite <- (u8_bytes_lookup h a 1) in G1 by (apply Hi; lia).
  rewrite <- (u8_bytes_lookup h a 2) in G2 by (apply Hi; lia).
  rewrite <- (u8_bytes_lookup h a 3) in G3 by (apply Hi; lia).
  destruct (u8_bytes h a) as [| y0 [| y1 [| y2 [| y3 [| ? ?]]]]];
    try discriminate Hlen.
  simpl in *. congruence.
Qed.

(** C4: after [alloc(4)] and [writeUInt32BE(0x01020304, 0)] the four bytes
    of the buffer are 1, 2, 3, 4 in this order, whatever the memory held. *)
Theorem writeUInt32BE_big_endian host st :
  exists b st',
    alloc host 4 st = (Normal b, st')
    /\ let h'' := VSBuffer_writeUInt32BE b 0x01020304 0 (memory st') in
       bytes_of h'' b = [1; 2; 3; 4]
       /\ VSBuffer_readUInt8 h'' b 0 = Some 0x01
       /\ VSBuffer_readUInt8 h'' b 1 = Some 0x02
       /\ VSBuffer_readUInt8 h'' b 2 = Some 0x03
       /\ VSBuffer_readUInt8 h'' b 3 = Some 0x04.
Proof.
  destruct (alloc_spec host 4 st) as (b & st' & Halloc & _ & Hl & _ & Hh & _).
  { unfold maxLength. lia. }
  exists b, st'. split; [exact Halloc |].
  destruct Hh as (_ & Hok & _).
  destruct (writeUInt32BE_cells (memory st') (buffer b) 0x01020304 0 Hok)
    as (G0 & G1 & G2 & G3); [lia | rewrite Hl; lia |].
  cbv zeta. unfold VSBuffer_writeUInt32BE, VSBuffer_readUInt8, readUInt8, bytes_of.
  split_and!; try done.
  eapply u8_bytes_four; try done.
  unfold writeUInt32BE. by repeat apply u8_put_view_ok.
Qed.

(** ** Concatenation *)

Lemma fold_byteLength_acc buffers acc :
  fold_left (fun total b => total + Z.of_nat (byteLength b)) buffers acc
  = acc + sum_byteLength buffers.
Proof.
  unfold sum_byteLength. revert acc.
  induction buffers as [| b bs IH]; intros acc; simpl; [lia |].
  rewrite (IH (acc + _)), (IH (0 + _)). lia.
Qed.

Lemma sum_byteLength_cons b buffers :
  sum_byteLength (b :: buffers) = Z.of_nat (byteLength b) + sum_byteLength buffers.
Proof. unfold sum_byteLength at 1. simpl. apply fold_byteLength_acc. Qed.

Lemma bytes_of_length h b : handle_ok h b -> length (bytes_of h b) = byteLength b.
Proof. intros [-> Hok]. by apply u8_bytes_length. Qed.

Lemma sum_byteLength_bytes h buffers :
  Forall (handle_ok h) buffers ->
  sum_byteLength buffers = Z.of_nat (length (flat_map (bytes_of h) buffers)).
Proof.
  induction 1 as [| b bs Hb _ IH]; [done |].
  rewrite sum_byteLength_cons, IH. simpl.
  rewrite length_app, bytes_of_length by done. lia.
Qed.

Lemma sum_byteLength_sum_list buffers :
  sum_byteLength buffers = Z.of_nat (sum_list (byteLength <$> buffers)).
Proof.
  induction buffers as [| b bs IH]; [done |].
  rewrite sum_byteLength_cons, IH, fmap_cons. 
  change (sum_list (byteLength b :: (byteLength <$> bs)))
    with (byteLength b + sum_list (byteLength <$> bs))%nat.
  lia.
Qed.

Lemma flat_map_Forall_ext {A B} (f g : A -> list B) l :
  Forall (fun x => f x = g x) l -> flat_map f l = flat_map g l.
Proof. induction 1 as [| x l Hx _ IH]; [done |]. simpl. by rewrite Hx, IH. Qed.

Lemma splice_nil pos (bs : list Z) : splice pos [] bs = bs.
Proof. unfold splice. simpl. rewrite Nat.add_0_r. apply take_drop. Qed.

(** Two pieces laid down one after the other are their concatenation laid
    down at once. *)
Lemma splice_splice pos (s1 s2 c : list Z) :
  (pos + length s1 + length s2 <= length c)%nat ->
  splice (pos + length s1) s2 (splice pos s1 c) = splice pos (s1 ++ s2) c.
Proof.
  intros Hfit. apply list_eq. intros k.
  assert (L1 : length (splice pos s1 c) = length c) by (apply splice_length; lia).
  destruct (decide (pos + length s1 <= k < pos + length s1 + length s2)%nat).
  - rewrite splice_lookup_in by lia.
    rewrite splice_lookup_in by (rewrite ?length_app; lia).
    rewrite lookup_app_r by lia. f_equal. lia.
  - rewrite splice_lookup_out by lia.
    destruct (decide (pos <= k < pos + length s1)%nat).
    + rewrite splice_lookup_in by lia.
      rewrite splice_lookup_in by (rewrite ?length_app; lia).
      rewrite lookup_app_l by lia. done.
    + rewrite splice_lookup_out by lia.
      rewrite splice_lookup_out by (rewrite ?length_app; lia). done.
Qed.

(** A view away from the bytes laid down shows what it showed. *)
Lemma u8_bytes_splice_outside h d pos src c a :
  h !! d = Some c -> (pos + length src <= length c)%nat ->
  u8_data a <> d
  \/ (u8_byteOffset a + u8_byteLength a <= pos)%nat
  \/ (pos + length src <= u8_byteOffset a)%nat ->
  u8_bytes (alter (splice pos src) d h) a = u8_bytes h a.
Proof.
  intros Hc Hfit Hdis. unfold u8_bytes.
  destruct (decide (u8_data a = d)) as [Heq | Hne];
    [| by rewrite list_lookup_alter_ne].
  destruct Hdis as [Hdis | Hdis]; [done |]. rewrite Heq.
  rewrite list_lookup_alter_eq, Hc. simpl.
  apply list_eq. intros k.
  destruct (decide (k < u8_byteLength a)%nat).
  - rewrite !lookup_take_lt by done. rewrite !lookup_drop.
    apply splice_lookup_out; lia.
  - by rewrite !lookup_take_ge by lia.
Qed.

(** A view shows the bytes laid down at its start, and then what it
    showed. *)
Lemma u8_bytes_splice_at h a src :
  view_ok h a -> (length src <= u8_byteLength a)%nat ->
  u8_bytes (alter (splice (u8_byteOffset a) src) (u8_data a) h) a
  = src ++ drop (length src) (u8_bytes h a).
Proof.
  intros (c & Hc & Hfit) Hlen. unfold u8_bytes.
  rewrite list_lookup_alter_eq, Hc. simpl.
  apply list_eq. intros k.
  destruct (decide (k < u8_byteLength a)%nat) as [Hk | Hk].
  - rewrite lookup_take_lt, lookup_drop by done.
    destruct (decide (k < length src)%nat).
    + rewrite splice_lookup_in, lookup_app_l by lia. f_equal. lia.
    + rewrite splice_lookup_out, lookup_app_r by lia.
      rewrite lookup_drop, lookup_take_lt, lookup_drop by lia. f_equal. lia.
  - rewrite lookup_take_ge by lia. symmetry. apply lookup_ge_None_2.
    rewrite length_app, length_drop, length_take, length_drop. lia.
Qed.

Lemma same_sizes_splice h d pos src c :
  h !! d = Some c -> (pos + length src <= length c)%nat ->
  same_sizes h (alter (splice pos src) d h).
Proof.
  intros Hc Hfit n bs Hn.
  destruct (decide (d = n)) as [<- | Hne].
  - rewrite list_lookup_alter_eq, Hn. simpl. eexists. split; [done |].
    rewrite Hc in Hn. injection Hn as <-. by apply splice_length.
  - exists bs. by rewrite list_lookup_alter_ne.
Qed.

Lemma view_ok_same_sizes h h' a : same_sizes h h' -> view_ok h a -> view_ok h' a.
Proof.
  intros Hs (bs & Hbs & Hfit). destruct (Hs _ _ Hbs) as (bs' & Hbs' & Hl').
  exists bs'. split; [done | lia].
Qed.

(** The filling loop of [concat], whatever it is given and whether it
    ends or throws, writes inside the destination only. *)
Lemma concat_fill_frame r buffers :
  forall offset h res h',
    view_ok h (buffer r) -> 0 <= offset ->
    concat_fill r buffers offset h = (res, h') ->
    same_sizes h h'
    /\ forall a, disjoint (buffer r) a -> u8_bytes h' a = u8_bytes h a.
Proof.
  induction buffers as [| b bs IH]; intros offset h res h' Hr H0.
  - intros [= _ <-]. split; [apply same_sizes_refl | done].
  - simpl. unfold bind, set, u8_set. cbn [default from_option id].
    destruct (_ || _) eqn:Hguard.
    { intros [= _ <-]. split; [apply same_sizes_refl | done]. }
    apply orb_false_iff in Hguard as [_ Hfit]. apply Z.ltb_ge in Hfit.
    destruct Hr as (c & Hc & Hcfit).
    set (src := u8_bytes h (buffer b)).
    assert (Hsrc : (length src <= u8_byteLength (buffer b))%nat).
    { subst src. unfold u8_bytes. rewrite length_take. lia. }
    set (pos := (u8_byteOffset (buffer r) + Z.to_nat offset)%nat).
    assert (Hpos : (pos + length src <= length c)%nat) by (subst pos; lia).
    pose proof (same_sizes_splice h (u8_data (buffer r)) pos src c Hc Hpos) as Hs1.
    intros Hrest.
    apply IH in Hrest as [Hs2 Hframe];
      [| eapply view_ok_same_sizes; [exact Hs1 | by exists c] | lia].
    split; [by eapply same_sizes_trans |].
    intros a Ha. rewrite Hframe by done.
    apply (u8_bytes_splice_outside h _ pos src c); [done | done |].
    subst pos. destruct Ha as [Ha | [Ha | Ha]]; [left; congruence | right | right]; lia.
Qed.

(** The filling loop of [concat] on inputs that share no byte with the
    destination and fit into it: the bytes of the inputs are laid down
    from [offset] on, one input after the other. *)
Lemma concat_fill_spec r buffers :
  forall h (offset : nat),
    view_ok h (buffer r) ->
    Forall (handle_ok h) buffers ->
    Forall (fun b => disjoint (buffer r) (buffer b)) buffers ->
    (offset + length (flat_map (bytes_of h) buffers) <= u8_byteLength (buffer r))%nat ->
    concat_fill r buffers (Z.of_nat offset) h
    = (Normal tt,
       alter (splice (u8_byteOffset (buffer r) + offset)
                     (flat_map (bytes_of h) buffers))
             (u8_data (buffer r)) h).
Proof.
  induction buffers as [| b bs IH]; intros h offset Hr Hall Hdis Hfit.
  - simpl. unfold ret. f_equal. symmetry. apply list_alter_id.
    intros. apply splice_nil.
  - apply Forall_cons in Hall as [Hb Hbs]. apply Forall_cons in Hdis as [Hdb Hdbs].
    simpl in Hfit. rewrite length_app in Hfit.
    pose proof (bytes_of_length h b Hb) as Hlb.
    pose proof Hr as (c & Hc & Hcfit).
    simpl. unfold bind at 1. unfold set at 1.
    rewrite u8_set_ok by (simpl; destruct Hb as [Hb _]; lia).
    cbn [default from_option id]. rewrite Nat2Z.id.
    fold (bytes_of h b).
    set (pos := (u8_byteOffset (buffer r) + offset)%nat).
    assert (Hpos : (pos + length (bytes_of h b) <= length c)%nat) by (subst pos; lia).
    pose proof (same_sizes_splice h (u8_data (buffer r)) pos (bytes_of h b) c Hc Hpos)
      as Hs1.
    set (h1 := alter (splice pos (bytes_of h b)) (u8_data (buffer r)) h) in *.
    assert (Hsame : Forall (fun b' => bytes_of h1 b' = bytes_of h b') bs).
    { eapply Forall_impl; [exact Hdbs |]. intros b' Hd. unfold bytes_of.
      apply (u8_bytes_splice_outside h _ pos (bytes_of h b) c); [done | done |].
      subst pos. destruct Hd as [Hd | [Hd | Hd]]; [left; congruence | right | right]; lia. }
    apply flat_map_Forall_ext in Hsame.
    replace (Z.of_nat offset + Z.of_nat (byteLength b))
      with (Z.of_nat (offset + byteLength b)) by lia.
    rewrite (IH h1 (offset + byteLength b)%nat).
    + rewrite Hsame. subst h1. rewrite list_alter_alter_eq.
      f_equal. apply list_alter_ext; [| done]. intros c' Hc'.
      rewrite Hc in Hc'. injection Hc' as <-. simpl.
      replace (u8_byteOffset (buffer r) + (offset + byteLength b))%nat
        with (pos + length (bytes_of h b))%nat by (subst pos; lia).
      apply splice_splice. subst pos. lia.
    + by eapply view_ok_same_sizes.
    + eapply Forall_impl; [exact Hbs |]. intros. by eapply handle_ok_same_sizes.
    + done.
    + rewrite Hsame. lia.
Qed.

(** [concat] on valid inputs outside the free part of the pool, with a
    length that is enough for them and that the host allows. *)
Lemma concat_spec host st buffers totalLength :
  Forall (handle_ok (memory st)) buffers ->
  Forall (fun b => outside_free_pool st (buffer b)) buffers ->
  sum_byteLength buffers <= default (sum_byteLength buffers) totalLength
    <= maxLength host ->
  exists r st',
    concat host buffers totalLength st = (Normal r, st')
    /\ handle_ok (memory st') r
    /\ Z.of_nat (byteLength r) = default (sum_byteLength buffers) totalLength
    /\ u8_isBuffer (buffer r) = hasBuffer host
    /\ take (length (flat_map (bytes_of (memory st)) buffers))
            (bytes_of (memory st') r)
       = flat_map (bytes_of (memory st)) buffers
    /\ (hasBuffer host = false ->
        bytes_of (memory st') r
        = flat_map (bytes_of (memory st)) buffers
          ++ replicate (byteLength r - length (flat_map (bytes_of (memory st)) buffers)) 0)
    /\ same_sizes (memory st) (memory st')
    /\ (forall a0, view_ok (memory st) a0 -> outside_free_pool st a0 ->
          disjoint (buffer r) a0
          /\ u8_bytes (memory st') a0 = u8_bytes (memory st) a0)
    /\ (store_ok st ->
        store_ok st' /\ outside_free_pool st' (buffer r)
        /\ forall a0, view_ok (memory st) a0 -> outside_free_pool st a0 ->
                      outside_free_pool st' a0).
Proof.
  intros Hall Hout Hn.
  pose proof (sum_byteLength_bytes (memory st) buffers Hall) as Hsum.
  set (all := flat_map (bytes_of (memory st)) buffers) in *.
  set (n := default (sum_byteLength buffers) totalLength) in *.
  assert (Hn' : n = match totalLength with
                    | Some n => n
                    | None => sum_byteLength buffers
                    end) by (subst n; by destruct totalLength).
  destruct (alloc_spec host n st) as (r & st1 & Halloc & Hrl & Hrn & Hrb & Hh & Hzero);
    [lia |].
  pose proof Hh as ((ext & Hext & _) & Hrok & Hdis & Hpool).
  assert (Hall1 : Forall (handle_ok (memory st1)) buffers).
  { eapply Forall_impl; [exact Hall |]. intros b [Hl Hb]. split; [done |].
    rewrite Hext. by apply view_ok_app. }
  assert (Hsame : Forall (fun b => bytes_of (memory st1) b = bytes_of (memory st) b)
                         buffers).
  { eapply Forall_impl; [exact Hall |]. intros b [_ Hb]. unfold bytes_of.
    rewrite Hext. by apply u8_bytes_app. }
  apply flat_map_Forall_ext in Hsame.
  assert (Hdisj : Forall (fun b => disjoint (buffer r) (buffer b)) buffers).
  { apply Forall_forall. intros b Hb. apply Hdis.
    - eapply Forall_forall in Hall as [_ Hv]; [exact Hv | done].
    - by eapply Forall_forall in Hout. }
  pose proof (concat_fill_spec r buffers (memory st1) 0 Hrok Hall1 Hdisj) as Hfill.
  rewrite Hsame in Hfill. fold all in Hfill. change (Z.of_nat 0) with 0 in Hfill.
  rewrite Nat.add_0_r in Hfill.
  specialize (Hfill ltac:(lia)).
  set (m' := alter (splice (u8_byteOffset (buffer r)) all) (u8_data (buffer r))
                   (memory st1)) in *.
  assert (Hrun : concat host buffers totalLength st
                 = (Normal r, {| memory := m'; pool := pool st1 |})).
  { unfold concat, bind, lift. rewrite <- Hn', Halloc, Hfill. done. }
  pose proof Hrok as (c & Hc & Hcfit).
  assert (Hs1 : same_sizes (memory st1) m').
  { apply (same_sizes_splice _ _ _ _ c); [done | lia]. }
  assert (Hbytes : bytes_of m' r = all ++ drop (length all) (bytes_of (memory st1) r)).
  { apply u8_bytes_splice_at; [done | lia]. }
  exists r, {| memory := m'; pool := pool st1 |}. simpl. split_and!.
  - exact Hrun.
  - split; [lia |]. by eapply view_ok_same_sizes.
  - lia.
  - done.
  - rewrite Hbytes. by rewrite take_app_length.
  - intros Hb. destruct (Hzero Hb) as [Hr ->].
    rewrite Hbytes. f_equal. unfold bytes_of, u8_bytes. rewrite Hr. simpl.
    rewrite lookup_fresh. simpl. rewrite drop_0, firstn_all2 by (rewrite length_replicate; lia).
    rewrite drop_replicate. f_equal. lia.
  - eapply same_sizes_trans; [by eapply handed_out_same_sizes | done].
  - intros a0 Ha0 Hout0. split; [by apply Hdis |].
    transitivity (u8_bytes (memory st1) a0).
    + apply (u8_bytes_splice_outside _ _ _ _ c); [done | lia |].
      destruct (Hdis a0 Ha0 Hout0) as [Hd | [Hd | Hd]];
        [left; congruence | right | right]; lia.
    + rewrite Hext. by apply u8_bytes_app.
  - intros Hst. destruct (Hpool Hst) as (Hst1 & Hr1 & Hkeep). split_and!.
    + intros p Hp. simpl in *. subst m'. rewrite length_alter. by apply Hst1.
    + done.
    + done.
Qed.

(** [concat] without [totalLength]. *)
Lemma concat_all host st buffers :
  Forall (handle_ok (memory st)) buffers ->
  Forall (fun b => outside_free_pool st (buffer b)) buffers ->
  Z.of_nat (sum_list (byteLength <$> buffers)) <= maxLength host ->
  exists r st',
    concat host buffers None st = (Normal r, st')
    /\ handle_ok (memory st') r
    /\ byteLength r = sum_list (byteLength <$> buffers)
    /\ bytes_of (memory st') r = flat_map (bytes_of (memory st)) buffers
    /\ (forall b, handle_ok (memory st) b -> outside_free_pool st (buffer b) ->
          disjoint (buffer r) (buffer b)
          /\ bytes_of (memory st') b = bytes_of (memory st) b)
    /\ (buffers = [] -> byteLength r = 0%nat).
Proof.
  intros Hall Hout Hmax.
  pose proof (sum_byteLength_sum_list buffers) as Hsl.
  pose proof (sum_byteLength_bytes (memory st) buffers Hall) as Hsum.
  destruct (concat_spec host st buffers None Hall Hout)
    as (r & st' & Hrun & Hr & Hlen & _ & Htake & _ & _ & Hframe & _).
  { cbn [default from_option id]. lia. }
  cbn [default from_option id] in Hlen.
  exists r, st'. split_and!; try done.
  - lia.
  - rewrite <- Htake. symmetry. apply firstn_all2.
    rewrite bytes_of_length by done. lia.
  - intros b [_ Hb] Hob. by apply Hframe.
  - intros ->. simpl in *. lia.
Qed.

(** C2: without [totalLength], on inputs none of which views the free part
    of the allocation pool and whose lengths add up to a length the host
    allows, [concat] returns a valid handle on memory handed out by this
    call (it shares no byte with a buffer that existed, and those buffers
    keep their bytes); its length is the sum of the input lengths and its
    bytes are the inputs' bytes in order; for no input the length is 0. *)
Theorem concat_without_totalLength host st buffers :
  Forall (handle_ok (memory st)) buffers ->
  Forall (fun b => outside_free_pool st (buffer b)) buffers ->
  Z.of_nat (sum_list (byteLength <$> buffers)) <= maxLength host ->
  exists r st',
    concat host buffers None st = (Normal r, st')
    /\ handle_ok (memory st') r
    /\ byteLength r = sum_list (byteLength <$> buffers)
    /\ bytes_of (memory st') r = flat_map (bytes_of (memory st)) buffers
    /\ (forall b, handle_ok (memory st) b -> outside_free_pool st (buffer b) ->
          disjoint (buffer r) (buffer b)
          /\ bytes_of (memory st') b = bytes_of (memory st) b)
    /\ (buffers = [] -> byteLength r = 0%nat).
Proof. apply concat_all. Qed.

(** A total length above what the host allows makes [concat] throw. *)
Lemma concat_too_long host st buffers :
  maxLength host < sum_byteLength buffers ->
  concat host buffers None st = (Throw RangeError, st).
Proof. intros H. unfold concat, bind. by rewrite alloc_throws by lia. Qed.

Lemma sum_byteLength_replicate k b :
  sum_byteLength (replicate k b) = Z.of_nat k * Z.of_nat (byteLength b).
Proof.
  induction k as [| k IH]; [done |].
  cbn [replicate]. rewrite sum_byteLength_cons, IH. lia.
Qed.

(** C2 as stated fails on Node.  A buffer wrapped on the part of the pool
    that has not been handed out is overwritten by [concat] before it is
    copied: the result, which lies in the array buffer of the first
    input, holds the first input twice.  And 2^19 times a buffer of 4096
    bytes is more than a buffer can hold: [concat] throws a
    [RangeError]. *)
Lemma concat_without_totalLength_counterexample :
  (Forall (handle_ok (memory sample_pooled)) [sample_first; sample_free]
   /\ flat_map (bytes_of (memory sample_pooled)) [sample_first; sample_free]
      = [0; 1; 2; 3; 8; 9; 10; 11]
   /\ exists r,
        fst (concat node_host [sample_first; sample_free] None sample_pooled)
        = Normal r
        /\ u8_data (buffer r) = u8_data (buffer sample_first)
        /\ bytes_of
             (memory (snd (concat node_host [sample_first; sample_free] None
                             sample_pooled))) r
           = [0; 1; 2; 3; 0; 1; 2; 3])
  /\ (Forall (handle_ok (memory sample_large)) (replicate (Z.to_nat 524288) sample_big)
      /\ Forall (fun b => outside_free_pool sample_large (buffer b))
                (replicate (Z.to_nat 524288) sample_big)
      /\ concat node_host (replicate (Z.to_nat 524288) sample_big) None sample_large
         = (Throw RangeError, sample_large)).
Proof.
  split; split_and!.
  - apply Forall_cons_2; [| apply Forall_cons_2; [| apply Forall_nil_2]];
      (split; [reflexivity |]);
      exists (unsafe_bytes node_host 0 (poolSize node_host));
      (split; [vm_compute; reflexivity |]);
      rewrite unsafe_bytes_length; apply (proj1 (Nat.leb_le _ _));
      vm_compute; reflexivity.
  - vm_compute. reflexivity.
  - eexists. split_and!; vm_compute; reflexivity.
  - apply Forall_replicate. split; [reflexivity |].
    exists (unsafe_bytes node_host 0 4096).
    split; [vm_compute; reflexivity |].
    rewrite unsafe_bytes_length. apply (proj1 (Nat.leb_le _ _)).
    vm_compute. reflexivity.
  - apply Forall_replicate. intros p Hp. vm_compute in Hp. discriminate Hp.
  - apply concat_too_long. rewrite sum_byteLength_replicate.
    replace (Z.of_nat (byteLength sample_big)) with 4096 by (vm_compute; reflexivity).
    replace (maxLength node_host) with 0x7FFFFFFF by (vm_compute; reflexivity).
    lia.
Qed.

(** ** Slicing *)

Lemma clamp_index_id len rel : 0 <= rel <= len -> clamp_index len rel = rel.
Proof.
  intros H. unfold clamp_index. destruct (Z.ltb_spec rel 0); lia.
Qed.

Lemma u8_subarray_in_range a start end_ :
  0 <= start <= end_ -> end_ <= Z.of_nat (u8_byteLength a) ->
  u8_subarray a (Some start) (Some end_)
  = {| u8_data := u8_data a;
       u8_byteOffset := u8_byteOffset a + Z.to_nat start;
       u8_byteLength := Z.to_nat (end_ - start);
       u8_isBuffer := u8_isBuffer a |}.
Proof.
  intros Hs He. unfold u8_subarray. simpl.
  rewrite !clamp_index_id by lia. f_equal. lia.
Qed.

(** The result of [subarray] never leaves the view it was taken from,
    whatever the arguments. *)
Lemma u8_subarray_inside a begin end_ :
  let s := u8_subarray a begin end_ in
  u8_data s = u8_data a
  /\ (u8_byteOffset a <= u8_byteOffset s)%nat
  /\ (u8_byteOffset s + u8_byteLength s <= u8_byteOffset a + u8_byteLength a)%nat.
Proof.
  simpl. unfold clamp_index.
  repeat match goal with |- context [ ?x <? ?y ] => destruct (Z.ltb_spec x y) end;
    lia.
Qed.

Lemma u8_subarray_view_ok h a begin end_ :
  view_ok h a -> view_ok h (u8_subarray a begin end_).
Proof.
  intros (bs & Hbs & Hfit).
  destruct (u8_subarray_inside a begin end_) as (Hd & Hlo & Hhi).
  exists bs. rewrite Hd. split; [done | lia].
Qed.

(** C6: for [0 <= start <= end <= b.byteLength], [b.slice(start, end)] has
    [end - start] bytes, namely those of [b] from [start] to [end], lives
    in the array buffer of [b], and shares its cells with [b]: a byte
    written through either handle is read through the other. *)
Theorem slice_is_view h b start end_ :
  handle_ok h b ->
  0 <= start <= end_ -> end_ <= Z.of_nat (byteLength b) ->
  let s := slice b (Some start) (Some end_) in
  Z.of_nat (byteLength s) = end_ - start
  /\ bytes_of h s
     = take (Z.to_nat (end_ - start)) (drop (Z.to_nat start) (bytes_of h b))
  /\ u8_data (buffer s) = u8_data (buffer b)
  /\ handle_ok h s
  /\ (forall i v, 0 <= i < end_ - start ->
        VSBuffer_readUInt8 (VSBuffer_writeUInt8 s v i h) b (start + i)
        = Some (v mod 2 ^ 8))
  /\ (forall i v, 0 <= i < end_ - start ->
        VSBuffer_readUInt8 (VSBuffer_writeUInt8 b v (start + i) h) s i
        = Some (v mod 2 ^ 8)).
Proof.
  intros [Hl Hok] Hs He. rewrite Hl in He.
  pose proof (u8_subarray_view_ok h (buffer b) (Some start) (Some end_) Hok) as Hsok.
  unfold slice, bytes_of, VSBuffer_readUInt8, VSBuffer_writeUInt8, readUInt8,
    writeUInt8.
  rewrite u8_subarray_in_range in * by done. simpl.
  split_and!.
  - lia.
  - unfold u8_bytes. simpl.
    apply list_eq. intros i.
    destruct (decide (i < Z.to_nat (end_ - start))%nat) as [Hi | Hi].
    + rewrite !lookup_take_lt, !lookup_drop, lookup_take_lt, lookup_drop by lia.
      f_equal. lia.
    + by rewrite !lookup_take_ge by lia.
  - done.
  - split; [simpl; lia | done].
  - intros i v Hi. apply u8_get_put_same; simpl; try done.
    + unfold is_index. simpl.
      destruct (Z.leb_spec 0 i), (Z.ltb_spec i (Z.of_nat (Z.to_nat (end_ - start))));
        (done || lia).
    + apply is_index_spec. lia.
    + lia.
  - intros i v Hi. apply u8_get_put_same; simpl; try done.
    + apply is_index_spec. lia.
    + unfold is_index. simpl.
      destruct (Z.leb_spec 0 i), (Z.ltb_spec i (Z.of_nat (Z.to_nat (end_ - start))));
        (done || lia).
    + lia.
Qed.

(** ** Draining a stream *)

Section Streams.
Context {E T : Type} (reducer : list T -> Run T).

Lemma deliver_closed (events : list (StreamEvent E T)) st (c : Consumer E T) h :
  st <> Open -> deliver reducer events st c h = (Normal c, h).
Proof. intros Hst. destruct events, st; done. Qed.

Lemma deliver_data (delivered : list T) (events : list (StreamEvent E T)) c h :
  deliver reducer ((Data <$> delivered) ++ events) Open c h
  = deliver reducer events Open
      {| chunks := chunks c ++ delivered; promise := promise c |} h.
Proof.
  revert c. induction delivered as [| d ds IH]; intros c.
  - simpl. rewrite app_nil_r. by destruct c.
  - simpl. unfold bind at 1. simpl. rewrite IH. simpl.
    by rewrite <- app_assoc.
Qed.

(** A stream is a run of chunks, followed by nothing, by the end signal
    or by an error signal (and whatever comes after it). *)
Lemma stream_shape (stream : list (StreamEvent E T)) :
  exists delivered,
    stream = Data <$> delivered
    \/ (exists rest, stream = (Data <$> delivered) ++ End :: rest)
    \/ (exists error rest, stream = (Data <$> delivered) ++ Failure error :: rest).
Proof.
  induction stream as [| ev evs (ds & IH)].
  - exists []. by left.
  - destruct ev as [d | | e].
    + exists (d :: ds).
      destruct IH as [-> | [(rest & ->) | (e & rest & ->)]]; eauto 6.
    + exists []. right. left. by exists evs.
    + exists []. right. right. by exists e, evs.
Qed.

Lemma consumeStream_failure delivered (error : E) rest h :
  consumeStream reducer ((Data <$> delivered) ++ Failure error :: rest) h
  = (Normal (Rejected error), h).
Proof.
  unfold consumeStream, bind. rewrite deliver_data. simpl.
  unfold bind. simpl. by rewrite deliver_closed.
Qed.

Lemma consumeStream_unfinished (delivered : list T) h :
  consumeStream reducer (Data <$> delivered : list (StreamEvent E T)) h
  = (Normal Unsettled, h).
Proof.
  unfold consumeStream, bind.
  rewrite <- (app_nil_r (Data <$> delivered)), deliver_data. done.
Qed.

Lemma consumeStream_end (delivered : list T) (rest : list (StreamEvent E T)) h :
  consumeStream reducer ((Data <$> delivered) ++ End :: rest) h
  = match reducer delivered h with
    | (Normal value, h') => (Normal (Fulfilled value), h')
    | (Throw e, h') => (Throw e, h')
    end.
Proof.
  unfold consumeStream, bind. rewrite deliver_data. simpl.
  unfold bind. destruct (reducer delivered h) as [[value | e] h']; [| done].
  simpl. by rewrite deliver_closed.
Qed.
End Streams.

(** C9: when the stream signals an error before its end, after any number
    of chunks, the promise is rejected with that error and no buffer was
    built (the store is as before); when it ends instead, the outcome is
    that of [concat] on the chunks delivered, which fulfils the promise
    when it returns; and the promise is fulfilled for no other stream and
    with no other value. *)
Theorem streamToBuffer_rejects_on_error {E : Type} host st
    (delivered : list VSBuffer) (error : E) (rest : list (StreamEvent E VSBuffer)) :
  streamToBuffer host ((Data <$> delivered) ++ Failure error :: rest) st
  = (Normal (Rejected error), st)
  /\ streamToBuffer host ((Data <$> delivered) ++ End :: rest) st
     = match concat host delivered None st with
       | (Normal r, st') => (Normal (Fulfilled r), st')
       | (Throw e, st') => (Throw e, st')
       end
  /\ (forall (stream : list (StreamEvent E VSBuffer)) r st',
        streamToBuffer host stream st = (Normal (Fulfilled r), st') ->
        exists chunks rest',
          stream = (Data <$> chunks) ++ End :: rest'
          /\ concat host chunks None st = (Normal r, st')).
Proof.
  unfold streamToBuffer. split_and!.
  - apply consumeStream_failure.
  - exact (consumeStream_end (fun chunks => concat host chunks None) delivered rest st).
  - intros stream r st' Hrun.
    destruct (stream_shape stream) as (ds & [-> | [(rest' & ->) | (e & rest' & ->)]]).
    + by rewrite consumeStream_unfinished in Hrun.
    + exists ds, rest'. split; [done |].
      rewrite consumeStream_end in Hrun.
      destruct (concat host ds None st) as [[r' | e] st1]; [| done].
      by injection Hrun as <- <-.
    + by rewrite consumeStream_failure in Hrun.
Qed.

(** ** The class invariant *)

Lemma handed_out_builds st a st' : handed_out st a st' -> builds st a st'.
Proof.
  intros Hh. pose proof Hh as ((ext & Hext & _) & Hok & Hdis & Hpool).
  split_and!; try done.
  - by apply handed_out_same_sizes in Hh.
  - intros a0 Ha0 Hout. split; [by apply Hdis |]. rewrite Hext. by apply u8_bytes_app.
Qed.

(** Bytes laid down inside the buffer being built. *)
Lemma builds_write st a st1 pos src :
  builds st a st1 ->
  (pos + length src <= u8_byteLength a)%nat ->
  builds st a
    {| memory := alter (splice (u8_byteOffset a + pos) src) (u8_data a) (memory st1);
       pool := pool st1 |}.
Proof.
  intros (Hok & Hs & Hframe & Hpool) Hfit.
  pose proof Hok as (c & Hc & Hcfit).
  assert (Hs1 : same_sizes (memory st1)
                  (alter (splice (u8_byteOffset a + pos) src) (u8_data a) (memory st1))).
  { apply (same_sizes_splice _ _ _ _ c); [done | lia]. }
  split_and!; simpl.
  - by eapply view_ok_same_sizes.
  - by eapply same_sizes_trans.
  - intros a0 Ha0 Hout. destruct (Hframe a0 Ha0 Hout) as [Hd <-]. split; [done |].
    apply (u8_bytes_splice_outside _ _ _ _ c); [done | lia |].
    destruct Hd as [Hd | [Hd | Hd]]; [left; congruence | right | right]; lia.
  - intros Hst. destruct (Hpool Hst) as (Hst1 & Ha & Hkeep). split_and!; try done.
    intros p Hp. simpl in *. rewrite length_alter. by apply Hst1.
Qed.

(** [fromString] always returns, and builds a buffer of the kind of the
    host holding the bytes that the encoder at work produces. *)
Lemma fromString_run host source st :
  exists b st',
    fromString host source st = (Normal b, st')
    /\ byteLength b = u8_byteLength (buffer b)
    /\ u8_isBuffer (buffer b) = hasBuffer host
    /\ bytes_of (memory st') b
       = (if hasBuffer host || hasTextEncoder host then utf8_encode source
          else encodeUTF8_bytes source)
    /\ builds st (buffer b) st'.
Proof.
  assert (Hfresh : forall isBuffer bs,
             exists a st',
               fresh_view isBuffer bs st = (Normal a, st')
               /\ u8_isBuffer a = isBuffer
               /\ u8_bytes (memory st') a = bs
               /\ builds st a st').
  { intros isBuffer bs. eexists _, _. split; [reflexivity |]. split; [done |].
    split.
    - unfold u8_bytes. simpl. rewrite lookup_fresh. simpl.
      rewrite drop_0. apply firstn_all.
    - split_and!; simpl.
      + exists bs. split; [apply lookup_fresh | simpl; lia].
      + apply same_sizes_grow.
      + intros a0 Ha0 Hout. split; [| by apply u8_bytes_app].
        left. simpl. apply view_ok_lt in Ha0. lia.
      + intros Hst. split_and!; try done.
        * intros p Hp. simpl in *. rewrite length_app. specialize (Hst p Hp). lia.
        * intros p Hp Hd. simpl in *. specialize (Hst p Hp). lia. }
  unfold fromString. destruct (hasBuffer host).
  - unfold Buffer_from_string, bind, lift, u8_write, ret.
    destruct (allocate_spec host (length (utf8_encode source)) st)
      as (a & st1 & -> & Hl & Hb & Hh).
    apply handed_out_builds in Hh.
    pose proof (builds_write st a st1 0 (utf8_encode source) Hh) as Hw.
    rewrite Nat.add_0_r in Hw. specialize (Hw ltac:(lia)).
    eexists _, _. split; [reflexivity |]. simpl. split_and!; try done.
    destruct Hh as (Hok & _).
    unfold bytes_of. cbn [buffer new_VSBuffer].
    rewrite u8_bytes_splice_at by (done || lia).
    rewrite drop_ge, app_nil_r by (rewrite u8_bytes_length by done; lia). done.
  - unfold TextEncoder_encode, encodeUTF8, bind, ret.
    destruct (hasTextEncoder host);
      match goal with
      | |- context [fresh_view ?i ?bs st] =>
          destruct (Hfresh i bs) as (a & st' & -> & Hb & Hbytes & Hbuilds)
      end; by exists (new_VSBuffer a), st'.
Qed.

(** Whatever its arguments, [alloc] leaves the old array buffers alone and,
    when it returns, returns a valid handle. *)
Lemma alloc_sound host n st r st' :
  alloc host n st = (r, st') ->
  same_sizes (memory st) (memory st') /\ Forall (handle_ok (memory st')) (created r).
Proof.
  destruct (decide (0 <= n <= maxLength host)) as [Hn | Hn].
  - destruct (alloc_spec host n st Hn) as (b & st1 & -> & Hl & Hbl & _ & Hh & _).
    intros [= <- <-]. split; [by eapply handed_out_same_sizes |].
    apply Forall_cons_2; [| apply Forall_nil_2].
    eapply handed_out_handle_ok; [lia | done].
  - rewrite alloc_throws by lia. intros [= <- <-].
    split; [apply same_sizes_refl | apply Forall_nil_2].
Qed.

Lemma fromString_sound host source st r st' :
  fromString host source st = (r, st') ->
  same_sizes (memory st) (memory st') /\ Forall (handle_ok (memory st')) (created r).
Proof.
  destruct (fromString_run host source st)
    as (b & st1 & -> & Hl & _ & _ & Hok & Hs & _).
  intros [= <- <-]. split; [exact Hs |].
  apply Forall_cons_2; [by split | apply Forall_nil_2].
Qed.

Lemma concat_sound host buffers totalLength st r st' :
  concat host buffers totalLength st = (r, st') ->
  same_sizes (memory st) (memory st') /\ Forall (handle_ok (memory st')) (created r).
Proof.
  unfold concat, bind, lift.
  destruct (alloc host _ st) as [[b | e] st1] eqn:Halloc.
  - apply alloc_sound in Halloc as [Hs1 Hb]. apply Forall_cons in Hb as [Hb _].
    destruct (concat_fill b buffers 0 (memory st1)) as [res h2] eqn:Hfill.
    apply concat_fill_frame in Hfill as [Hs2 _]; [| apply Hb | lia].
    destruct res as [[] | e]; intros [= <- <-]; simpl;
      (split; [by eapply same_sizes_trans |]).
    + apply Forall_cons_2; [| apply Forall_nil_2]. by eapply handle_ok_same_sizes.
    + apply Forall_nil_2.
  - apply alloc_sound in Halloc as [Hs1 _].
    intros [= <- <-]. split; [done | apply Forall_nil_2].
Qed.

Lemma wrap_sound host h actual : view_ok h actual -> handle_ok h (wrap host actual).
Proof.
  intros Hok. unfold wrap. split; [done |].
  by destruct (hasBuffer host && negb (u8_isBuffer actual)).
Qed.

Lemma slice_sound h b start end_ : handle_ok h b -> handle_ok h (slice b start end_).
Proof.
  intros [_ Hok]. split; [done |]. by apply u8_subarray_view_ok.
Qed.

(** Every operation keeps the array buffers at their sizes and all handles,
    old and new, valid. *)
Lemma step_sound host w w' :
  Forall (handle_ok (heap w)) (handles w) ->
  step host w w' ->
  same_sizes (heap w) (heap w') /\ Forall (handle_ok (heap w')) (handles w').
Proof.
  intros Hinv Hstep.
  assert (Hkeep : forall h', same_sizes (heap w) h' ->
                             Forall (handle_ok h') (handles w)).
  { intros h' Hs. eapply Forall_impl; [exact Hinv |].
    intros. by eapply handle_ok_same_sizes. }
  assert (Hin : forall b, b ∈ handles w -> handle_ok (heap w) b).
  { intros b Hb. by eapply Forall_forall in Hinv. }
  destruct Hstep as [w n r h' Hrun | w a Ha | w s r h' Hrun
                    | w bs total r h' Hbs Hrun | w b st en Hb
                    | w b arr off r h' Hb Harr Hrun | w b v off Hb
                    | w b v off Hb | w bs]; unfold heap in *; simpl.
  - apply alloc_sound in Hrun as [Hs Hnew]. split; [done |].
    apply Forall_app. auto.
  - split; [apply same_sizes_refl |]. constructor; [by apply wrap_sound | done].
  - apply fromString_sound in Hrun as [Hs Hnew]. split; [done |].
    apply Forall_app. auto.
  - apply concat_sound in Hrun as [Hs Hnew].
    split; [done |]. apply Forall_app. auto.
  - split; [apply same_sizes_refl |]. constructor; [| done].
    apply slice_sound. auto.
  - assert (Hs : same_sizes (memory (store w)) h').
    { eapply same_sizes_set; [apply (Hin b Hb) | apply (Hin arr Harr) | exact Hrun]. }
    auto.
  - pose proof (same_sizes_writeUInt32BE (buffer b) v off (memory (store w))). auto.
  - pose proof (same_sizes_put (buffer b) off v (memory (store w))). auto.
  - pose proof (same_sizes_grow (memory (store w)) bs). auto.
Qed.

Lemma reachable_sound host w :
  reachable host w -> Forall (handle_ok (heap w)) (handles w).
Proof.
  unfold reachable. revert w.
  apply (rtc_ind_r (fun w => Forall (handle_ok (heap w)) (handles w)) initial).
  - constructor.
  - intros w w' _ Hstep Hinv. by eapply step_sound.
Qed.

(** C8: in every state a program can reach, each handle has its
    [byteLength] equal to the length of its typed array, which lies within
    its array buffer; and each further operation keeps every array buffer
    at its size: [set] and the integer writers rewrite bytes in place,
    [slice] and [concat] only add handles. *)
Theorem VSBuffer_invariant host w :
  reachable host w ->
  Forall (fun b => byteLength b = u8_byteLength (buffer b)
                   /\ view_ok (heap w) (buffer b)) (handles w)
  /\ forall w', step host w w' ->
       same_sizes (heap w) (heap w')
       /\ Forall (fun b => byteLength b = u8_byteLength (buffer b)
                           /\ view_ok (heap w') (buffer b)) (handles w').
Proof.
  intros Hr. pose proof (reachable_sound host w Hr) as Hinv.
  split; [exact Hinv |].
  intros w' Hstep. by apply (step_sound host).
Qed.

(** ** UTF-8 *)

(** *** Masks and shifts as arithmetic *)

Lemma lor_add a b n :
  0 <= n -> a mod 2 ^ n = 0 -> 0 <= b < 2 ^ n -> Z.lor a b = a + b.
Proof.
  intros Hn Ha Hb. symmetry. apply Z.add_nocarry_lor.
  apply Z.bits_inj'. intros i Hi. rewrite Z.land_spec, Z.bits_0.
  destruct (Z.lt_ge_cases i n) as [Hlt | Hge].
  - rewrite <- (Z.mod_pow2_bits_low a n i), Ha, Z.bits_0 by lia. done.
  - rewrite <- (Z.mod_small b (2 ^ n)) by lia.
    rewrite Z.mod_pow2_bits_high by lia. apply andb_false_r.
Qed.

Lemma land_mask x n : 0 <= n -> Z.land x (Z.ones n) = x mod 2 ^ n.
Proof. intros. by apply Z.land_ones. Qed.

Lemma land_0x3F x : Z.land x 0x3F = x mod 64.
Proof. apply (land_mask x 6). lia. Qed.

Lemma continuation_byte x : Z.lor 0x80 (Z.land x 0x3F) = 0x80 + x mod 64.
Proof.
  rewrite land_0x3F. apply (lor_add _ _ 6); [lia | done |].
  apply Z.mod_pos_bound. lia.
Qed.

(** The encoder of the host in terms of quotients and remainders. *)
Lemma utf8_encode_code_point_arith cp :
  utf8_encode_code_point cp
  = if cp <? 0x80 then [cp]
    else if cp <? 0x800 then [cp / 64 + 0xC0; 0x80 + cp mod 64]
    else if cp <? 0x10000 then
      [cp / 4096 + 0xE0; 0x80 + (cp / 64) mod 64; 0x80 + cp mod 64]
    else
      [cp / 262144 + 0xF0; 0x80 + (cp / 4096) mod 64;
       0x80 + (cp / 64) mod 64; 0x80 + cp mod 64].
Proof.
  unfold utf8_encode_code_point.
  rewrite !continuation_byte, !Z.shiftr_div_pow2 by lia. done.
Qed.

(** The manual encoder computes the same bytes. *)
Lemma lead_byte lead mask k n x :
  0 <= k -> 0 <= n ->
  Z.shiftr mask k = Z.ones n ->
  lead mod 2 ^ n = 0 ->
  0 <= x < 2 ^ k * 2 ^ n ->
  Z.lor lead (Z.shiftr (Z.land x mask) k) = x / 2 ^ k + lead.
Proof.
  intros Hk Hn Hmask Hlead Hx.
  rewrite Z.shiftr_land, Hmask, land_mask, Z.shiftr_div_pow2 by done.
  assert (0 <= x / 2 ^ k) by (apply Z.div_pos; lia).
  assert (x / 2 ^ k < 2 ^ n) by (apply Z.div_lt_upper_bound; lia).
  rewrite Z.mod_small by lia.
  rewrite (lor_add lead _ n) by (done || lia). lia.
Qed.

Lemma trail_byte mask k x :
  0 <= k ->
  Z.shiftr mask k = 0x3F ->
  Z.lor 0x80 (Z.shiftr (Z.land x mask) k) = 0x80 + (x / 2 ^ k) mod 64.
Proof.
  intros Hk Hmask.
  rewrite Z.shiftr_land, Hmask, continuation_byte, Z.shiftr_div_pow2 by done.
  done.
Qed.

Lemma encode_bytes_spec cp :
  0 <= cp < 0x200000 -> encode_bytes cp = utf8_encode_code_point cp.
Proof.
  intros Hcp. rewrite utf8_encode_code_point_arith. unfold encode_bytes.
  destruct (Z.ltb_spec cp 0x80); [done |].
  destruct (Z.ltb_spec cp 0x800).
  { rewrite (lead_byte 0xC0 0x7C0 6 5), (trail_byte 0x03F 0) by (done || lia).
    by rewrite Z.div_1_r. }
  destruct (Z.ltb_spec cp 0x10000).
  { rewrite (lead_byte 0xE0 0xF000 12 4), (trail_byte 0x0FC0 6),
      (trail_byte 0x003F 0) by (done || lia).
    by rewrite Z.div_1_r. }
  rewrite (lead_byte 0xF0 0x1C0000 18 3), (trail_byte 0x03F000 12),
    (trail_byte 0x000FC0 6), (trail_byte 0x00003F 0) by (done || lia).
  by rewrite Z.div_1_r.
Qed.

(** Induction on strings by one or two code units at a time. *)
Lemma string_ind2 (P : JsString -> Prop) :
  P [] ->
  (forall c, P [c]) ->
  (forall c d s, P s -> P (d :: s) -> P (c :: d :: s)) ->
  forall s, P s.
Proof.
  intros Hnil Hone Htwo s.
  assert (H : P s /\ forall c, P (c :: s)); [| tauto].
  induction s as [| d s [IH1 IH2]]; [by split |].
  split; [apply IH2 |]. intros c. by apply Htwo.
Qed.

Ltac decide_tests :=
  repeat match goal with
    | |- context [?a <=? ?b] => destruct (Z.leb_spec a b); try lia
    | |- context [?a <? ?b] => destruct (Z.ltb_spec a b); try lia
    | |- context [?a =? ?b] => destruct (Z.eqb_spec a b); try lia
    end.

Lemma surrogate_spec c :
  (isHighSurrogate c = true <-> 0xD800 <= c <= 0xDBFF)
  /\ (isLowSurrogate c = true <-> 0xDC00 <= c <= 0xDFFF).
Proof. unfold isHighSurrogate, isLowSurrogate. split; decide_tests; simpl; split; (done || lia). Qed.

Lemma isHighSurrogate_true c : isHighSurrogate c = true -> 0xD800 <= c <= 0xDBFF.
Proof. apply surrogate_spec. Qed.

Lemma isHighSurrogate_false c : isHighSurrogate c = false -> ~ 0xD800 <= c <= 0xDBFF.
Proof. intros H Hc. apply surrogate_spec in Hc. congruence. Qed.

Lemma isLowSurrogate_true c : isLowSurrogate c = true -> 0xDC00 <= c <= 0xDFFF.
Proof. apply surrogate_spec. Qed.

Lemma isLowSurrogate_false c : isLowSurrogate c = false -> ~ 0xDC00 <= c <= 0xDFFF.
Proof. intros H Hc. apply surrogate_spec in Hc. congruence. Qed.

(** The manual encoder and the encoder of the host give the same bytes
    for every string. *)
Lemma encodeUTF8_bytes_spec s :
  Forall code_unit s -> encodeUTF8_bytes s = utf8_encode s.
Proof.
  unfold utf8_encode.
  induction s as [| c | c d s IH1 IH2] using string_ind2; intros Hs.
  - done.
  - apply Forall_cons in Hs as [Hc _]. unfold code_unit in Hc.
    cbn [encodeUTF8_bytes code_points].
    destruct (isHighSurrogate c); [done |].
    destruct (isLowSurrogate c); [done |].
    cbn [flat_map]. rewrite encode_bytes_spec by lia. done.
  - apply Forall_cons in Hs as [Hc Hs]. unfold code_unit in Hc.
    pose proof Hs as Hds. apply Forall_cons in Hs as [Hd Hs]. unfold code_unit in Hd.
    specialize (IH1 Hs). specialize (IH2 Hds).
    cbn [encodeUTF8_bytes code_points] in *.
    destruct (isHighSurrogate c) eqn:Hhi.
    + apply isHighSurrogate_true in Hhi.
      destruct (isLowSurrogate d) eqn:Hlo.
      * apply isLowSurrogate_true in Hlo.
        cbn [flat_map]. rewrite <- IH1. f_equal.
        rewrite Z.shiftl_mul_pow2 by lia.
        rewrite encode_bytes_spec by lia. f_equal. lia.
      * rewrite IH2. done.
    + destruct (isLowSurrogate c) eqn:Hlo.
      * rewrite IH2. done.
      * rewrite IH2. cbn [flat_map]. rewrite encode_bytes_spec by lia. done.
Qed.

(** *** Decoding what was encoded *)

Lemma decode_continuation p r rest :
  0 <= r < 64 ->
  lower_boundary p <= 0x80 + r <= upper_boundary p ->
  decode_loop (Some p) ((0x80 + r) :: rest)
  = if bytes_seen p + 1 =? bytes_needed p then
      (code_point p * 64 + r) :: decode_loop None rest
    else
      decode_loop
        (Some {| code_point := code_point p * 64 + r;
                 bytes_seen := bytes_seen p + 1;
                 bytes_needed := bytes_needed p;
                 lower_boundary := 0x80; upper_boundary := 0xBF |})
        rest.
Proof.
  intros Hr Hb. cbn [decode_loop].
  destruct (Z.leb_spec (lower_boundary p) (0x80 + r)); [| lia].
  destruct (Z.leb_spec (0x80 + r) (upper_boundary p)); [| lia].
  cbn [andb].
  assert (Hcp : Z.lor (Z.shiftl (code_point p) 6) (Z.land (0x80 + r) 0x3F)
                = code_point p * 64 + r).
  { rewrite land_0x3F, Z.shiftl_mul_pow2 by lia.
    replace ((0x80 + r) mod 64) with r by (Z.div_mod_to_equations; lia).
    apply (lor_add _ _ 6); [lia | | lia].
    change (2 ^ 6) with 64. by rewrite Z.mod_mul. }
  by rewrite Hcp.
Qed.

Lemma decode_continuation_last p r rest :
  0 <= r < 64 ->
  lower_boundary p <= 0x80 + r <= upper_boundary p ->
  bytes_seen p + 1 = bytes_needed p ->
  decode_loop (Some p) ((0x80 + r) :: rest)
  = (code_point p * 64 + r) :: decode_loop None rest.
Proof.
  intros Hr Hb Hlast. rewrite decode_continuation by done.
  by rewrite (proj2 (Z.eqb_eq _ _) Hlast).
Qed.

Lemma decode_continuation_more p r rest :
  0 <= r < 64 ->
  lower_boundary p <= 0x80 + r <= upper_boundary p ->
  bytes_seen p + 1 <> bytes_needed p ->
  decode_loop (Some p) ((0x80 + r) :: rest)
  = decode_loop
      (Some {| code_point := code_point p * 64 + r;
               bytes_seen := bytes_seen p + 1;
               bytes_needed := bytes_needed p;
               lower_boundary := 0x80; upper_boundary := 0xBF |})
      rest.
Proof.
  intros Hr Hb Hmore. rewrite decode_continuation by done.
  by rewrite (proj2 (Z.eqb_neq _ _) Hmore).
Qed.

Lemma decode_loop_initial b rest :
  decode_loop None (b :: rest)
  = continue_with (decode_lead b) (fun st' => decode_loop st' rest).
Proof. done. Qed.

Lemma decode_lead_ascii b : 0 <= b < 0x80 -> decode_lead b = Emit b.
Proof. intros Hb. unfold decode_lead. by decide_tests. Qed.

Lemma decode_lead_2 q :
  2 <= q < 32 ->
  decode_lead (q + 0xC0)
  = Start {| code_point := q; bytes_seen := 0; bytes_needed := 1;
             lower_boundary := 0x80; upper_boundary := 0xBF |}.
Proof.
  intros Hq. unfold decode_lead. decide_tests. cbn [andb]. do 2 f_equal.
  rewrite (land_mask _ 5) by lia. Z.div_mod_to_equations. lia.
Qed.

Lemma decode_lead_3 q :
  0 <= q < 16 ->
  decode_lead (q + 0xE0)
  = Start {| code_point := q; bytes_seen := 0; bytes_needed := 2;
             lower_boundary := if q =? 0 then 0xA0 else 0x80;
             upper_boundary := if q =? 13 then 0x9F else 0xBF |}.
Proof.
  intros Hq. unfold decode_lead.
  assert (Hl : Z.land (q + 0xE0) 0xF = q).
  { rewrite (land_mask _ 4) by lia. Z.div_mod_to_equations. lia. }
  rewrite Hl. decide_tests; done.
Qed.

Lemma decode_lead_4 q :
  0 <= q <= 4 ->
  decode_lead (q + 0xF0)
  = Start {| code_point := q; bytes_seen := 0; bytes_needed := 3;
             lower_boundary := if q =? 0 then 0x90 else 0x80;
             upper_boundary := if q =? 4 then 0x8F else 0xBF |}.
Proof.
  intros Hq. unfold decode_lead.
  assert (Hl : Z.land (q + 0xF0) 0x7 = q).
  { rewrite (land_mask _ 3) by lia. Z.div_mod_to_equations. lia. }
  rewrite Hl. decide_tests; done.
Qed.

(** The bytes of one scalar value are decoded to that scalar value, and
    the decoder is back in its initial state. *)
Lemma decode_encode_code_point cp rest :
  scalar_value cp ->
  decode_loop None (utf8_encode_code_point cp ++ rest) = cp :: decode_loop None rest.
Proof.
  intros [Hcp Hns]. rewrite utf8_encode_code_point_arith.
  destruct (Z.ltb_spec cp 0x80).
  { cbn [app]. rewrite decode_loop_initial. by rewrite decode_lead_ascii by lia. }
  pose proof (Z.div_mod cp 64 ltac:(lia)) as E0.
  pose proof (Z.mod_pos_bound cp 64 ltac:(lia)) as B0.
  destruct (Z.ltb_spec cp 0x800).
  { cbn [app]. rewrite decode_loop_initial.
    rewrite decode_lead_2 by lia. cbn [continue_with].
    rewrite decode_continuation_last by (cbn; lia). cbn [code_point].
    f_equal. lia. }
  pose proof (Z.div_mod (cp / 64) 64 ltac:(lia)) as E1.
  pose proof (Z.mod_pos_bound (cp / 64) 64 ltac:(lia)) as B1.
  assert (D1 : cp / 4096 = cp / 64 / 64) by (rewrite Z.div_div by lia; done).
  destruct (Z.ltb_spec cp 0x10000).
  { cbn [app]. rewrite decode_loop_initial.
    rewrite decode_lead_3 by lia. cbn [continue_with].
    rewrite decode_continuation_more by (cbn; decide_tests; lia).
    rewrite decode_continuation_last by (cbn; lia). cbn [code_point].
    f_equal. lia. }
  pose proof (Z.div_mod (cp / 4096) 64 ltac:(lia)) as E2.
  pose proof (Z.mod_pos_bound (cp / 4096) 64 ltac:(lia)) as B2.
  assert (D2 : cp / 262144 = cp / 4096 / 64) by (rewrite Z.div_div by lia; done).
  cbn [app]. rewrite decode_loop_initial.
  rewrite decode_lead_4 by lia. cbn [continue_with].
  rewrite decode_continuation_more by (cbn; decide_tests; lia).
  rewrite decode_continuation_more by (cbn; lia).
  rewrite decode_continuation_last by (cbn; lia). cbn [code_point].
  f_equal. lia.
Qed.

Lemma decode_encode_code_points cps :
  Forall scalar_value cps ->
  decode_loop None (flat_map utf8_encode_code_point cps) = cps.
Proof.
  induction 1 as [| cp cps Hcp _ IH]; [done |].
  cbn [flat_map]. by rewrite decode_encode_code_point, IH.
Qed.

(** The conversion of a string yields scalar values only. *)
Lemma code_points_scalar s : Forall code_unit s -> Forall scalar_value (code_points s).
Proof.
  assert (Hrep : scalar_value 0xFFFD) by (unfold scalar_value; lia).
  induction s as [| c | c d s IH1 IH2] using string_ind2; intros Hs.
  - constructor.
  - apply Forall_cons in Hs as [Hc _]. unfold code_unit in Hc.
    cbn [code_points].
    destruct (isHighSurrogate c) eqn:Hhi; [by constructor |].
    destruct (isLowSurrogate c) eqn:Hlo; [by constructor |].
    apply isHighSurrogate_false in Hhi. apply isLowSurrogate_false in Hlo.
    constructor; [| constructor]. unfold scalar_value. lia.
  - apply Forall_cons in Hs as [Hc Hs]. unfold code_unit in Hc.
    pose proof Hs as Hds. apply Forall_cons in Hs as [Hd Hs]. unfold code_unit in Hd.
    specialize (IH1 Hs). specialize (IH2 Hds).
    cbn [code_points] in *.
    destruct (isHighSurrogate c) eqn:Hhi.
    + apply isHighSurrogate_true in Hhi.
      destruct (isLowSurrogate d) eqn:Hlo.
      * apply isLowSurrogate_true in Hlo.
        constructor; [| done]. unfold scalar_value. lia.
      * by constructor.
    + destruct (isLowSurrogate c) eqn:Hlo; [by constructor |].
      apply isHighSurrogate_false in Hhi. apply isLowSurrogate_false in Hlo.
      constructor; [| done]. unfold scalar_value. lia.
Qed.

Lemma utf16_of_pair c d :
  0xD800 <= c <= 0xDBFF -> 0xDC00 <= d <= 0xDFFF ->
  utf16_of_code_point (0x10000 + (c - 0xD800) * 0x400 + (d - 0xDC00)) = [c; d].
Proof.
  intros Hc Hd. unfold utf16_of_code_point.
  destruct (Z.ltb_spec (0x10000 + (c - 0xD800) * 0x400 + (d - 0xDC00)) 0x10000);
    [lia |].
  rewrite (land_mask _ 10), Z.shiftr_div_pow2 by lia.
  f_equal; [| f_equal]; Z.div_mod_to_equations; lia.
Qed.

(** On a well-formed string the conversion to scalar values loses
    nothing. *)
Lemma utf16_code_points s :
  Forall code_unit s -> well_formed s = true ->
  flat_map utf16_of_code_point (code_points s) = s.
Proof.
  induction s as [| c | c d s IH1 IH2] using string_ind2; intros Hs Hwf.
  - done.
  - apply Forall_cons in Hs as [Hc _]. unfold code_unit in Hc.
    cbn [code_points well_formed] in *.
    destruct (isHighSurrogate c); [done |].
    destruct (isLowSurrogate c); [done |].
    cbn [flat_map]. unfold utf16_of_code_point.
    destruct (Z.ltb_spec c 0x10000); [done | lia].
  - apply Forall_cons in Hs as [Hc Hs]. unfold code_unit in Hc.
    pose proof Hs as Hds. apply Forall_cons in Hs as [Hd Hs]. unfold code_unit in Hd.
    specialize (IH1 Hs). specialize (IH2 Hds).
    cbn [code_points well_formed] in *.
    destruct (isHighSurrogate c) eqn:Hhi.
    + apply isHighSurrogate_true in Hhi.
      destruct (isLowSurrogate d) eqn:Hlo; [| done].
      apply isLowSurrogate_true in Hlo. cbn [andb] in Hwf.
      cbn [flat_map]. rewrite utf16_of_pair, IH1 by done. done.
    + destruct (isLowSurrogate c) eqn:Hlo; [done |]. cbn [negb andb] in Hwf.
      cbn [flat_map]. rewrite IH2 by done.
      unfold utf16_of_code_point at 1.
      destruct (Z.ltb_spec c 0x10000); [done | lia].
Qed.

(** Encoding then decoding a well-formed string gives it back. *)
Lemma utf8_decode_encode s :
  Forall code_unit s -> well_formed s = true ->
  utf8_decode (utf8_encode s) = s.
Proof.
  intros Hs Hwf. unfold utf8_decode, utf8_encode.
  rewrite decode_encode_code_points by by apply code_points_scalar.
  by apply utf16_code_points.
Qed.

(** The decoder yields well-formed strings only, whatever the bytes. *)
Lemma utf16_of_code_point_well_formed cp s :
  0 <= cp < 0x110000 -> ~ 0xD800 <= cp <= 0xDFFF ->
  well_formed s = true -> well_formed (utf16_of_code_point cp ++ s) = true.
Proof.
  intros Hcp Hns Hs. unfold utf16_of_code_point.
  destruct (Z.ltb_spec cp 0x10000).
  - cbn [app well_formed]. unfold isHighSurrogate, isLowSurrogate.
    decide_tests; cbn; done.
  - cbn [app well_formed].
    assert (0 <= Z.shiftr (cp - 0x10000) 10 < 0x400).
    { rewrite Z.shiftr_div_pow2 by lia. Z.div_mod_to_equations. lia. }
    assert (0 <= Z.land (cp - 0x10000) 0x3FF < 0x400).
    { rewrite (land_mask _ 10) by lia. Z.div_mod_to_equations. lia. }
    unfold isHighSurrogate, isLowSurrogate. decide_tests; cbn; done.
Qed.

Lemma strip_BOM_code_point cp rest :
  scalar_value cp -> cp <> 0xFEFF ->
  strip_BOM (utf8_encode_code_point cp ++ rest) = utf8_encode_code_point cp ++ rest.
Proof.
  intros [Hcp Hns] Hne. rewrite utf8_encode_code_point_arith.
  pose proof (Z.div_mod cp 64 ltac:(lia)) as E0.
  pose proof (Z.mod_pos_bound cp 64 ltac:(lia)) as B0.
  pose proof (Z.div_mod (cp / 64) 64 ltac:(lia)) as E1.
  pose proof (Z.mod_pos_bound (cp / 64) 64 ltac:(lia)) as B1.
  assert (D1 : cp / 4096 = cp / 64 / 64) by (rewrite Z.div_div by lia; done).
  assert (D2 : cp / 262144 = cp / 4096 / 64) by (rewrite Z.div_div by lia; done).
  pose proof (Z.div_mod (cp / 4096) 64 ltac:(lia)) as E2.
  pose proof (Z.mod_pos_bound (cp / 4096) 64 ltac:(lia)) as B2.
  destruct (Z.ltb_spec cp 0x80).
  { cbn [app]. unfold strip_BOM. destruct rest as [| ? [| ? ?]]; try done.
    destruct (Z.eqb_spec cp 0xEF); [lia | done]. }
  destruct (Z.ltb_spec cp 0x800).
  { cbn [app]. unfold strip_BOM. destruct rest as [| ? ?]; try done.
    destruct (Z.eqb_spec (cp / 64 + 0xC0) 0xEF); [lia | done]. }
  destruct (Z.ltb_spec cp 0x10000).
  { cbn [app]. unfold strip_BOM.
    destruct (Z.eqb_spec (cp / 4096 + 0xE0) 0xEF); [| done].
    destruct (Z.eqb_spec (0x80 + cp / 64 mod 64) 0xBB); [| done].
    destruct (Z.eqb_spec (0x80 + cp mod 64) 0xBF); [lia | done]. }
  cbn [app]. unfold strip_BOM.
  destruct (Z.eqb_spec (cp / 262144 + 0xF0) 0xEF); [lia | done].
Qed.

(** *** The decoder on arbitrary bytes *)

Lemma decode_lead_ok b :
  is_byte b ->
  match decode_lead b with
  | Emit cp => scalar_value cp
  | Start p => pending_ok p
  end.
Proof.
  intros Hb. unfold is_byte in Hb. unfold decode_lead.
  destruct (Z.leb_spec b 0x7F); [unfold scalar_value; lia |].
  assert (H5 : Z.land b 0x1F = b mod 32) by (apply (land_mask b 5); lia).
  assert (H4 : Z.land b 0xF = b mod 16) by (apply (land_mask b 4); lia).
  assert (H3 : Z.land b 0x7 = b mod 8) by (apply (land_mask b 3); lia).
  rewrite H5, H4, H3.
  destruct (Z.leb_spec 0xC2 b), (Z.leb_spec b 0xDF); cbn [andb];
    try (unfold pending_ok;
         cbn [lower_boundary upper_boundary code_point bytes_seen bytes_needed];
         split; [lia |]; split; [lia |]; left; Z.div_mod_to_equations; lia).
  all: destruct (Z.leb_spec 0xE0 b), (Z.leb_spec b 0xEF); cbn [andb];
    try (unfold pending_ok;
         cbn [lower_boundary upper_boundary code_point bytes_seen bytes_needed];
         destruct (Z.eqb_spec b 0xE0), (Z.eqb_spec b 0xED);
         (split; [lia |]; split; [lia |]; right; left; Z.div_mod_to_equations; lia)).
  all: destruct (Z.leb_spec 0xF0 b), (Z.leb_spec b 0xF4); cbn [andb];
    try (unfold pending_ok;
         cbn [lower_boundary upper_boundary code_point bytes_seen bytes_needed];
         destruct (Z.eqb_spec b 0xF0), (Z.eqb_spec b 0xF4);
         (split; [lia |]; split; [lia |]; do 3 right; left;
          Z.div_mod_to_equations; lia)).
  all: unfold scalar_value; lia.
Qed.

Lemma decode_loop_scalar bytes :
  Forall is_byte bytes ->
  forall st, state_ok st -> Forall scalar_value (decode_loop st bytes).
Proof.
  assert (Hrep : scalar_value 0xFFFD) by (unfold scalar_value; lia).
  assert (Hlead : forall b rest,
            is_byte b ->
            (forall st, state_ok st -> Forall scalar_value (decode_loop st rest)) ->
            Forall scalar_value
              (continue_with (decode_lead b) (fun st' => decode_loop st' rest))).
  { intros b rest Hb IH. pose proof (decode_lead_ok b Hb) as Hl.
    destruct (decode_lead b) as [cp | p]; cbn [continue_with].
    - apply Forall_cons_2; [done | by apply IH].
    - by apply IH. }
  induction 1 as [| b rest Hb _ IH]; intros st Hst.
  - destruct st; cbn; [by apply Forall_cons_2 | apply Forall_nil_2].
  - destruct st as [p |]; [| by apply Hlead].
    cbn [decode_loop].
    destruct (_ && _) eqn:Hin; [| apply Forall_cons_2; [done | by apply Hlead]].
    apply andb_true_iff in Hin as [Hlo Hhi].
    apply Z.leb_le in Hlo, Hhi.
    destruct Hst as (Hl & Hu & Hcases).
    assert (Hcp : Z.lor (Z.shiftl (code_point p) 6) (Z.land b 0x3F)
                  = code_point p * 64 + (b - 0x80)).
    { rewrite land_0x3F, Z.shiftl_mul_pow2 by lia.
      replace (b mod 64) with (b - 0x80) by (Z.div_mod_to_equations; lia).
      apply (lor_add _ _ 6); [lia | | lia].
      change (2 ^ 6) with 64. by rewrite Z.mod_mul. }
    rewrite Hcp. clear Hcp.
    destruct (Z.eqb_spec (bytes_seen p + 1) (bytes_needed p)) as [Hlast | Hmore].
    + apply Forall_cons_2; [| by apply IH].
      unfold scalar_value. lia.
    + apply IH. unfold state_ok, pending_ok.
      cbn [lower_boundary upper_boundary code_point bytes_seen bytes_needed].
      split; [lia |]. split; [lia |].
      destruct Hcases as [H | [H | [H | [H | [H | H]]]]].
      * lia.
      * right. right. left. lia.
      * lia.
      * do 4 right. left. lia.
      * do 5 right. lia.
      * lia.
Qed.

Lemma utf16_well_formed cps :
  Forall scalar_value cps ->
  well_formed (flat_map utf16_of_code_point cps) = true.
Proof.
  induction 1 as [| cp cps [Hcp Hns] _ IH]; [done |].
  cbn [flat_map]. by apply utf16_of_code_point_well_formed.
Qed.

(** Whatever bytes a buffer holds, the decoded string has no surrogate
    outside a pair: no encoder could make such a string survive. *)
Lemma utf8_decode_well_formed bytes :
  Forall is_byte bytes -> well_formed (utf8_decode bytes) = true.
Proof.
  intros Hb. apply utf16_well_formed. by apply decode_loop_scalar.
Qed.

Lemma TextDecoder_decode_well_formed bytes :
  Forall is_byte bytes -> well_formed (TextDecoder_decode bytes) = true.
Proof.
  intros Hb. apply utf8_decode_well_formed. unfold strip_BOM.
  destruct bytes as [| b0 [| b1 [| b2 rest]]]; try done.
  destruct (_ && _); [| done].
  by repeat (apply Forall_cons in Hb as [_ Hb]).
Qed.

(** The encoder produces bytes. *)
Lemma utf8_encode_code_point_bytes cp :
  scalar_value cp -> Forall is_byte (utf8_encode_code_point cp).
Proof.
  intros [Hcp _]. rewrite utf8_encode_code_point_arith. unfold is_byte.
  pose proof (Z.mod_pos_bound cp 64 ltac:(lia)).
  pose proof (Z.mod_pos_bound (cp / 64) 64 ltac:(lia)).
  pose proof (Z.mod_pos_bound (cp / 4096) 64 ltac:(lia)).
  assert (0 <= cp / 64 <= cp / 1) by (split; [apply Z.div_pos | apply Z.div_le_compat_l]; lia).
  destruct (Z.ltb_spec cp 0x80); [| destruct (Z.ltb_spec cp 0x800);
    [| destruct (Z.ltb_spec cp 0x10000)]];
    repeat (apply Forall_cons_2; [| ]); try apply Forall_nil_2; try lia.
  - assert (cp / 64 < 32) by (apply Z.div_lt_upper_bound; lia). lia.
  - assert (0 <= cp / 4096 < 16)
      by (split; [apply Z.div_pos | apply Z.div_lt_upper_bound]; lia). lia.
  - assert (0 <= cp / 262144 < 8)
      by (split; [apply Z.div_pos | apply Z.div_lt_upper_bound]; lia). lia.
Qed.

Lemma utf8_encode_bytes s : Forall code_unit s -> Forall is_byte (utf8_encode s).
Proof.
  intros Hs. unfold utf8_encode.
  induction (code_points_scalar s Hs) as [| cp cps Hcp _ IH]; [apply Forall_nil_2 |].
  cbn [flat_map]. apply Forall_app. split; [by apply utf8_encode_code_point_bytes | done].
Qed.

Lemma code_points_head c rest :
  Forall code_unit (c :: rest) ->
  exists cp cps,
    code_points (c :: rest) = cp :: cps
    /\ scalar_value cp
    /\ (starts_with_BOM (c :: rest) = false -> cp <> 0xFEFF).
Proof.
  intros Hs. pose proof (code_points_scalar _ Hs) as Hsc.
  apply Forall_cons in Hs as [Hc Hs]. unfold code_unit in Hc.
  cbn [code_points starts_with_BOM] in *.
  destruct (isHighSurrogate c) eqn:Hhi.
  - apply isHighSurrogate_true in Hhi.
    destruct rest as [| d rest'].
    + exists 0xFFFD, []. apply Forall_cons in Hsc as [H1 _]. split_and!; [done | done | lia].
    + destruct (isLowSurrogate d) eqn:Hlo.
      * apply isLowSurrogate_true in Hlo. apply Forall_cons in Hsc as [H1 _].
        eexists _, _. split_and!; [done | done | lia].
      * apply Forall_cons in Hsc as [H1 _]. eexists _, _. split_and!; [done | done | lia].
  - destruct (isLowSurrogate c) eqn:Hlo.
    + apply Forall_cons in Hsc as [H1 _]. eexists _, _. split_and!; [done | done | lia].
    + apply Forall_cons in Hsc as [H1 _]. eexists _, _. split_and!; [done | done |].
      intros Hb. by apply Z.eqb_neq in Hb.
Qed.

(** The encoding of a string that does not begin with the byte order mark
    does not begin with its three bytes. *)
Lemma strip_BOM_encode s :
  Forall code_unit s -> starts_with_BOM s = false ->
  strip_BOM (utf8_encode s) = utf8_encode s.
Proof.
  intros Hs Hb. destruct s as [| c rest]; [done |].
  destruct (code_points_head c rest Hs) as (cp & cps & Hcps & Hcp & Hne).
  unfold utf8_encode. rewrite Hcps. cbn [flat_map].
  apply strip_BOM_code_point; auto.
Qed.

(** On code units all hosts store the same bytes. *)
Lemma fromString_spec host s st :
  Forall code_unit s ->
  exists b st',
    fromString host s st = (Normal b, st')
    /\ byteLength b = u8_byteLength (buffer b)
    /\ u8_isBuffer (buffer b) = hasBuffer host
    /\ bytes_of (memory st') b = utf8_encode s
    /\ builds st (buffer b) st'.
Proof.
  intros Hs.
  destruct (fromString_run host s st) as (b & st' & Hrun & Hl & Hb & Hbytes & Hbuilds).
  exists b, st'. split_and!; try done.
  rewrite Hbytes, encodeUTF8_bytes_spec by done.
  by destruct (hasBuffer host), (hasTextEncoder host).
Qed.

(** What [toString] does on a buffer made on this host. *)
Lemma toString_decode host h b :
  u8_isBuffer (buffer b) = hasBuffer host ->
  toString host h b
  = if hasBuffer host then utf8_decode (bytes_of h b)
    else if hasTextDecoder host then TextDecoder_decode (bytes_of h b)
    else utf8_decode (bytes_of h b).
Proof.
  intros Hb. unfold toString, Uint8Array_toString. rewrite Hb.
  by destruct (hasBuffer host).
Qed.

(** The round trip from the lemmas on the codecs: what [toString] makes
    of a buffer that holds the encoding of a string. *)
Lemma toString_encoded host s h b :
  u8_isBuffer (buffer b) = hasBuffer host ->
  bytes_of h b = utf8_encode s ->
  Forall code_unit s -> well_formed s = true ->
  (hasBuffer host = false -> hasTextDecoder host = true ->
   starts_with_BOM s = false) ->
  toString host h b = s.
Proof.
  intros Hb Hbytes Hs Hwf Hbom. rewrite toString_decode, Hbytes by done.
  unfold TextDecoder_decode.
  destruct (hasBuffer host); [by apply utf8_decode_encode |].
  destruct (hasTextDecoder host); [| by apply utf8_decode_encode].
  rewrite strip_BOM_encode by auto. by apply utf8_decode_encode.
Qed.


(** The two conditions are needed: [toString] gives back no other
    string. *)
Lemma fromString_toString_only_if host s st b st' :
  Forall code_unit s ->
  fromString host s st = (Normal b, st') ->
  toString host (memory st') b = s ->
  well_formed s = true
  /\ (hasBuffer host = false -> hasTextDecoder host = true ->
      starts_with_BOM s = false).
Proof.
  intros Hs Hrun. pose proof (utf8_encode_bytes s Hs) as Hbytes.
  destruct (fromString_spec host s st Hs)
    as (b' & st1 & Hrun' & _ & Hb & Hbs & _).
  rewrite Hrun in Hrun'. injection Hrun' as <- <-.
  rewrite toString_decode, Hbs by done.
  assert (Hplain : utf8_decode (utf8_encode s) = s -> well_formed s = true).
  { intros <-. by apply utf8_decode_well_formed. }
  destruct (hasBuffer host); [by intros H%Hplain |].
  destruct (hasTextDecoder host); [| by intros H%Hplain].
  intros Hrt.
  assert (Hwf : well_formed s = true).
  { rewrite <- Hrt. by apply TextDecoder_decode_well_formed. }
  split; [done |]. intros _ _.
  destruct s as [| c rest]; [done |]. cbn [starts_with_BOM].
  destruct (Z.eqb_spec c 0xFEFF) as [-> | Hne]; [| done].
  exfalso. apply Forall_cons in Hs as [_ Hrest].
  assert (Hwr : well_formed rest = true) by done.
  unfold TextDecoder_decode in Hrt.
  change (utf8_encode (0xFEFF :: rest))
    with (0xEF :: 0xBB :: 0xBF :: utf8_encode rest) in Hrt.
  change (strip_BOM (0xEF :: 0xBB :: 0xBF :: utf8_encode rest))
    with (utf8_encode rest) in Hrt.
  rewrite utf8_decode_encode in Hrt by done.
  apply (f_equal length) in Hrt. simpl in Hrt. lia.
Qed.


(** ** The statements at sample inputs *)

Lemma sample_whole_ok : handle_ok sample_heap sample_whole.
Proof. split; [reflexivity |]. eexists. split; [reflexivity | simpl; lia]. Defined.

Lemma sample_inner_ok : handle_ok sample_heap sample_inner.
Proof. split; [reflexivity |]. eexists. split; [reflexivity | simpl; lia]. Defined.



Lemma sample_pair_ok : Forall (handle_ok sample_heap) [sample_inner; sample_whole].
Proof.
  apply Forall_cons_2; [exact sample_inner_ok |].
  apply Forall_cons_2; [exact sample_whole_ok | apply Forall_nil_2].
Defined.

Lemma sample_first_ok : handle_ok (memory sample_pooled) sample_first.
Proof.
  split; [reflexivity |]. exists (unsafe_bytes node_host 0 (poolSize node_host)).
  split; [vm_compute; reflexivity |].
  rewrite unsafe_bytes_length. apply (proj1 (Nat.leb_le _ _)). vm_compute. reflexivity.
Defined.

Lemma sample_first_outside : outside_free_pool sample_pooled (buffer sample_first).
Proof.
  intros p Hp _. vm_compute in Hp. injection Hp as <-.
  apply (proj1 (Nat.leb_le _ _)). vm_compute. reflexivity.
Defined.

Lemma concat_without_totalLength_witness :
  Forall (handle_ok (memory sample_pooled)) [sample_first; sample_first]
  /\ Forall (fun b => outside_free_pool sample_pooled (buffer b))
            [sample_first; sample_first]
  /\ Z.of_nat (sum_list (byteLength <$> [sample_first; sample_first]))
     <= maxLength node_host
  /\ exists r st',
       concat node_host [sample_first; sample_first] None sample_pooled
       = (Normal r, st')
       /\ handle_ok (memory st') r
       /\ byteLength r = sum_list (byteLength <$> [sample_first; sample_first])
       /\ bytes_of (memory st') r
          = flat_map (bytes_of (memory sample_pooled)) [sample_first; sample_first]
       /\ (forall b, handle_ok (memory sample_pooled) b ->
             outside_free_pool sample_pooled (buffer b) ->
             disjoint (buffer r) (buffer b)
             /\ bytes_of (memory st') b = bytes_of (memory sample_pooled) b)
       /\ ([sample_first; sample_first] = [] -> byteLength r = 0%nat).
Proof.
  assert (Hok : Forall (handle_ok (memory sample_pooled)) [sample_first; sample_first]).
  { apply Forall_cons_2; [exact sample_first_ok |].
    apply Forall_cons_2; [exact sample_first_ok | apply Forall_nil_2]. }
  assert (Hout : Forall (fun b => outside_free_pool sample_pooled (buffer b))
                        [sample_first; sample_first]).
  { apply Forall_cons_2; [exact sample_first_outside |].
    apply Forall_cons_2; [exact sample_first_outside | apply Forall_nil_2]. }
  assert (Hmax : Z.of_nat (sum_list (byteLength <$> [sample_first; sample_first]))
                 <= maxLength node_host) by (vm_compute; discriminate).
  split; [exact Hok |]. split; [exact Hout |]. split; [exact Hmax |].
  apply (concat_without_totalLength node_host sample_pooled _ Hok Hout Hmax).
Defined.

Lemma writeUInt32BE_readUInt32BE_roundtrip_witness :
  handle_ok sample_heap sample_inner
  /\ (4 <= byteLength sample_inner)%nat
  /\ 0 <= 0xDEADBEEF <= 2 ^ 32 - 1
  /\ VSBuffer_readUInt32BE
       (VSBuffer_writeUInt32BE sample_inner 0xDEADBEEF 0 sample_heap) sample_inner 0
     = Some 0xDEADBEEF.
Proof.
  assert (H4 : (4 <= byteLength sample_inner)%nat) by (simpl; lia).
  assert (Hv : 0 <= 0xDEADBEEF <= 2 ^ 32 - 1) by lia.
  split; [exact sample_inner_ok |]. split; [exact H4 |]. split; [exact Hv |].
  apply (writeUInt32BE_readUInt32BE_roundtrip _ _ _ sample_inner_ok H4 Hv).
Defined.

Lemma writeUInt32BE_truncates_witness :
  handle_ok sample_heap sample_whole
  /\ 0 <= 2 /\ 2 + 4 <= Z.of_nat (byteLength sample_whole)
  /\ 0 <= 2 ^ 32 + 0x01020304
  /\ VSBuffer_readUInt32BE
       (VSBuffer_writeUInt32BE sample_whole (2 ^ 32 + 0x01020304) 2 sample_heap)
       sample_whole 2
     = Some ((2 ^ 32 + 0x01020304) mod 2 ^ 32).
Proof.
  assert (H0 : 0 <= 2) by lia.
  assert (H4 : 2 + 4 <= Z.of_nat (byteLength sample_whole)) by (simpl; lia).
  assert (Hv : 0 <= 2 ^ 32 + 0x01020304) by lia.
  split; [exact sample_whole_ok |]. split; [exact H0 |]. split; [exact H4 |].
  split; [exact Hv |].
  apply (writeUInt32BE_truncates _ _ _ _ sample_whole_ok H0 H4 Hv).
Defined.

Lemma slice_is_view_witness :
  handle_ok sample_heap sample_whole
  /\ 0 <= 1 <= 5 /\ 5 <= Z.of_nat (byteLength sample_whole)
  /\ let s := slice sample_whole (Some 1) (Some 5) in
     Z.of_nat (byteLength s) = 5 - 1
     /\ bytes_of sample_heap s
        = take (Z.to_nat (5 - 1)) (drop (Z.to_nat 1) (bytes_of sample_heap sample_whole))
     /\ u8_data (buffer s) = u8_data (buffer sample_whole)
     /\ handle_ok sample_heap s
     /\ (forall i v, 0 <= i < 5 - 1 ->
           VSBuffer_readUInt8 (VSBuffer_writeUInt8 s v i sample_heap) sample_whole (1 + i)
           = Some (v mod 2 ^ 8))
     /\ (forall i v, 0 <= i < 5 - 1 ->
           VSBuffer_readUInt8 (VSBuffer_writeUInt8 sample_whole v (1 + i) sample_heap) s i
           = Some (v mod 2 ^ 8)).
Proof.
  assert (Hs : 0 <= 1 <= 5) by lia.
  assert (He : 5 <= Z.of_nat (byteLength sample_whole)) by (simpl; lia).
  split; [exact sample_whole_ok |]. split; [exact Hs |]. split; [exact He |].
  apply (slice_is_view _ _ _ _ sample_whole_ok Hs He).
Defined.

Lemma writeUInt8_readUInt8_roundtrip_witness :
  handle_ok sample_heap sample_inner
  /\ 0 <= 3 < Z.of_nat (byteLength sample_inner)
  /\ (0 <= 200 <= 255 ->
      VSBuffer_readUInt8 (VSBuffer_writeUInt8 sample_inner 200 3 sample_heap)
        sample_inner 3 = Some 200)
  /\ VSBuffer_readUInt8 (VSBuffer_writeUInt8 sample_inner 200 3 sample_heap)
       sample_inner 3 = Some (200 mod 2 ^ 8).
Proof.
  assert (Ho : 0 <= 3 < Z.of_nat (byteLength sample_inner)) by (simpl; lia).
  split; [exact sample_inner_ok |]. split; [exact Ho |].
  apply (writeUInt8_readUInt8_roundtrip _ _ _ _ sample_inner_ok Ho).
Defined.

Lemma sample_world_reachable : reachable node_host sample_world.
Proof.
  unfold reachable. eapply rtc_l; [| apply rtc_refl].
  apply (step_alloc node_host initial 4 _ _ eq_refl).
Defined.

Lemma VSBuffer_invariant_witness :
  reachable node_host sample_world
  /\ Forall (fun b => byteLength b = u8_byteLength (buffer b)
                      /\ view_ok (heap sample_world) (buffer b))
       (handles sample_world)
  /\ forall w', step node_host sample_world w' ->
       same_sizes (heap sample_world) (heap w')
       /\ Forall (fun b => byteLength b = u8_byteLength (buffer b)
                           /\ view_ok (heap w') (buffer b)) (handles w').
Proof.
  split; [exact sample_world_reachable |].
  apply (VSBuffer_invariant node_host sample_world sample_world_reachable).
Defined.

Lemma set_frame_witness :
  handle_ok sample_heap sample_whole /\ handle_ok sample_heap sample_inner
  /\ default 0 (Some 2) + Z.of_nat (byteLength sample_inner)
     <= Z.of_nat (byteLength sample_whole)
  /\ exists r h',
       set sample_whole sample_inner (Some 2) sample_heap = (r, h')
       /\ (0 <= default 0 (Some 2) -> r = Normal tt)
       /\ forall i,
            ~ (default 0 (Some 2) <= i
               < default 0 (Some 2) + Z.of_nat (byteLength sample_inner)) ->
            VSBuffer_readUInt8 h' sample_whole i
            = VSBuffer_readUInt8 sample_heap sample_whole i.
Proof.
  assert (Hfit : default 0 (Some 2) + Z.of_nat (byteLength sample_inner)
                 <= Z.of_nat (byteLength sample_whole)) by (simpl; lia).
  split; [exact sample_whole_ok |]. split; [exact sample_inner_ok |].
  split; [exact Hfit |].
  apply (set_frame _ _ _ _ sample_whole_ok sample_inner_ok Hfit).
Defined.

(** * Further properties of the file *)

(** ** Elements, in and out of bounds *)

Lemma u8_get_None h a i : is_index a i = false -> u8_get h a i = None.
Proof. intros H. unfold u8_get. by rewrite H. Qed.

Lemma u8_get_Some h a i :
  view_ok h a -> is_index a i = true -> is_Some (u8_get h a i).
Proof.
  intros (bs & Hbs & Hfit) Hi. unfold u8_get. rewrite Hi, Hbs.
  apply lookup_lt_is_Some. apply is_index_spec in Hi. lia.
Qed.

Lemma u8_put_ignored a i v h : is_index a i = false -> u8_put a i v h = h.
Proof. intros H. unfold u8_put. by rewrite H. Qed.

(** A store changes no cell but its own, whatever the indices and the
    views. *)
Lemma u8_get_put_disjoint h a1 a2 i j v :
  (is_index a1 i = true -> is_index a2 j = true ->
   u8_data a1 = u8_data a2 ->
   (u8_byteOffset a1 + Z.to_nat i <> u8_byteOffset a2 + Z.to_nat j)%nat) ->
  u8_get (u8_put a1 i v h) a2 j = u8_get h a2 j.
Proof.
  intros Hne.
  destruct (is_index a1 i) eqn:Hi; [| by rewrite u8_put_ignored].
  destruct (is_index a2 j) eqn:Hj; [| by rewrite !u8_get_None].
  apply u8_get_put_other.
  destruct (decide (u8_data a1 = u8_data a2)); [right | left]; auto.
Qed.

Lemma u8_get_put_index h a i j v :
  i <> j -> u8_get (u8_put a i v h) a j = u8_get h a j.
Proof.
  intros Hne. apply u8_get_put_disjoint.
  intros Hi%is_index_spec Hj%is_index_spec _. lia.
Qed.

Lemma u8_put_other_buffer a i v (h : Heap) n :
  n <> u8_data a -> u8_put a i v h !! n = h !! n.
Proof.
  intros Hne. unfold u8_put. destruct (is_index a i); [| done].
  by apply list_lookup_alter_ne.
Qed.

Lemma writeUInt32BE_other_buffer a v offset (h : Heap) n :
  n <> u8_data a -> writeUInt32BE a v offset h !! n = h !! n.
Proof.
  intros Hne. unfold writeUInt32BE. by rewrite !u8_put_other_buffer.
Qed.

(** The cells of a view that the four stores of [writeUInt32BE] can reach
    are those at [offset] to [offset + 3]. *)
Lemma writeUInt32BE_get_other h a a2 v offset j :
  (forall k, 0 <= k < 4 ->
     is_index a (offset + k) = true -> is_index a2 j = true ->
     u8_data a = u8_data a2 ->
     (u8_byteOffset a + Z.to_nat (offset + k) <> u8_byteOffset a2 + Z.to_nat j)%nat) ->
  u8_get (writeUInt32BE a v offset h) a2 j = u8_get h a2 j.
Proof.
  intros Hne. unfold writeUInt32BE.
  rewrite u8_get_put_disjoint.
  2: { pose proof (Hne 0 ltac:(lia)) as H0. by rewrite Z.add_0_r in H0. }
  rewrite u8_get_put_disjoint by (apply Hne; lia).
  rewrite u8_get_put_disjoint by (apply Hne; lia).
  rewrite u8_get_put_disjoint by (apply Hne; lia).
  done.
Qed.

(** X1: [writeUInt32BE] changes nothing but the four bytes at [offset] to
    [offset + 3] of its buffer: the other bytes of the buffer and all
    other array buffers stay as they were, and no array buffer changes
    its size, for every value and every offset. *)
Theorem writeUInt32BE_frame h b v offset :
  (forall i, ~ (offset <= i < offset + 4) ->
     VSBuffer_readUInt8 (VSBuffer_writeUInt32BE b v offset h) b i
     = VSBuffer_readUInt8 h b i)
  /\ (forall n, n <> u8_data (buffer b) ->
        VSBuffer_writeUInt32BE b v offset h !! n = h !! n)
  /\ same_sizes h (VSBuffer_writeUInt32BE b v offset h).
Proof.
  unfold VSBuffer_readUInt8, VSBuffer_writeUInt32BE, readUInt8. split_and!.
  - intros i Hi. apply writeUInt32BE_get_other.
    intros k Hk Hi1%is_index_spec Hi2%is_index_spec _. lia.
  - intros n Hn. by apply writeUInt32BE_other_buffer.
  - apply same_sizes_writeUInt32BE.
Qed.

Lemma ushr_bytes v :
  ToUint8 v = (v mod 2 ^ 32) / 2 ^ (8 * (3 - 3)) mod 2 ^ 8
  /\ ToUint8 (ushr v 8) = (v mod 2 ^ 32) / 2 ^ (8 * (3 - 2)) mod 2 ^ 8
  /\ ToUint8 (ushr (ushr v 8) 8) = (v mod 2 ^ 32) / 2 ^ (8 * (3 - 1)) mod 2 ^ 8
  /\ ToUint8 (ushr (ushr (ushr v 8) 8) 8)
     = (v mod 2 ^ 32) / 2 ^ (8 * (3 - 0)) mod 2 ^ 8.
Proof.
  rewrite !ushr_8. unfold ToUint8.
  change (2 ^ (8 * (3 - 3))) with 1. change (2 ^ (8 * (3 - 2))) with 256.
  change (2 ^ (8 * (3 - 1))) with 65536. change (2 ^ (8 * (3 - 0))) with 16777216.
  change (2 ^ 32) with 4294967296. change (2 ^ 8) with 256.
  split_and!; Z.div_mod_to_equations; lia.
Qed.

(** X2: the byte layout of [writeUInt32BE], one byte at a time: each of the
    four positions that lies inside the buffer receives its byte of the
    value, most significant first.  Positions past the end (or before the
    start) are skipped without error, the others are written all the
    same. *)
Theorem writeUInt32BE_bytes h b v offset k :
  handle_ok h b ->
  0 <= k < 4 ->
  0 <= offset + k < Z.of_nat (byteLength b) ->
  VSBuffer_readUInt8 (VSBuffer_writeUInt32BE b v offset h) b (offset + k)
  = Some ((v mod 2 ^ 32) / 2 ^ (8 * (3 - k)) mod 2 ^ 8).
Proof.
  intros [Hl Hok] Hk Hin. rewrite Hl in Hin.
  assert (Hidx : is_index (buffer b) (offset + k) = true) by by apply is_index_spec.
  destruct (ushr_bytes v) as (B3 & B2 & B1 & B0).
  unfold VSBuffer_readUInt8, VSBuffer_writeUInt32BE, readUInt8, writeUInt32BE.
  set (a := buffer b) in *.
  set (h3 := u8_put a (offset + 3) v h).
  set (h2 := u8_put a (offset + 2) (ushr v 8) h3).
  set (h1 := u8_put a (offset + 1) (ushr (ushr v 8) 8) h2).
  assert (Hok3 : view_ok h3 a) by by apply u8_put_view_ok.
  assert (Hok2 : view_ok h2 a) by by apply u8_put_view_ok.
  assert (Hok1 : view_ok h1 a) by by apply u8_put_view_ok.
  assert (Hcases : k = 0 \/ k = 1 \/ k = 2 \/ k = 3) by lia.
  destruct Hcases as [-> | [-> | [-> | ->]]].
  - rewrite Z.add_0_r in *. rewrite u8_get_put_eq by done. by rewrite B0.
  - rewrite u8_get_put_index by lia. subst h1.
    rewrite u8_get_put_eq by done. by rewrite B1.
  - rewrite u8_get_put_index by lia. subst h1.
    rewrite u8_get_put_index by lia. subst h2.
    rewrite u8_get_put_eq by done. by rewrite B2.
  - rewrite u8_get_put_index by lia. subst h1.
    rewrite u8_get_put_index by lia. subst h2.
    rewrite u8_get_put_index by lia. subst h3.
    rewrite u8_get_put_eq by done. by rewrite B3.
Qed.

(** X3: a negative value is stored in two's complement: reading back what
    was written for [v] in [-2^32, 0) gives [v + 2^32]. *)
Theorem writeUInt32BE_negative h b v offset :
  handle_ok h b ->
  0 <= offset -> offset + 4 <= Z.of_nat (byteLength b) ->
  - 2 ^ 32 <= v < 0 ->
  VSBuffer_readUInt32BE (VSBuffer_writeUInt32BE b v offset h) b offset
  = Some (v + 2 ^ 32).
Proof.
  intros [Hl Hok] H0 H4 Hv.
  unfold VSBuffer_readUInt32BE, VSBuffer_writeUInt32BE.
  rewrite write_read_UInt32BE by (done || lia). f_equal.
  change (2 ^ 32) with 4294967296 in *. Z.div_mod_to_equations. lia.
Qed.

Lemma readUInt32BE_in_bounds h a offset :
  view_ok h a ->
  0 <= offset -> offset + 4 <= Z.of_nat (u8_byteLength a) ->
  is_Some (readUInt32BE h a offset).
Proof.
  intros Hok H0 H4. unfold readUInt32BE.
  assert (Hidx : forall k, 0 <= k < 4 -> is_Some (u8_get h a (offset + k))).
  { intros k Hk. apply u8_get_Some; [done |]. apply is_index_spec. lia. }
  destruct (Hidx 0 ltac:(lia)) as [x0 E0]. rewrite Z.add_0_r in E0.
  destruct (Hidx 1 ltac:(lia)) as [x1 E1].
  destruct (Hidx 2 ltac:(lia)) as [x2 E2].
  destruct (Hidx 3 ltac:(lia)) as [x3 E3].
  rewrite E0, E1, E2, E3. by eexists.
Qed.

(** X4: [readUInt32BE] yields [NaN] exactly when one of the four bytes lies
    outside the buffer; it never throws. *)
Theorem readUInt32BE_NaN_iff h b offset :
  handle_ok h b ->
  VSBuffer_readUInt32BE h b offset = None
  <-> ~ (0 <= offset /\ offset + 4 <= Z.of_nat (byteLength b)).
Proof.
  intros [Hl Hok]. rewrite Hl.
  unfold VSBuffer_readUInt32BE. split.
  - intros Hnan [H0 H4].
    destruct (readUInt32BE_in_bounds h (buffer b) offset Hok H0 H4) as [x Hx].
    congruence.
  - unfold readUInt32BE. intros Hout.
    destruct (Z.lt_ge_cases offset 0) as [Hneg | Hpos].
    + rewrite (u8_get_None h (buffer b) offset); [done |].
      apply is_index_false. lia.
    + rewrite (u8_get_None h (buffer b) (offset + 3)).
      * match goal with |- add_number ?x None = None => by destruct x end.
      * apply is_index_false. lia.
Qed.

Lemma u8_get_byte h a i x : heap_bytes h -> u8_get h a i = Some x -> is_byte x.
Proof.
  intros Hh. unfold u8_get. destruct (is_index a i); [| done].
  destruct (h !! u8_data a) as [bs |] eqn:Hbs; [| done].
  intros Hx. eapply Forall_lookup_1; [| exact Hx].
  by eapply Forall_lookup_1 in Hh.
Qed.

(** The four bytes behind a number read by [readUInt32BE]. *)
Lemma readUInt32BE_Some h a offset v :
  readUInt32BE h a offset = Some v ->
  exists x0 x1 x2 x3,
    u8_get h a offset = Some x0 /\ u8_get h a (offset + 1) = Some x1
    /\ u8_get h a (offset + 2) = Some x2 /\ u8_get h a (offset + 3) = Some x3
    /\ v = x0 * 2 ^ 24 + x1 * 2 ^ 16 + x2 * 2 ^ 8 + x3.
Proof.
  unfold readUInt32BE.
  destruct (u8_get h a offset) as [x0 |]; [| done].
  destruct (u8_get h a (offset + 1)) as [x1 |]; [| done].
  destruct (u8_get h a (offset + 2)) as [x2 |]; [| done].
  destruct (u8_get h a (offset + 3)) as [x3 |]; [| done].
  simpl. intros [= <-]. by exists x0, x1, x2, x3.
Qed.

Lemma uint32_of_bytes x0 x1 x2 x3 :
  is_byte x0 -> is_byte x1 -> is_byte x2 -> is_byte x3 ->
  let v := x0 * 2 ^ 24 + x1 * 2 ^ 16 + x2 * 2 ^ 8 + x3 in
  0 <= v < 2 ^ 32
  /\ v / 2 ^ (8 * (3 - 0)) mod 2 ^ 8 = x0
  /\ v / 2 ^ (8 * (3 - 1)) mod 2 ^ 8 = x1
  /\ v / 2 ^ (8 * (3 - 2)) mod 2 ^ 8 = x2
  /\ v / 2 ^ (8 * (3 - 3)) mod 2 ^ 8 = x3.
Proof.
  unfold is_byte. intros H0 H1 H2 H3. cbv zeta.
  change (2 ^ (8 * (3 - 3))) with 1. change (2 ^ (8 * (3 - 2))) with 256.
  change (2 ^ (8 * (3 - 1))) with 65536. change (2 ^ (8 * (3 - 0))) with 16777216.
  change (2 ^ 32) with 4294967296. change (2 ^ 24) with 16777216.
  change (2 ^ 16) with 65536. change (2 ^ 8) with 256.
  split_and!; try lia; Z.div_mod_to_equations; lia.
Qed.

(** X5: inside the buffer, and when the cells hold bytes, [readUInt32BE]
    returns an integer of the unsigned 32-bit range whose four bytes, most
    significant first, are the four bytes at [offset] to [offset + 3]. *)
Theorem readUInt32BE_value h b offset :
  handle_ok h b -> heap_bytes h ->
  0 <= offset -> offset + 4 <= Z.of_nat (byteLength b) ->
  exists v,
    VSBuffer_readUInt32BE h b offset = Some v
    /\ 0 <= v < 2 ^ 32
    /\ forall k, 0 <= k < 4 ->
         VSBuffer_readUInt8 h b (offset + k)
         = Some (v / 2 ^ (8 * (3 - k)) mod 2 ^ 8).
Proof.
  intros Hb Hh H0 H4.
  destruct (readUInt32BE_in_bounds h (buffer b) offset) as [v Hread];
    [by destruct Hb | done | destruct Hb as [<- _]; done |].
  fold (VSBuffer_readUInt32BE h b offset) in Hread.
  exists v. split; [done |].
  apply readUInt32BE_Some in Hread as (x0 & x1 & x2 & x3 & E0 & E1 & E2 & E3 & ->).
  destruct (uint32_of_bytes x0 x1 x2 x3) as (Hr & B0 & B1 & B2 & B3);
    eauto using u8_get_byte.
  split; [done |]. intros k Hk. unfold VSBuffer_readUInt8, readUInt8.
  assert (Hcases : k = 0 \/ k = 1 \/ k = 2 \/ k = 3) by lia.
  destruct Hcases as [-> | [-> | [-> | ->]]].
  - rewrite Z.add_0_r, E0. by rewrite B0.
  - rewrite E1. by rewrite B1.
  - rewrite E2. by rewrite B2.
  - rewrite E3. by rewrite B3.
Qed.

Lemma u8_put_same_value h a i v x :
  u8_get h a i = Some x -> ToUint8 v = x -> u8_put a i v h = h.
Proof.
  unfold u8_get, u8_put. destruct (is_index a i); [| done].
  destruct (h !! u8_data a) as [bs |] eqn:Hbs; [| done].
  intros Hx ->. apply list_eq. intros n.
  destruct (decide (u8_data a = n)) as [<- | Hne].
  - rewrite list_lookup_alter_eq, Hbs. simpl. by rewrite list_insert_id.
  - by rewrite list_lookup_alter_ne.
Qed.

(** X6: writing back the number just read changes nothing: the heap after
    [writeUInt32BE(readUInt32BE(offset), offset)] is the heap before. *)
Theorem readUInt32BE_writeUInt32BE_identity h b offset v :
  heap_bytes h ->
  VSBuffer_readUInt32BE h b offset = Some v ->
  VSBuffer_writeUInt32BE b v offset h = h.
Proof.
  intros Hh Hread. unfold VSBuffer_readUInt32BE, VSBuffer_writeUInt32BE in *.
  apply readUInt32BE_Some in Hread as (x0 & x1 & x2 & x3 & E0 & E1 & E2 & E3 & ->).
  destruct (uint32_of_bytes x0 x1 x2 x3) as (Hr & B0 & B1 & B2 & B3);
    eauto using u8_get_byte.
  set (v := x0 * 2 ^ 24 + x1 * 2 ^ 16 + x2 * 2 ^ 8 + x3) in *.
  destruct (ushr_bytes v) as (U3 & U2 & U1 & U0).
  rewrite (Z.mod_small v (2 ^ 32)) in U0, U1, U2, U3 by done.
  unfold writeUInt32BE.
  rewrite (u8_put_same_value h _ (offset + 3) v x3) by (done || congruence).
  rewrite (u8_put_same_value h _ (offset + 2) _ x2) by (done || congruence).
  rewrite (u8_put_same_value h _ (offset + 1) _ x1) by (done || congruence).
  apply (u8_put_same_value h _ offset _ x0); (done || congruence).
Qed.

(** X7: the single-byte accessors outside the buffer: [readUInt8] gives
    [undefined] exactly there, and [writeUInt8] there leaves the whole
    heap as it was. *)
Theorem UInt8_out_of_bounds h b offset :
  handle_ok h b ->
  (VSBuffer_readUInt8 h b offset = None
   <-> ~ 0 <= offset < Z.of_nat (byteLength b))
  /\ (~ 0 <= offset < Z.of_nat (byteLength b) ->
      forall v, VSBuffer_writeUInt8 b v offset h = h).
Proof.
  intros [Hl Hok]. rewrite Hl.
  unfold VSBuffer_readUInt8, VSBuffer_writeUInt8, readUInt8, writeUInt8.
  split_and!.
  - split.
    + intros Hnone Hin.
      destruct (u8_get_Some h (buffer b) offset Hok) as [x Hx];
        [by apply is_index_spec | congruence].
    + intros Hout. apply u8_get_None. by apply is_index_false.
  - intros Hout v. apply u8_put_ignored. by apply is_index_false.
Qed.

(** ** Bulk copy, in full *)

Lemma u8_set_other_buffer target source offset (h : Heap) n :
  n <> u8_data target -> snd (u8_set target source offset h) !! n = h !! n.
Proof.
  intros Hne. unfold u8_set. destruct (_ || _); [done |].
  by apply list_lookup_alter_ne.
Qed.

(** X8: a [set] whose source fits copies the source bytes, as they were
    before the call, to [offset] onwards and keeps the rest of the
    destination, also when source and destination share memory; it
    touches no other array buffer. *)
Theorem set_copies h d s offset :
  handle_ok h d -> handle_ok h s ->
  0 <= default 0 offset ->
  default 0 offset + Z.of_nat (byteLength s) <= Z.of_nat (byteLength d) ->
  exists h',
    set d s offset h = (Normal tt, h')
    /\ bytes_of h' d
       = take (Z.to_nat (default 0 offset)) (bytes_of h d)
         ++ bytes_of h s
         ++ drop (Z.to_nat (default 0 offset) + byteLength s) (bytes_of h d)
    /\ handle_ok h' d
    /\ forall n, n <> u8_data (buffer d) -> h' !! n = h !! n.
Proof.
  intros Hd Hs H0 Hfit.
  pose proof (bytes_of_length h s Hs) as Hls.
  pose proof (bytes_of_length h d Hd) as Hld.
  destruct Hd as [Hdl (bd & Hbd & Hdfit)]. destruct Hs as [Hsl Hsok].
  set (o := Z.to_nat (default 0 offset)).
  assert (Hrun : set d s offset h
                 = (Normal tt,
                    alter (splice (u8_byteOffset (buffer d) + o) (bytes_of h s))
                          (u8_data (buffer d)) h)).
  { unfold set. apply u8_set_ok; lia. }
  eexists. split; [exact Hrun |].
  assert (Hsp : length (splice (u8_byteOffset (buffer d) + o) (bytes_of h s) bd)
                = length bd) by (apply splice_length; lia).
  split_and!.
  - unfold bytes_of at 1. unfold u8_bytes.
    rewrite list_lookup_alter_eq, Hbd. cbn [fmap option_fmap option_map from_option id].
    fold (bytes_of h s). rewrite <- Hdl.
    apply list_eq. intros i.
    destruct (decide (i < byteLength d)%nat) as [Hi | Hi].
    + rewrite lookup_take_lt, lookup_drop by done.
      destruct (decide (i < o)%nat) as [Hlo | Hlo].
      * rewrite splice_lookup_out by lia.
        rewrite lookup_app_l by (rewrite length_take; lia).
        rewrite lookup_take_lt by done.
        unfold bytes_of, u8_bytes. rewrite Hbd. cbn [from_option id].
        rewrite lookup_take_lt, lookup_drop by lia. done.
      * rewrite lookup_app_r by (rewrite length_take; lia).
        rewrite length_take, Hld.
        destruct (decide (i < o + byteLength s)%nat) as [Hmid | Hmid].
        -- rewrite splice_lookup_in by lia.
           rewrite lookup_app_l by lia. f_equal. lia.
        -- rewrite splice_lookup_out by lia.
           rewrite lookup_app_r by lia. rewrite lookup_drop, Hls.
           unfold bytes_of, u8_bytes. rewrite Hbd. cbn [from_option id].
           rewrite lookup_take_lt, lookup_drop by lia. f_equal. lia.
    + rewrite lookup_take_ge by lia. symmetry. apply lookup_ge_None_2.
      rewrite !length_app, length_take, length_drop. lia.
  - split; [done |]. exists (splice (u8_byteOffset (buffer d) + o) (bytes_of h s) bd).
    split; [| lia]. by rewrite list_lookup_alter_eq, Hbd.
  - intros n Hn. by apply list_lookup_alter_ne.
Qed.

(** X9: [set] throws a [RangeError] exactly when the offset is negative or
    the source does not fit behind it, and then it has written nothing. *)
Theorem set_throws_iff h d s offset :
  handle_ok h d -> handle_ok h s ->
  (fst (set d s offset h) = Throw RangeError
   <-> default 0 offset < 0
       \/ Z.of_nat (byteLength d) < default 0 offset + Z.of_nat (byteLength s))
  /\ (fst (set d s offset h) = Throw RangeError -> snd (set d s offset h) = h).
Proof.
  intros [Hdl _] [Hsl _]. rewrite Hdl, Hsl. unfold set, u8_set.
  destruct (Z.ltb_spec (default 0 offset) 0);
    destruct (Z.ltb_spec (Z.of_nat (u8_byteLength (buffer d)))
                (Z.of_nat (u8_byteLength (buffer s)) + default 0 offset));
    cbn [orb fst snd];
    (split;
     [split; [intros Hf; (discriminate Hf || lia)
             | intros Hc; (reflexivity || (exfalso; lia))]
     | intros Hf; (reflexivity || discriminate Hf)]).
Qed.

(** ** Slicing, in full *)

(** The bytes of a view that lies inside another one. *)
Lemma u8_bytes_inside h a s :
  u8_data s = u8_data a ->
  (u8_byteOffset a <= u8_byteOffset s)%nat ->
  (u8_byteOffset s + u8_byteLength s <= u8_byteOffset a + u8_byteLength a)%nat ->
  u8_bytes h s
  = take (u8_byteLength s) (drop (u8_byteOffset s - u8_byteOffset a) (u8_bytes h a)).
Proof.
  intros Hd Hlo Hhi. unfold u8_bytes. rewrite Hd.
  apply list_eq. intros i.
  destruct (decide (i < u8_byteLength s)%nat) as [Hi | Hi].
  - rewrite !lookup_take_lt, !lookup_drop, lookup_take_lt, lookup_drop by lia.
    f_equal. lia.
  - by rewrite !lookup_take_ge by lia.
Qed.

(** X10: whatever its arguments (negative, too large, crossed, omitted),
    [slice] returns a valid view of the same array buffer that lies inside
    the buffer it was taken from, and shows a contiguous part of its
    bytes. *)
Theorem slice_stays_inside h b start end_ :
  handle_ok h b ->
  let s := slice b start end_ in
  handle_ok h s
  /\ u8_data (buffer s) = u8_data (buffer b)
  /\ exists k, (k + byteLength s <= byteLength b)%nat
               /\ bytes_of h s = take (byteLength s) (drop k (bytes_of h b)).
Proof.
  intros Hb. pose proof (slice_sound h b start end_ Hb) as Hs.
  destruct Hb as [Hl Hok]. cbv zeta.
  destruct (u8_subarray_inside (buffer b) start end_) as (Hd & Hlo & Hhi).
  split; [done |]. split; [done |].
  exists (u8_byteOffset (buffer (slice b start end_)) - u8_byteOffset (buffer b))%nat.
  split; [rewrite Hl; simpl in *; lia |].
  by apply u8_bytes_inside.
Qed.

(** X11: the defaults and the relative indices of [slice]: without
    arguments it shows the whole buffer; an end that is not after the
    start gives an empty buffer; a negative start counts from the end, so
    that [slice(-k)] shows the last [k] bytes (all of them when there are
    fewer). *)
Theorem slice_edge_cases h b :
  handle_ok h b ->
  bytes_of h (slice b None None) = bytes_of h b
  /\ (forall start end_, 0 <= end_ <= start ->
        byteLength (slice b (Some start) (Some end_)) = 0%nat)
  /\ (forall k, 0 < k ->
        bytes_of h (slice b (Some (- k)) None)
        = drop (byteLength b - Z.to_nat k) (bytes_of h b)).
Proof.
  intros Hb. pose proof (bytes_of_length h b Hb) as Hlen.
  destruct Hb as [Hl Hok]. split_and!.
  - assert (Ho : u8_byteOffset (u8_subarray (buffer b) None None)
                 = u8_byteOffset (buffer b)).
    { unfold u8_subarray, clamp_index.
      cbn [u8_byteOffset default from_option id].
      destruct (Z.ltb_spec 0 0); lia. }
    assert (Hn : u8_byteLength (u8_subarray (buffer b) None None)
                 = u8_byteLength (buffer b)).
    { unfold u8_subarray, clamp_index.
      cbn [u8_byteLength default from_option id].
      destruct (Z.ltb_spec 0 0),
        (Z.ltb_spec (Z.of_nat (u8_byteLength (buffer b))) 0); lia. }
    unfold bytes_of, slice, u8_bytes. cbn [buffer new_VSBuffer].
    by rewrite Ho, Hn.
  - intros start end_ Hse. unfold slice, u8_subarray, clamp_index.
    cbn [byteLength new_VSBuffer u8_byteLength default from_option id].
    destruct (Z.ltb_spec start 0), (Z.ltb_spec end_ 0); lia.
  - intros k Hk. unfold bytes_of in *.
    rewrite (u8_bytes_inside h (buffer b)
               (buffer (slice b (Some (- k)) None))).
    + unfold slice, u8_subarray, clamp_index.
      cbn [buffer new_VSBuffer u8_data u8_byteOffset u8_byteLength default
           from_option id].
      destruct (Z.ltb_spec (- k) 0); [| lia].
      destruct (Z.ltb_spec (Z.of_nat (u8_byteLength (buffer b))) 0); [lia |].
      rewrite Hl.
      replace (u8_byteOffset (buffer b)
               + Z.to_nat (Z.max (Z.of_nat (u8_byteLength (buffer b)) + - k) 0)
               - u8_byteOffset (buffer b))%nat
        with (u8_byteLength (buffer b) - Z.to_nat k)%nat by lia.
      apply take_ge. rewrite length_drop, Hlen. lia.
    + apply u8_subarray_inside.
    + apply u8_subarray_inside.
    + apply u8_subarray_inside.
Qed.

(** X12: a slice of a slice is a slice: for indices in range,
    [b.slice(s, e).slice(s', e')] is the same view as
    [b.slice(s + s', s + e')]. *)
Theorem slice_slice b s e s' e' :
  byteLength b = u8_byteLength (buffer b) ->
  0 <= s <= e -> e <= Z.of_nat (byteLength b) ->
  0 <= s' <= e' -> e' <= e - s ->
  slice (slice b (Some s) (Some e)) (Some s') (Some e')
  = slice b (Some (s + s')) (Some (s + e')).
Proof.
  intros Hl Hs He Hs' He'. rewrite Hl in He. unfold slice.
  cbn [buffer new_VSBuffer].
  rewrite (u8_subarray_in_range (buffer b) s e) by done.
  rewrite (u8_subarray_in_range (buffer b) (s + s') (s + e')) by lia.
  rewrite u8_subarray_in_range by (cbn [u8_byteLength]; lia).
  cbn [u8_data u8_byteOffset u8_byteLength u8_isBuffer].
  f_equal. f_equal; lia.
Qed.

(** X13: a slice confines the integer writers: whatever the offset and the
    value, [writeUInt32BE] and [writeUInt8] through [b.slice(start, end)]
    leave every byte of [b] outside [start .. end) as it was. *)
Theorem slice_confines_writes h b start end_ v offset :
  handle_ok h b ->
  0 <= start <= end_ -> end_ <= Z.of_nat (byteLength b) ->
  let s := slice b (Some start) (Some end_) in
  forall i, ~ (start <= i < end_) ->
    VSBuffer_readUInt8 (VSBuffer_writeUInt32BE s v offset h) b i
    = VSBuffer_readUInt8 h b i
    /\ VSBuffer_readUInt8 (VSBuffer_writeUInt8 s v offset h) b i
       = VSBuffer_readUInt8 h b i.
Proof.
  intros [Hl Hok] Hs He. rewrite Hl in He. cbv zeta. intros i Hi.
  unfold VSBuffer_readUInt8, VSBuffer_writeUInt32BE, VSBuffer_writeUInt8,
    readUInt8, writeUInt8, slice. cbn [buffer new_VSBuffer].
  rewrite u8_subarray_in_range by done.
  split.
  - apply writeUInt32BE_get_other.
    intros k Hk Hi1%is_index_spec Hi2%is_index_spec _.
    cbn [u8_byteLength u8_byteOffset] in *. lia.
  - apply u8_get_put_disjoint.
    intros Hi1%is_index_spec Hi2%is_index_spec _.
    cbn [u8_byteLength u8_byteOffset] in *. lia.
Qed.

(** ** Bytes in the heap *)

Lemma u8_bytes_are_bytes h a : heap_bytes h -> Forall is_byte (u8_bytes h a).
Proof.
  intros Hh. unfold u8_bytes. apply Forall_take, Forall_drop.
  destruct (h !! u8_data a) as [bs |] eqn:Hbs; [| apply Forall_nil_2].
  by eapply Forall_lookup_1 in Hh.
Qed.

Lemma heap_bytes_grow h bs : heap_bytes h -> Forall is_byte bs -> heap_bytes (h ++ [bs]).
Proof.
  intros Hh Hbs. apply Forall_app. split; [done |].
  apply Forall_cons_2; [done | apply Forall_nil_2].
Qed.

Lemma heap_bytes_alter (f : list Z -> list Z) n h :
  heap_bytes h ->
  (forall bs, Forall is_byte bs -> Forall is_byte (f bs)) ->
  heap_bytes (alter f n h).
Proof.
  intros Hh Hf. apply Forall_lookup_2. intros i bs.
  destruct (decide (n = i)) as [<- | Hne].
  - rewrite list_lookup_alter_eq. destruct (h !! n) as [c |] eqn:Hc; [| done].
    intros [= <-]. apply Hf. by eapply Forall_lookup_1 in Hh.
  - rewrite list_lookup_alter_ne by done. intros Hi.
    by eapply Forall_lookup_1 in Hh.
Qed.

Lemma heap_bytes_put a i v h : heap_bytes h -> heap_bytes (u8_put a i v h).
Proof.
  intros Hh. unfold u8_put. destruct (is_index a i); [| done].
  apply heap_bytes_alter; [done |]. intros bs Hbs.
  apply Forall_insert; [done |]. unfold is_byte, ToUint8.
  apply Z.mod_pos_bound. lia.
Qed.

Lemma heap_bytes_set target source offset h :
  heap_bytes h -> heap_bytes (snd (u8_set target source offset h)).
Proof.
  intros Hh. unfold u8_set. destruct (_ || _); [done |]. cbn [snd].
  apply heap_bytes_alter; [done |]. intros bs Hbs. unfold splice.
  apply Forall_app. split; [by apply Forall_take |].
  apply Forall_app. split; [by apply u8_bytes_are_bytes | by apply Forall_drop].
Qed.

Lemma heap_bytes_concat_fill r buffers :
  forall offset h, heap_bytes h -> heap_bytes (snd (concat_fill r buffers offset h)).
Proof.
  induction buffers as [| b bs IH]; intros offset h Hh; [done |].
  cbn [concat_fill]. unfold bind, set.
  pose proof (heap_bytes_set (buffer r) (buffer b) (Some offset) h Hh) as Hset.
  destruct (u8_set (buffer r) (buffer b) (Some offset) h) as [[[] | e] h1];
    cbn [snd] in *; [| done].
  by apply IH.
Qed.

Lemma heap_bytes_app h ext : heap_bytes h -> heap_bytes ext -> heap_bytes (h ++ ext).
Proof. intros Hh Hext. apply Forall_app. by split. Qed.

(** ** Allocation and wrapping *)

(** X14: [alloc] throws a [RangeError] for a negative length and for a
    length above what the host allows, and touches nothing; otherwise it
    returns a valid buffer of exactly that length, a [Buffer] where there
    is one, and writes nothing: the heap is as before, with at most new
    array buffers behind.  The buffer is memory handed out now: it shares
    no byte with a buffer there was outside the free part of the pool.
    Its cells hold bytes when those of the heap did, and without [Buffer]
    it is a new array buffer full of zeros. *)
Theorem alloc_outcomes host n st :
  ((n < 0 \/ maxLength host < n) /\ alloc host n st = (Throw RangeError, st))
  \/ (0 <= n <= maxLength host
      /\ exists b st',
           alloc host n st = (Normal b, st')
           /\ byteLength b = Z.to_nat n
           /\ handle_ok (memory st') b
           /\ u8_isBuffer (buffer b) = hasBuffer host
           /\ take (length (memory st)) (memory st') = memory st
           /\ (forall b0, handle_ok (memory st) b0 ->
                 outside_free_pool st (buffer b0) ->
                 disjoint (buffer b) (buffer b0))
           /\ (heap_bytes (memory st) -> Forall is_byte (bytes_of (memory st') b))
           /\ (hasBuffer host = false ->
               memory st !! u8_data (buffer b) = None
               /\ bytes_of (memory st') b = replicate (Z.to_nat n) 0)).
Proof.
  destruct (decide (0 <= n <= maxLength host)) as [Hn | Hn].
  2: { left. split; [lia | apply alloc_throws; lia]. }
  right. split; [done |].
  destruct (alloc_spec host n st Hn)
    as (b & st' & Hrun & Hl & Hbl & Hb & Hh & Hzero).
  pose proof Hh as ((ext & Hext & Hbytes) & Hok & Hdis & _).
  exists b, st'. split_and!; try done.
  - split; [lia | done].
  - rewrite Hext. by rewrite take_app_length.
  - intros b0 [_ Hb0] Hout. by apply Hdis.
  - intros Hm. apply u8_bytes_are_bytes. rewrite Hext. by apply heap_bytes_app.
  - intros Hno. destruct (Hzero Hno) as [Hr ->]. unfold bytes_of. rewrite Hr.
    simpl. split.
    + by apply lookup_ge_None_2.
    + unfold u8_bytes. simpl. rewrite lookup_fresh. simpl.
      rewrite drop_0. apply firstn_all2. by rewrite length_replicate.
Qed.

(** X15: [wrap] copies nothing: the buffer has the length and the bytes of
    the array it wraps and shares its memory, so that a byte stored
    through either one is read through the other; where [Buffer] exists
    the wrapped array is a [Buffer]. *)
Theorem wrap_aliases host h actual :
  view_ok h actual ->
  let b := wrap host actual in
  handle_ok h b
  /\ byteLength b = u8_byteLength actual
  /\ bytes_of h b = u8_bytes h actual
  /\ (hasBuffer host = true -> u8_isBuffer (buffer b) = true)
  /\ (forall i v, 0 <= i < Z.of_nat (u8_byteLength actual) ->
        u8_get (VSBuffer_writeUInt8 b v i h) actual i = Some (v mod 2 ^ 8))
  /\ (forall i v, 0 <= i < Z.of_nat (u8_byteLength actual) ->
        VSBuffer_readUInt8 (u8_put actual i v h) b i = Some (v mod 2 ^ 8)).
Proof.
  intros Hok. cbv zeta.
  pose proof (wrap_sound host h actual Hok) as Hb.
  assert (Hd : u8_data (buffer (wrap host actual)) = u8_data actual
               /\ u8_byteOffset (buffer (wrap host actual)) = u8_byteOffset actual
               /\ u8_byteLength (buffer (wrap host actual)) = u8_byteLength actual).
  { unfold wrap. by destruct (hasBuffer host && negb (u8_isBuffer actual)). }
  destruct Hd as (Hd & Ho & Hn).
  split_and!.
  - done.
  - by destruct Hb as [-> _].
  - unfold bytes_of, u8_bytes. by rewrite Hd, Ho, Hn.
  - intros Hhas. unfold wrap. rewrite Hhas.
    by destruct (u8_isBuffer actual) eqn:E.
  - intros i v Hi. unfold VSBuffer_writeUInt8, writeUInt8.
    apply u8_get_put_same.
    + by destruct Hb.
    + apply is_index_spec. lia.
    + by apply is_index_spec.
    + done.
    + lia.
  - intros i v Hi. unfold VSBuffer_readUInt8, readUInt8.
    apply u8_get_put_same.
    + done.
    + by apply is_index_spec.
    + apply is_index_spec. lia.
    + done.
    + lia.
Qed.

(** ** Concatenation, in full *)

Lemma sum_byteLength_length h buffers :
  Forall (handle_ok h) buffers ->
  sum_list (byteLength <$> buffers) = length (flat_map (bytes_of h) buffers).
Proof.
  intros Hall.
  pose proof (sum_byteLength_bytes h buffers Hall).
  pose proof (sum_byteLength_sum_list buffers). lia.
Qed.

(** X16: with a [totalLength] that is at least the sum of the input
    lengths and that the host allows, on inputs outside the free part of
    the pool, [concat] returns a buffer of exactly [totalLength] bytes
    that begins with the inputs' bytes in order; what follows is what
    [alloc] left there, zeros where there is no [Buffer]. *)
Theorem concat_with_room host st buffers n :
  Forall (handle_ok (memory st)) buffers ->
  Forall (fun b => outside_free_pool st (buffer b)) buffers ->
  Z.of_nat (sum_list (byteLength <$> buffers)) <= n <= maxLength host ->
  exists r st',
    concat host buffers (Some n) st = (Normal r, st')
    /\ byteLength r = Z.to_nat n
    /\ handle_ok (memory st') r
    /\ take (sum_list (byteLength <$> buffers)) (bytes_of (memory st') r)
       = flat_map (bytes_of (memory st)) buffers
    /\ (hasBuffer host = false ->
        drop (sum_list (byteLength <$> buffers)) (bytes_of (memory st') r)
        = replicate (Z.to_nat n - sum_list (byteLength <$> buffers)) 0).
Proof.
  intros Hall Hout Hroom.
  pose proof (sum_byteLength_sum_list buffers) as Hsl.
  rewrite (sum_byteLength_length (memory st) buffers Hall) in *.
  destruct (concat_spec host st buffers (Some n) Hall Hout)
    as (r & st' & Hrun & Hr & Hlen & _ & Htake & Hzero & _).
  { cbn [default from_option id]. lia. }
  cbn [default from_option id] in Hlen.
  exists r, st'. split_and!; try done.
  - lia.
  - intros Hno. rewrite (Hzero Hno), drop_app_length. f_equal. lia.
Qed.

(** When the inputs do not fit behind [offset], the filling loop throws:
    only the lengths decide. *)
Lemma concat_fill_throws r buffers :
  forall offset h,
    Forall (fun b => byteLength b = u8_byteLength (buffer b)) buffers ->
    0 <= offset <= Z.of_nat (u8_byteLength (buffer r)) ->
    Z.of_nat (u8_byteLength (buffer r)) < offset + sum_byteLength buffers ->
    fst (concat_fill r buffers offset h) = Throw RangeError.
Proof.
  induction buffers as [| b bs IH]; intros offset h Hall Hin Hover.
  - unfold sum_byteLength in Hover. simpl in Hover. lia.
  - apply Forall_cons in Hall as [Hb Hbs]. rewrite sum_byteLength_cons in Hover.
    cbn [concat_fill]. unfold bind, set.
    destruct (decide (offset + Z.of_nat (byteLength b)
                      <= Z.of_nat (u8_byteLength (buffer r)))) as [Hfit | Hnofit].
    + rewrite u8_set_ok by (cbn [default from_option id]; lia).
      apply IH; [done | lia | lia].
    + rewrite u8_set_throws by (cbn [default from_option id]; lia). done.
Qed.

(** X17: with a [totalLength] smaller than the sum of the input lengths,
    [concat] throws a [RangeError] and returns no buffer. *)
Theorem concat_short_throws host st buffers n :
  Forall (handle_ok (memory st)) buffers ->
  n < Z.of_nat (sum_list (byteLength <$> buffers)) ->
  fst (concat host buffers (Some n) st) = Throw RangeError.
Proof.
  intros Hall Hshort. rewrite <- sum_byteLength_sum_list in Hshort.
  unfold concat, bind, lift.
  destruct (decide (0 <= n <= maxLength host)) as [Hn | Hn].
  2: { by rewrite alloc_throws by lia. }
  destruct (alloc_spec host n st Hn) as (r & st1 & -> & _ & Hl & _).
  pose proof (concat_fill_throws r buffers 0 (memory st1)) as Hthrows.
  destruct (concat_fill r buffers 0 (memory st1)) as [res h2].
  cbn [fst] in *. rewrite Hthrows; [done | | lia | lia].
  eapply Forall_impl; [exact Hall |]. by intros b [Hb _].
Qed.

Lemma concat_fill_other_buffer r buffers :
  forall offset (h : Heap) n,
    n <> u8_data (buffer r) ->
    snd (concat_fill r buffers offset h) !! n = h !! n.
Proof.
  induction buffers as [| b bs IH]; intros offset h n Hn; [done |].
  cbn [concat_fill]. unfold bind.
  pose proof (u8_set_other_buffer (buffer r) (buffer b) (Some offset) h n Hn) as Hset.
  unfold set.
  destruct (u8_set (buffer r) (buffer b) (Some offset) h) as [[[] | e] h1];
    cbn [snd] in *; [| done].
  by rewrite IH.
Qed.

(** X18: [concat] writes to nothing but the memory it hands out: whatever
    the inputs and [totalLength], and whether it returns or throws, no
    array buffer changes its size and every buffer there was outside the
    free part of the pool shows the same bytes after; without [Buffer]
    the heap before the call is an initial part of the heap after it. *)
Theorem concat_keeps_heap host st buffers totalLength :
  same_sizes (memory st) (memory (snd (concat host buffers totalLength st)))
  /\ (forall b, handle_ok (memory st) b -> outside_free_pool st (buffer b) ->
        bytes_of (memory (snd (concat host buffers totalLength st))) b
        = bytes_of (memory st) b)
  /\ (hasBuffer host = false ->
      take (length (memory st)) (memory (snd (concat host buffers totalLength st)))
      = memory st).
Proof.
  unfold concat, bind, lift.
  set (total := match totalLength with
                | Some n0 => n0
                | None => sum_byteLength buffers
                end).
  destruct (decide (0 <= total <= maxLength host)) as [Hn | Hn].
  2: { rewrite alloc_throws by lia. cbn [snd].
       split_and!; [apply same_sizes_refl | done | intros _; apply firstn_all]. }
  destruct (alloc_spec host total st Hn) as (r & st1 & -> & _ & _ & _ & Hh & Hzero).
  pose proof Hh as ((ext & Hext & _) & Hok & Hdis & _).
  pose proof (concat_fill_frame r buffers 0 (memory st1)) as Hframe.
  pose proof (concat_fill_other_buffer r buffers 0 (memory st1)) as Hother.
  destruct (concat_fill r buffers 0 (memory st1)) as [res h2].
  destruct (Hframe res h2 Hok ltac:(lia) eq_refl) as [Hs Hkeep].
  assert (Hmem : memory (snd (match res with
                              | Normal a => ret r {| memory := h2; pool := pool st1 |}
                              | Throw e => (Throw e, {| memory := h2; pool := pool st1 |})
                              end)) = h2) by (by destruct res).
  rewrite Hmem. cbn [snd] in Hother. split_and!.
  - eapply same_sizes_trans; [by eapply handed_out_same_sizes | done].
  - intros b [_ Hb] Hout. unfold bytes_of. rewrite Hkeep by (by apply Hdis).
    rewrite Hext. by apply u8_bytes_app.
  - intros Hno. destruct (Hzero Hno) as [Hr Hst1].
    apply list_eq. intros k.
    destruct (decide (k < length (memory st))%nat) as [Hk | Hk].
    + rewrite lookup_take_lt by done.
      rewrite Hother by (rewrite Hr; simpl; lia).
      rewrite Hst1. simpl. by apply lookup_app_l.
    + rewrite lookup_take_ge by lia. symmetry. apply lookup_ge_None_2. lia.
Qed.

Lemma slice_bytes h b start end_ :
  handle_ok h b ->
  0 <= start <= end_ -> end_ <= Z.of_nat (byteLength b) ->
  bytes_of h (slice b (Some start) (Some end_))
  = take (Z.to_nat (end_ - start)) (drop (Z.to_nat start) (bytes_of h b)).
Proof.
  intros [Hl Hok] Hs He. rewrite Hl in He. unfold bytes_of, slice.
  cbn [buffer new_VSBuffer].
  rewrite u8_subarray_in_range by done.
  rewrite (u8_bytes_inside h (buffer b)); cbn [u8_data u8_byteOffset u8_byteLength].
  - do 2 f_equal. lia.
  - done.
  - lia.
  - lia.
Qed.

(** X19: slicing the result of [concat] at the running offsets gives the
    inputs back: for inputs outside the free part of the pool, of a summed
    length that the host allows, the part of [concat(pre ++ [b] ++ post)]
    from the summed length of [pre], of the length of [b], holds the
    bytes of [b]. *)
Theorem concat_then_slice host st pre b post :
  Forall (handle_ok (memory st)) (pre ++ b :: post) ->
  Forall (fun b => outside_free_pool st (buffer b)) (pre ++ b :: post) ->
  Z.of_nat (sum_list (byteLength <$> pre ++ b :: post)) <= maxLength host ->
  exists r st',
    concat host (pre ++ b :: post) None st = (Normal r, st')
    /\ bytes_of (memory st')
         (slice r (Some (Z.of_nat (sum_list (byteLength <$> pre))))
                  (Some (Z.of_nat (sum_list (byteLength <$> pre) + byteLength b))))
       = bytes_of (memory st) b.
Proof.
  intros Hall Hout Hmax.
  destruct (concat_all host st _ Hall Hout Hmax)
    as (r & st' & Hrun & Hr & Hlen & Hb & _).
  exists r, st'. split; [exact Hrun |].
  rewrite (sum_byteLength_length (memory st) _ Hall), flat_map_app, length_app in Hlen.
  cbn [flat_map] in Hlen. rewrite length_app in Hlen.
  apply Forall_app in Hall as [Hpre Hrest].
  apply Forall_cons in Hrest as [Hbok Hpost].
  pose proof (sum_byteLength_length (memory st) pre Hpre) as Hp.
  pose proof (sum_byteLength_length (memory st) post Hpost) as Hq.
  pose proof (bytes_of_length (memory st) b Hbok) as Hlb.
  rewrite slice_bytes by (done || lia).
  rewrite Hb, flat_map_app. cbn [flat_map].
  rewrite Nat2Z.id, Hp, drop_app_length.
  replace (Z.to_nat _) with (length (bytes_of (memory st) b)) by lia.
  apply take_app_length.
Qed.

(** A view is known by its cells. *)
Lemma u8_bytes_gets h h' a :
  (forall i, is_index a i = true -> u8_get h' a i = u8_get h a i) ->
  u8_bytes h' a = u8_bytes h a.
Proof.
  intros Hget. apply list_eq. intros k.
  destruct (decide (k < u8_byteLength a)%nat) as [Hk | Hk].
  - assert (Hi : is_index a (Z.of_nat k) = true) by (apply is_index_spec; lia).
    pose proof (u8_bytes_lookup h a _ Hi) as E.
    pose proof (u8_bytes_lookup h' a _ Hi) as E'.
    rewrite Nat2Z.id in E, E'. rewrite E, E'. by apply Hget.
  - unfold u8_bytes. by rewrite !lookup_take_ge by lia.
Qed.

Lemma writeUInt32BE_disjoint h a a' v offset :
  disjoint a a' -> u8_bytes (writeUInt32BE a v offset h) a' = u8_bytes h a'.
Proof.
  intros Hd. apply u8_bytes_gets. intros j Hj.
  apply writeUInt32BE_get_other.
  intros k Hk Hi%is_index_spec Hj'%is_index_spec Hdata.
  destruct Hd as [Hd | Hd]; [done | lia].
Qed.

(** X20: the result of [concat] is a copy: for inputs outside the free
    part of the pool, of a summed length that the host allows, it shares
    no byte with a buffer there was outside the free part of the pool.  A
    later [writeUInt32BE] through the result changes no byte of such a
    buffer, and one through such a buffer changes no byte of the result. *)
Theorem concat_result_independent host st buffers :
  Forall (handle_ok (memory st)) buffers ->
  Forall (fun b => outside_free_pool st (buffer b)) buffers ->
  Z.of_nat (sum_list (byteLength <$> buffers)) <= maxLength host ->
  exists r st',
    concat host buffers None st = (Normal r, st')
    /\ forall b, handle_ok (memory st) b -> outside_free_pool st (buffer b) ->
         disjoint (buffer r) (buffer b)
         /\ forall v offset,
              bytes_of (VSBuffer_writeUInt32BE r v offset (memory st')) b
              = bytes_of (memory st) b
              /\ bytes_of (VSBuffer_writeUInt32BE b v offset (memory st')) r
                 = bytes_of (memory st') r.
Proof.
  intros Hall Hout Hmax.
  destruct (concat_all host st _ Hall Hout Hmax)
    as (r & st' & Hrun & _ & _ & _ & Hframe & _).
  exists r, st'. split; [exact Hrun |].
  intros b Hb Hob. destruct (Hframe b Hb Hob) as [Hd Hsame].
  split; [done |]. intros v offset. unfold VSBuffer_writeUInt32BE, bytes_of. split.
  - rewrite writeUInt32BE_disjoint by done. exact Hsame.
  - apply writeUInt32BE_disjoint.
    destruct Hd as [Hd | [Hd | Hd]]; [left; congruence | right; right | right; left];
      done.
Qed.

(** ** The allocation pool *)

Lemma store_ok_same_sizes st h :
  store_ok st -> same_sizes (memory st) h -> store_ok {| memory := h; pool := pool st |}.
Proof.
  intros Hst Hs p Hp. simpl in *. specialize (Hst p Hp).
  destruct (lookup_lt_is_Some_2 (memory st) (allocPool p) Hst) as [bs Hbs].
  destruct (Hs _ _ Hbs) as (bs' & Hbs' & _). by eapply lookup_lt_Some.
Qed.

(** The pool being in order, [alloc] leaves it so, returns a buffer
    outside its free part and leaves outside what was outside. *)
Lemma alloc_pool host n st r st' :
  store_ok st ->
  alloc host n st = (r, st') ->
  store_ok st'
  /\ Forall (fun b => outside_free_pool st' (buffer b)) (created r)
  /\ forall a, view_ok (memory st) a -> outside_free_pool st a ->
               outside_free_pool st' a.
Proof.
  intros Hst. destruct (decide (0 <= n <= maxLength host)) as [Hn | Hn].
  - destruct (alloc_spec host n st Hn)
      as (b & st1 & -> & _ & _ & _ & (_ & _ & _ & Hpool) & _).
    intros [= <- <-]. destruct (Hpool Hst) as (Hst1 & Hb & Hkeep).
    split_and!; [done | | done].
    apply Forall_cons_2; [done | apply Forall_nil_2].
  - rewrite alloc_throws by lia. intros [= <- <-].
    split_and!; [done | apply Forall_nil_2 | done].
Qed.

Lemma fromString_pool host source st r st' :
  store_ok st ->
  fromString host source st = (r, st') ->
  store_ok st'
  /\ Forall (fun b => outside_free_pool st' (buffer b)) (created r)
  /\ forall a, view_ok (memory st) a -> outside_free_pool st a ->
               outside_free_pool st' a.
Proof.
  intros Hst.
  destruct (fromString_run host source st)
    as (b & st1 & -> & _ & _ & _ & (_ & _ & _ & Hpool)).
  intros [= <- <-]. destruct (Hpool Hst) as (Hst1 & Hb & Hkeep).
  split_and!; [done | | done].
  apply Forall_cons_2; [done | apply Forall_nil_2].
Qed.

Lemma concat_pool host buffers totalLength st r st' :
  store_ok st ->
  concat host buffers totalLength st = (r, st') ->
  store_ok st'
  /\ Forall (fun b => outside_free_pool st' (buffer b)) (created r)
  /\ forall a, view_ok (memory st) a -> outside_free_pool st a ->
               outside_free_pool st' a.
Proof.
  intros Hst. unfold concat, bind, lift.
  destruct (alloc host _ st) as [[b | e] st1] eqn:Halloc.
  - pose proof (alloc_sound _ _ _ _ _ Halloc) as [_ Hb].
    apply Forall_cons in Hb as [[_ Hb] _].
    apply (alloc_pool _ _ _ _ _ Hst) in Halloc as (Hst1 & Hout & Hkeep).
    apply Forall_cons in Hout as [Hout _].
    destruct (concat_fill b buffers 0 (memory st1)) as [res h2] eqn:Hfill.
    apply concat_fill_frame in Hfill as [Hs2 _]; [| done | lia].
    pose proof (store_ok_same_sizes st1 h2 Hst1 Hs2) as Hst2.
    destruct res as [[] | e]; intros [= <- <-]; (split_and!; [done | | done]).
    + apply Forall_cons_2; [done | apply Forall_nil_2].
    + apply Forall_nil_2.
  - apply (alloc_pool _ _ _ _ _ Hst) in Halloc as (Hst1 & _ & Hkeep).
    intros [= <- <-]. split_and!; [done | apply Forall_nil_2 | done].
Qed.

Lemma slice_outside st b start end_ :
  outside_free_pool st (buffer b) ->
  outside_free_pool st (buffer (slice b start end_)).
Proof.
  intros Hout p Hp Hd.
  destruct (u8_subarray_inside (buffer b) start end_) as (Hdata & Hlo & Hhi).
  unfold slice in *. cbn [buffer new_VSBuffer] in *.
  rewrite Hdata in Hd. specialize (Hout p Hp Hd). lia.
Qed.

Lemma step_pool host w w' :
  store_ok (store w) ->
  Forall (handle_ok (heap w)) (handles w) ->
  step host w w' ->
  store_ok (store w')
  /\ forall a, view_ok (heap w) a -> outside_free_pool (store w) a ->
               outside_free_pool (store w') a.
Proof.
  intros Hst Hinv Hstep.
  assert (Hin : forall b, b ∈ handles w -> handle_ok (heap w) b).
  { intros b Hb. by eapply Forall_forall in Hinv. }
  destruct Hstep as [w n r st' Hrun | w a Ha | w s r st' Hrun
                    | w bs total r st' Hbs Hrun | w b st en Hb
                    | w b arr off r h' Hb Harr Hrun | w b v off Hb
                    | w b v off Hb | w bs]; unfold heap, with_heap in *; cbn [store].
  - by apply (alloc_pool _ _ _ _ _ Hst) in Hrun as (? & _ & ?).
  - done.
  - by apply (fromString_pool _ _ _ _ _ Hst) in Hrun as (? & _ & ?).
  - by apply (concat_pool _ _ _ _ _ _ Hst) in Hrun as (? & _ & ?).
  - done.
  - split; [| done]. apply store_ok_same_sizes; [done |].
    eapply same_sizes_set; [apply (Hin b Hb) | apply (Hin arr Harr) | exact Hrun].
  - split; [| done]. apply store_ok_same_sizes; [done |].
    apply same_sizes_writeUInt32BE.
  - split; [| done]. apply store_ok_same_sizes; [done |]. apply same_sizes_put.
  - split; [| done]. apply store_ok_same_sizes; [done |]. apply same_sizes_grow.
Qed.

Lemma reachable_store_ok host w : reachable host w -> store_ok (store w).
Proof.
  intros Hr.
  cut (store_ok (store w) /\ Forall (handle_ok (heap w)) (handles w)); [tauto |].
  revert w Hr. unfold reachable.
  apply (rtc_ind_r (fun w => store_ok (store w)
                             /\ Forall (handle_ok (heap w)) (handles w)) initial).
  - split; [intros p Hp; discriminate Hp | apply Forall_nil_2].
  - intros w w' _ Hstep [Hst Hinv]. split.
    + by apply (step_pool host w w').
    + by apply (step_sound host w w').
Qed.

(** X28: the bookkeeping of the pool.  In every state a program can
    reach, the pool is one of the array buffers; what [alloc],
    [fromString] and [concat] return lies outside the part of the pool
    that has not been handed out; a slice of a buffer outside it is
    outside it; and every operation leaves outside it what was outside:
    only [wrap] can make a buffer on memory that a later allocation hands
    out. *)
Theorem pool_discipline host w :
  reachable host w ->
  store_ok (store w)
  /\ (forall n b st', alloc host n (store w) = (Normal b, st') ->
        outside_free_pool st' (buffer b))
  /\ (forall s b st', fromString host s (store w) = (Normal b, st') ->
        outside_free_pool st' (buffer b))
  /\ (forall buffers totalLength b st',
        concat host buffers totalLength (store w) = (Normal b, st') ->
        outside_free_pool st' (buffer b))
  /\ (forall b start end_,
        outside_free_pool (store w) (buffer b) ->
        outside_free_pool (store w) (buffer (slice b start end_)))
  /\ (forall w', step host w w' ->
        store_ok (store w')
        /\ forall a, view_ok (heap w) a -> outside_free_pool (store w) a ->
                     outside_free_pool (store w') a).
Proof.
  intros Hr. pose proof (reachable_store_ok host w Hr) as Hst.
  pose proof (reachable_sound host w Hr) as Hinv.
  split_and!.
  - done.
  - intros n b st' Hrun.
    apply (alloc_pool _ _ _ _ _ Hst) in Hrun as (_ & Hb & _).
    by apply Forall_cons in Hb as [Hb _].
  - intros s b st' Hrun.
    apply (fromString_pool _ _ _ _ _ Hst) in Hrun as (_ & Hb & _).
    by apply Forall_cons in Hb as [Hb _].
  - intros buffers totalLength b st' Hrun.
    apply (concat_pool _ _ _ _ _ _ Hst) in Hrun as (_ & Hb & _).
    by apply Forall_cons in Hb as [Hb _].
  - intros b start end_. apply slice_outside.
  - intros w' Hstep. by apply (step_pool host w w').
Qed.

(** ** Buffers on Node are [Buffer]s *)

Lemma alloc_isBuffer host n st b st' :
  alloc host n st = (Normal b, st') -> u8_isBuffer (buffer b) = hasBuffer host.
Proof.
  destruct (decide (0 <= n <= maxLength host)) as [Hn | Hn].
  - destruct (alloc_spec host n st Hn) as (b1 & st1 & -> & _ & _ & Hb & _).
    by intros [= <- _].
  - by rewrite alloc_throws by lia.
Qed.

Lemma concat_isBuffer host buffers totalLength st b st' :
  concat host buffers totalLength st = (Normal b, st') ->
  u8_isBuffer (buffer b) = hasBuffer host.
Proof.
  unfold concat, bind, lift.
  destruct (alloc host _ st) as [[r | e] st1] eqn:Halloc; [| done].
  apply alloc_isBuffer in Halloc.
  destruct (concat_fill r buffers 0 (memory st1)) as [[[] | e] h2]; [| done].
  unfold ret. by intros [= <- _].
Qed.

Lemma fromString_isBuffer host source st b st' :
  fromString host source st = (Normal b, st') ->
  u8_isBuffer (buffer b) = hasBuffer host.
Proof.
  destruct (fromString_run host source st) as (b1 & st1 & -> & _ & Hb & _).
  by intros [= <- _].
Qed.

Lemma step_isBuffer host w w' :
  hasBuffer host = true ->
  Forall (fun b => u8_isBuffer (buffer b) = true) (handles w) ->
  step host w w' ->
  Forall (fun b => u8_isBuffer (buffer b) = true) (handles w').
Proof.
  intros Hhas Hinv Hstep.
  destruct Hstep as [w n r h' Hrun | w a Ha | w s r h' Hrun
                    | w bs total r h' Hbs Hrun | w b st en Hb
                    | w b arr off r h' Hb Harr Hrun | w b v off Hb
                    | w b v off Hb | w bs]; cbn [handles]; try done.
  - destruct r as [b | e]; [| done]. apply Forall_cons_2; [| done].
    apply alloc_isBuffer in Hrun. congruence.
  - apply Forall_cons_2; [| done]. unfold wrap. rewrite Hhas.
    by destruct (u8_isBuffer a) eqn:E.
  - destruct r as [b | e]; [| done]. apply Forall_cons_2; [| done].
    apply fromString_isBuffer in Hrun. congruence.
  - destruct r as [b | e]; [| done]. apply Forall_cons_2; [| done].
    apply concat_isBuffer in Hrun. congruence.
  - apply Forall_cons_2; [| done].
    eapply Forall_forall in Hinv; [| exact Hb]. done.
Qed.

(** X21: where [Buffer] exists, every buffer a program can get hold of is
    backed by a [Buffer] ([wrap] converts plain arrays, [slice] keeps the
    kind), so that [toString] always decodes the bytes as UTF-8 and never
    falls back on the element list of a plain typed array. *)
Theorem toString_on_Node host w :
  reachable host w ->
  hasBuffer host = true ->
  Forall (fun b => u8_isBuffer (buffer b) = true
                   /\ toString host (heap w) b = utf8_decode (bytes_of (heap w) b))
         (handles w).
Proof.
  intros Hr Hhas.
  assert (Hinv : Forall (fun b => u8_isBuffer (buffer b) = true) (handles w)).
  { revert w Hr. unfold reachable.
    apply (rtc_ind_r (fun w => Forall (fun b => u8_isBuffer (buffer b) = true)
                                      (handles w)) initial).
    - apply Forall_nil_2.
    - intros w w' _ Hstep Hinv. by eapply step_isBuffer. }
  eapply Forall_impl; [exact Hinv |].
  intros b Hb. split; [done |].
  rewrite toString_decode by congruence. by rewrite Hhas.
Qed.

(** ** Strings, further *)




Lemma utf8_encode_ascii s : Forall ascii s -> utf8_encode s = s.
Proof.
  unfold utf8_encode.
  induction 1 as [| c s Hc _ IH]; [done |]. unfold ascii in Hc.
  cbn [code_points].
  assert (Hhi : isHighSurrogate c = false)
    by (unfold isHighSurrogate; destruct (Z.leb_spec 0xD800 c); [lia | done]).
  assert (Hlo : isLowSurrogate c = false)
    by (unfold isLowSurrogate; destruct (Z.leb_spec 0xDC00 c); [lia | done]).
  rewrite Hhi, Hlo. cbn [flat_map]. rewrite IH.
  unfold utf8_encode_code_point. destruct (Z.ltb_spec c 0x80); [done | lia].
Qed.

Lemma ascii_well_formed s :
  Forall ascii s ->
  Forall code_unit s /\ well_formed s = true /\ starts_with_BOM s = false.
Proof.
  intros Hs. split_and!.
  - eapply Forall_impl; [exact Hs |]. unfold ascii, code_unit. lia.
  - induction Hs as [| c s Hc _ IH]; [done |]. unfold ascii in Hc.
    cbn [well_formed].
    assert (Hhi : isHighSurrogate c = false)
      by (unfold isHighSurrogate; destruct (Z.leb_spec 0xD800 c); [lia | done]).
    assert (Hlo : isLowSurrogate c = false)
      by (unfold isLowSurrogate; destruct (Z.leb_spec 0xDC00 c); [lia | done]).
    by rewrite Hhi, Hlo.
  - destruct Hs as [| c s Hc _]; [done |]. unfold ascii in Hc.
    cbn [starts_with_BOM]. apply Z.eqb_neq. lia.
Qed.

(** X23: an ASCII string is stored as it is, one byte for each character,
    and [toString] gives it back on every host. *)
Theorem fromString_ascii host s st :
  Forall ascii s ->
  exists b st',
    fromString host s st = (Normal b, st')
    /\ bytes_of (memory st') b = s
    /\ byteLength b = length s
    /\ toString host (memory st') b = s.
Proof.
  intros Hs. destruct (ascii_well_formed s Hs) as (Hcu & Hwf & Hbom).
  destruct (fromString_spec host s st Hcu)
    as (b & st' & Hrun & Hl & Hb & Hbytes & Hok & _).
  pose proof (toString_encoded host s (memory st') b Hb Hbytes Hcu Hwf
                (fun _ _ => Hbom)) as Hrt.
  rewrite (utf8_encode_ascii s Hs) in *.
  exists b, st'. split_and!; try done.
  rewrite Hl, <- (u8_bytes_length (memory st') (buffer b)) by done.
  fold (bytes_of (memory st') b). by rewrite Hbytes.
Qed.

(** On a well-formed string followed by another one, the conversion to
    scalar values goes string by string. *)
Lemma code_points_app s1 s2 :
  well_formed s1 = true ->
  code_points (s1 ++ s2) = code_points s1 ++ code_points s2
  /\ well_formed (s1 ++ s2) = well_formed s2.
Proof.
  induction s1 as [| c | c d s IH1 IH2] using string_ind2; intros Hwf.
  - done.
  - cbn [well_formed] in Hwf. cbn [app code_points well_formed].
    destruct (isHighSurrogate c); [done |].
    destruct (isLowSurrogate c); [done |].
    by destruct s2.
  - cbn [well_formed] in Hwf. cbn [app code_points well_formed] in *.
    destruct (isHighSurrogate c).
    + destruct (isLowSurrogate d); [| done]. cbn [andb] in Hwf.
      destruct (IH1 Hwf) as [-> ->]. done.
    + destruct (isLowSurrogate c); [done |]. cbn [negb andb] in Hwf.
      destruct (IH2 Hwf) as [-> ->]. done.
Qed.

Lemma utf8_encode_app s1 s2 :
  well_formed s1 = true ->
  utf8_encode (s1 ++ s2) = utf8_encode s1 ++ utf8_encode s2.
Proof.
  intros Hwf. unfold utf8_encode.
  destruct (code_points_app s1 s2 Hwf) as [-> _]. apply flat_map_app.
Qed.

(** X24: encoding, concatenating and decoding: the buffers of two
    well-formed strings, put together by [concat], decode to the two
    strings put together (with [TextDecoder], provided the first
    character is not the byte order mark), when the host allows a buffer
    of the length of the whole. *)
Theorem fromString_concat_toString host s1 s2 st :
  store_ok st ->
  Forall code_unit s1 -> Forall code_unit s2 ->
  well_formed s1 = true -> well_formed s2 = true ->
  (hasBuffer host = false -> hasTextDecoder host = true ->
   starts_with_BOM (s1 ++ s2) = false) ->
  Z.of_nat (length (utf8_encode (s1 ++ s2))) <= maxLength host ->
  exists r st',
    (let* b1 := fromString host s1 in
     let* b2 := fromString host s2 in
     concat host [b1; b2] None) st = (Normal r, st')
    /\ toString host (memory st') r = s1 ++ s2.
Proof.
  intros Hst Hs1 Hs2 Hwf1 Hwf2 Hbom Hmax.
  rewrite utf8_encode_app, length_app in Hmax by done.
  destruct (fromString_spec host s1 st Hs1)
    as (b1 & st1 & Hrun1 & Hl1 & _ & Hbytes1 & Hok1 & Hs01 & _ & Hpool1).
  destruct (Hpool1 Hst) as (Hst1 & Hout1 & _).
  destruct (fromString_spec host s2 st1 Hs2)
    as (b2 & st2 & Hrun2 & Hl2 & _ & Hbytes2 & Hok2 & Hs12 & Hframe2 & Hpool2).
  destruct (Hpool2 Hst1) as (Hst2 & Hout2 & Hkeep2).
  destruct (Hframe2 (buffer b1) Hok1 Hout1) as [_ Hsame1].
  assert (Hb1 : handle_ok (memory st2) b1).
  { split; [done |]. by eapply view_ok_same_sizes. }
  assert (Hb2 : handle_ok (memory st2) b2) by (by split).
  assert (Hall : Forall (handle_ok (memory st2)) [b1; b2]).
  { apply Forall_cons_2; [done |]. apply Forall_cons_2; [done | apply Forall_nil_2]. }
  assert (Hout : Forall (fun b => outside_free_pool st2 (buffer b)) [b1; b2]).
  { apply Forall_cons_2; [by apply Hkeep2 |].
    apply Forall_cons_2; [done | apply Forall_nil_2]. }
  assert (E1 : bytes_of (memory st2) b1 = utf8_encode s1).
  { unfold bytes_of. by rewrite Hsame1. }
  destruct (concat_all host st2 [b1; b2] Hall Hout)
    as (r & st' & Hrun & _ & _ & Hbytes & _).
  { cbn [fmap list_fmap sum_list_with sum_list].
    rewrite <- (bytes_of_length _ _ Hb1), <- (bytes_of_length _ _ Hb2), E1, Hbytes2.
    unfold id. lia. }
  exists r, st'. split.
  { unfold bind. by rewrite Hrun1, Hrun2. }
  apply (toString_encoded host (s1 ++ s2)).
  - by eapply concat_isBuffer.
  - rewrite Hbytes. cbn [flat_map]. rewrite app_nil_r, E1, Hbytes2.
    by rewrite utf8_encode_app.
  - by apply Forall_app.
  - destruct (code_points_app s1 s2 Hwf1) as [_ ->]. done.
  - done.
Qed.

(** ** Bytes stay bytes *)

Lemma heap_bytes_splice pos src d h :
  heap_bytes h -> Forall is_byte src -> heap_bytes (alter (splice pos src) d h).
Proof.
  intros Hh Hsrc. apply heap_bytes_alter; [done |]. intros bs Hbs. unfold splice.
  apply Forall_app. split; [by apply Forall_take |].
  apply Forall_app. split; [done | by apply Forall_drop].
Qed.

Lemma heap_bytes_alloc host n st :
  heap_bytes (memory st) -> heap_bytes (memory (snd (alloc host n st))).
Proof.
  intros Hh. destruct (decide (0 <= n <= maxLength host)) as [Hn | Hn].
  - destruct (alloc_spec host n st Hn)
      as (b & st' & -> & _ & _ & _ & ((ext & Hm & Hext) & _) & _).
    cbn [snd]. rewrite Hm. by apply heap_bytes_app.
  - by rewrite alloc_throws by lia.
Qed.

Lemma heap_bytes_fromString host s st :
  Forall code_unit s ->
  heap_bytes (memory st) -> heap_bytes (memory (snd (fromString host s st))).
Proof.
  intros Hs Hh. pose proof (utf8_encode_bytes s Hs) as Hbytes.
  unfold fromString. destruct (hasBuffer host).
  - unfold Buffer_from_string, bind, lift, u8_write, ret.
    destruct (allocate_spec host (length (utf8_encode s)) st)
      as (a & st1 & -> & _ & _ & ((ext & Hext & Hbe) & _)).
    cbn [snd memory]. apply heap_bytes_splice; [| done].
    rewrite Hext. by apply heap_bytes_app.
  - unfold TextEncoder_encode, encodeUTF8, bind, ret, fresh_view.
    rewrite encodeUTF8_bytes_spec by done.
    destruct (hasTextEncoder host); cbn [snd memory]; by apply heap_bytes_grow.
Qed.

(** X25: the cells of the heap hold bytes, and every operation keeps it so:
    [alloc], [fromString], [concat], [set] and the integer writers store
    nothing but values from 0 to 255. *)
Theorem operations_keep_bytes host st :
  heap_bytes (memory st) ->
  (forall n, heap_bytes (memory (snd (alloc host n st))))
  /\ (forall s, Forall code_unit s ->
        heap_bytes (memory (snd (fromString host s st))))
  /\ (forall buffers totalLength,
        heap_bytes (memory (snd (concat host buffers totalLength st))))
  /\ (forall b array offset, heap_bytes (snd (set b array offset (memory st))))
  /\ (forall b v offset, heap_bytes (VSBuffer_writeUInt32BE b v offset (memory st)))
  /\ (forall b v offset, heap_bytes (VSBuffer_writeUInt8 b v offset (memory st))).
Proof.
  intros Hh. split_and!.
  - intros n. by apply heap_bytes_alloc.
  - intros s Hs. by apply heap_bytes_fromString.
  - intros buffers totalLength. unfold concat, bind, lift.
    pose proof (heap_bytes_alloc host
                  match totalLength with
                  | Some n => n
                  | None => sum_byteLength buffers
                  end st Hh) as Halloc.
    destruct (alloc host _ st) as [[r | e] st1]; cbn [snd] in *; [| done].
    pose proof (heap_bytes_concat_fill r buffers 0 (memory st1) Halloc) as Hfill.
    by destruct (concat_fill r buffers 0 (memory st1)) as [[[] | e] h2].
  - intros b array offset. by apply heap_bytes_set.
  - intros b v offset. unfold VSBuffer_writeUInt32BE, writeUInt32BE.
    by repeat apply heap_bytes_put.
  - intros b v offset. by apply heap_bytes_put.
Qed.

(** ** The lenient decoder *)






(** ** Chunks of mixed streams *)


(** ** The further statements at sample inputs *)

Lemma sample_heap_bytes : heap_bytes sample_heap.
Proof.
  apply Forall_cons_2; [| apply Forall_nil_2].
  repeat (apply Forall_cons_2; [unfold is_byte; lia |]). apply Forall_nil_2.
Defined.

Lemma sample_array_ok : view_ok sample_heap sample_array.
Proof. eexists. split; [reflexivity | simpl; lia]. Defined.

Lemma sample_single_ok : Forall (handle_ok sample_heap) [sample_inner].
Proof. apply Forall_cons_2; [exact sample_inner_ok | apply Forall_nil_2]. Defined.

Lemma sample_triple_ok :
  Forall (handle_ok sample_heap) ([sample_inner] ++ sample_whole :: [sample_inner]).
Proof.
  apply Forall_cons_2; [exact sample_inner_ok |].
  apply Forall_cons_2; [exact sample_whole_ok |].
  apply Forall_cons_2; [exact sample_inner_ok | apply Forall_nil_2].
Defined.

Lemma sample_single_outside :
  Forall (fun b => outside_free_pool sample_store (buffer b)) [sample_inner].
Proof.
  apply Forall_cons_2; [intros p Hp; discriminate Hp | apply Forall_nil_2].
Defined.

Lemma sample_triple_outside :
  Forall (fun b => outside_free_pool sample_store (buffer b))
         ([sample_inner] ++ sample_whole :: [sample_inner]).
Proof.
  apply Forall_cons_2; [intros p Hp; discriminate Hp |].
  apply Forall_cons_2; [intros p Hp; discriminate Hp |].
  apply Forall_cons_2; [intros p Hp; discriminate Hp | apply Forall_nil_2].
Defined.

Lemma sample_store_ok : store_ok sample_store.
Proof. intros p Hp. discriminate Hp. Defined.

Lemma sample_ascii_ok : Forall ascii [104; 105].
Proof. repeat (apply Forall_cons_2; [unfold ascii; lia |]). apply Forall_nil_2. Defined.

Lemma sample_text_ok : Forall code_unit [0x68; 0x20AC].
Proof.
  repeat (apply Forall_cons_2; [unfold code_unit; lia |]). apply Forall_nil_2.
Defined.

Lemma sample_emoji_ok : Forall code_unit [0xD83D; 0xDE00].
Proof.
  repeat (apply Forall_cons_2; [unfold code_unit; lia |]). apply Forall_nil_2.
Defined.

Lemma writeUInt32BE_bytes_witness :
  VSBuffer_readUInt8 (VSBuffer_writeUInt32BE sample_inner 0x01020304 2 sample_heap)
    sample_inner (2 + 1)
  = Some ((0x01020304 mod 2 ^ 32) / 2 ^ (8 * (3 - 1)) mod 2 ^ 8).
Proof.
  apply (writeUInt32BE_bytes sample_heap sample_inner 0x01020304 2 1);
    [exact sample_inner_ok | lia | simpl; lia].
Defined.

Lemma writeUInt32BE_negative_witness :
  VSBuffer_readUInt32BE (VSBuffer_writeUInt32BE sample_inner (-1) 0 sample_heap)
    sample_inner 0
  = Some (-1 + 2 ^ 32).
Proof.
  apply (writeUInt32BE_negative sample_heap sample_inner (-1) 0);
    [exact sample_inner_ok | lia | simpl; lia | lia].
Defined.

Lemma readUInt32BE_NaN_iff_witness :
  VSBuffer_readUInt32BE sample_heap sample_inner 1 = None
  <-> ~ (0 <= 1 /\ 1 + 4 <= Z.of_nat (byteLength sample_inner)).
Proof. apply (readUInt32BE_NaN_iff sample_heap sample_inner 1 sample_inner_ok). Defined.

Lemma readUInt32BE_value_witness :
  exists v,
    VSBuffer_readUInt32BE sample_heap sample_whole 2 = Some v
    /\ 0 <= v < 2 ^ 32
    /\ forall k, 0 <= k < 4 ->
         VSBuffer_readUInt8 sample_heap sample_whole (2 + k)
         = Some (v / 2 ^ (8 * (3 - k)) mod 2 ^ 8).
Proof.
  apply (readUInt32BE_value sample_heap sample_whole 2);
    [exact sample_whole_ok | exact sample_heap_bytes | lia | simpl; lia].
Defined.

Lemma readUInt32BE_writeUInt32BE_identity_witness :
  VSBuffer_writeUInt32BE sample_inner 0x0B0C0D0E 0 sample_heap = sample_heap.
Proof.
  apply (readUInt32BE_writeUInt32BE_identity sample_heap sample_inner 0 0x0B0C0D0E);
    [exact sample_heap_bytes | reflexivity].
Defined.

Lemma UInt8_out_of_bounds_witness :
  (VSBuffer_readUInt8 sample_heap sample_inner 4 = None
   <-> ~ 0 <= 4 < Z.of_nat (byteLength sample_inner))
  /\ (~ 0 <= 4 < Z.of_nat (byteLength sample_inner) ->
      forall v, VSBuffer_writeUInt8 sample_inner v 4 sample_heap = sample_heap).
Proof. apply (UInt8_out_of_bounds sample_heap sample_inner 4 sample_inner_ok). Defined.

Lemma set_copies_witness :
  exists h',
    set sample_whole sample_inner (Some 2) sample_heap = (Normal tt, h')
    /\ bytes_of h' sample_whole
       = take (Z.to_nat (default 0 (Some 2))) (bytes_of sample_heap sample_whole)
         ++ bytes_of sample_heap sample_inner
         ++ drop (Z.to_nat (default 0 (Some 2)) + byteLength sample_inner)
              (bytes_of sample_heap sample_whole)
    /\ handle_ok h' sample_whole
    /\ forall n, n <> u8_data (buffer sample_whole) -> h' !! n = sample_heap !! n.
Proof.
  apply (set_copies sample_heap sample_whole sample_inner (Some 2));
    [exact sample_whole_ok | exact sample_inner_ok | simpl; lia | simpl; lia].
Defined.

Lemma set_throws_iff_witness :
  (fst (set sample_inner sample_whole None sample_heap) = Throw RangeError
   <-> default 0 None < 0
       \/ Z.of_nat (byteLength sample_inner)
          < default 0 None + Z.of_nat (byteLength sample_whole))
  /\ (fst (set sample_inner sample_whole None sample_heap) = Throw RangeError ->
      snd (set sample_inner sample_whole None sample_heap) = sample_heap).
Proof.
  apply (set_throws_iff sample_heap sample_inner sample_whole None
           sample_inner_ok sample_whole_ok).
Defined.

Lemma slice_stays_inside_witness :
  let s := slice sample_whole (Some (-3)) (Some 100) in
  handle_ok sample_heap s
  /\ u8_data (buffer s) = u8_data (buffer sample_whole)
  /\ exists k, (k + byteLength s <= byteLength sample_whole)%nat
               /\ bytes_of sample_heap s
                  = take (byteLength s) (drop k (bytes_of sample_heap sample_whole)).
Proof.
  apply (slice_stays_inside sample_heap sample_whole (Some (-3)) (Some 100)
           sample_whole_ok).
Defined.

Lemma slice_edge_cases_witness :
  bytes_of sample_heap (slice sample_inner None None) = bytes_of sample_heap sample_inner
  /\ (forall start end_, 0 <= end_ <= start ->
        byteLength (slice sample_inner (Some start) (Some end_)) = 0%nat)
  /\ (forall k, 0 < k ->
        bytes_of sample_heap (slice sample_inner (Some (- k)) None)
        = drop (byteLength sample_inner - Z.to_nat k)
            (bytes_of sample_heap sample_inner)).
Proof. apply (slice_edge_cases sample_heap sample_inner sample_inner_ok). Defined.

Lemma slice_slice_witness :
  slice (slice sample_whole (Some 1) (Some 5)) (Some 1) (Some 3)
  = slice sample_whole (Some (1 + 1)) (Some (1 + 3)).
Proof.
  apply (slice_slice sample_whole 1 5 1 3);
    [reflexivity | lia | simpl; lia | lia | lia].
Defined.

Lemma slice_confines_writes_witness :
  VSBuffer_readUInt8
    (VSBuffer_writeUInt32BE (slice sample_whole (Some 1) (Some 5)) (-1) 2 sample_heap)
    sample_whole 5
  = VSBuffer_readUInt8 sample_heap sample_whole 5
  /\ VSBuffer_readUInt8
       (VSBuffer_writeUInt8 (slice sample_whole (Some 1) (Some 5)) (-1) 2 sample_heap)
       sample_whole 5
     = VSBuffer_readUInt8 sample_heap sample_whole 5.
Proof.
  apply (slice_confines_writes sample_heap sample_whole 1 5 (-1) 2);
    [exact sample_whole_ok | lia | simpl; lia | lia].
Defined.

Lemma wrap_aliases_witness :
  let b := wrap node_host sample_array in
  handle_ok sample_heap b
  /\ byteLength b = u8_byteLength sample_array
  /\ bytes_of sample_heap b = u8_bytes sample_heap sample_array
  /\ (hasBuffer node_host = true -> u8_isBuffer (buffer b) = true)
  /\ (forall i v, 0 <= i < Z.of_nat (u8_byteLength sample_array) ->
        u8_get (VSBuffer_writeUInt8 b v i sample_heap) sample_array i
        = Some (v mod 2 ^ 8))
  /\ (forall i v, 0 <= i < Z.of_nat (u8_byteLength sample_array) ->
        VSBuffer_readUInt8 (u8_put sample_array i v sample_heap) b i
        = Some (v mod 2 ^ 8)).
Proof. apply (wrap_aliases node_host sample_heap sample_array sample_array_ok). Defined.

Lemma concat_with_room_witness :
  exists r st',
    concat browser_host [sample_inner] (Some 6) sample_store = (Normal r, st')
    /\ byteLength r = Z.to_nat 6
    /\ handle_ok (memory st') r
    /\ take (sum_list (byteLength <$> [sample_inner])) (bytes_of (memory st') r)
       = flat_map (bytes_of (memory sample_store)) [sample_inner]
    /\ (hasBuffer browser_host = false ->
        drop (sum_list (byteLength <$> [sample_inner])) (bytes_of (memory st') r)
        = replicate (Z.to_nat 6 - sum_list (byteLength <$> [sample_inner])) 0).
Proof.
  apply (concat_with_room browser_host sample_store [sample_inner] 6);
    [exact sample_single_ok | exact sample_single_outside |].
  split; [simpl; lia | vm_compute; discriminate].
Defined.

Lemma concat_short_throws_witness :
  fst (concat node_host [sample_inner; sample_whole] (Some 6) sample_store)
  = Throw RangeError.
Proof.
  apply (concat_short_throws node_host sample_store [sample_inner; sample_whole] 6);
    [exact sample_pair_ok | simpl; lia].
Defined.

Lemma concat_then_slice_witness :
  exists r st',
    concat node_host ([sample_inner] ++ sample_whole :: [sample_inner]) None sample_store
    = (Normal r, st')
    /\ bytes_of (memory st')
         (slice r (Some (Z.of_nat (sum_list (byteLength <$> [sample_inner]))))
                  (Some (Z.of_nat (sum_list (byteLength <$> [sample_inner])
                                   + byteLength sample_whole))))
       = bytes_of (memory sample_store) sample_whole.
Proof.
  apply (concat_then_slice node_host sample_store [sample_inner] sample_whole
           [sample_inner] sample_triple_ok sample_triple_outside).
  vm_compute. discriminate.
Defined.

Lemma concat_result_independent_witness :
  exists r st',
    concat node_host [sample_inner] None sample_store = (Normal r, st')
    /\ forall b, handle_ok (memory sample_store) b ->
         outside_free_pool sample_store (buffer b) ->
         disjoint (buffer r) (buffer b)
         /\ forall v offset,
              bytes_of (VSBuffer_writeUInt32BE r v offset (memory st')) b
              = bytes_of (memory sample_store) b
              /\ bytes_of (VSBuffer_writeUInt32BE b v offset (memory st')) r
                 = bytes_of (memory st') r.
Proof.
  apply (concat_result_independent node_host sample_store [sample_inner]
           sample_single_ok sample_single_outside).
  vm_compute. discriminate.
Defined.

Lemma toString_on_Node_witness :
  Forall (fun b => u8_isBuffer (buffer b) = true
                   /\ toString node_host (heap sample_world) b
                      = utf8_decode (bytes_of (heap sample_world) b))
         (handles sample_world).
Proof.
  apply (toString_on_Node node_host sample_world sample_world_reachable eq_refl).
Defined.


Lemma fromString_ascii_witness :
  exists b st',
    fromString bare_host [104; 105] sample_store = (Normal b, st')
    /\ bytes_of (memory st') b = [104; 105]
    /\ byteLength b = length [104; 105]
    /\ toString bare_host (memory st') b = [104; 105].
Proof. apply (fromString_ascii bare_host [104; 105] sample_store sample_ascii_ok). Defined.

Lemma fromString_concat_toString_witness :
  exists r st',
    (let* b1 := fromString node_host [0x68; 0x20AC] in
     let* b2 := fromString node_host [0xD83D; 0xDE00] in
     concat node_host [b1; b2] None) sample_store = (Normal r, st')
    /\ toString node_host (memory st') r = [0x68; 0x20AC] ++ [0xD83D; 0xDE00].
Proof.
  apply (fromString_concat_toString node_host [0x68; 0x20AC] [0xD83D; 0xDE00]
           sample_store sample_store_ok sample_text_ok sample_emoji_ok eq_refl eq_refl).
  - intros Hno. discriminate Hno.
  - vm_compute. discriminate.
Defined.

Lemma operations_keep_bytes_witness :
  (forall n, heap_bytes (memory (snd (alloc node_host n sample_store))))
  /\ (forall s, Forall code_unit s ->
        heap_bytes (memory (snd (fromString node_host s sample_store))))
  /\ (forall buffers totalLength,
        heap_bytes (memory (snd (concat node_host buffers totalLength sample_store))))
  /\ (forall b array offset,
        heap_bytes (snd (set b array offset (memory sample_store))))
  /\ (forall b v offset,
        heap_bytes (VSBuffer_writeUInt32BE b v offset (memory sample_store)))
  /\ (forall b v offset,
        heap_bytes (VSBuffer_writeUInt8 b v offset (memory sample_store))).
Proof. apply (operations_keep_bytes node_host sample_store sample_heap_bytes). Defined.



Lemma pool_discipline_witness :
  store_ok (store sample_world)
  /\ (forall n b st', alloc node_host n (store sample_world) = (Normal b, st') ->
        outside_free_pool st' (buffer b))
  /\ (forall s b st', fromString node_host s (store sample_world) = (Normal b, st') ->
        outside_free_pool st' (buffer b))
  /\ (forall buffers totalLength b st',
        concat node_host buffers totalLength (store sample_world) = (Normal b, st') ->
        outside_free_pool st' (buffer b))
  /\ (forall b start end_,
        outside_free_pool (store sample_world) (buffer b) ->
        outside_free_pool (store sample_world) (buffer (slice b start end_)))
  /\ (forall w', step node_host sample_world w' ->
        store_ok (store w')
        /\ forall a, view_ok (heap sample_world) a ->
                     outside_free_pool (store sample_world) a ->
                     outside_free_pool (store w') a).
Proof. apply (pool_discipline node_host sample_world sample_world_reachable). Defined.
